(** * ISCC reference implementation: a shallow embedding and its properties

    The development follows [src/iscc/iscc.py] (the base58 generation of the
    identifier kernel) and [src/iscc/metrics.py] (the Hamming-distance
    helpers of the base32 generation).

    Python values are embedded as follows.
    - [int] is [Z]; [//] and [%] by a positive divisor are [Z.div] and
      [Z.modulo]; [&], [|], [^], [<<], [>>] are [Z.land], [Z.lor], [Z.lxor],
      [Z.shiftl], [Z.shiftr].
    - [bytes] is a list of [Z], each in [0, 256) ([is_bytes]).
    - [str] is the list of its code points.
    - a [dict] from code points to code points (the result of
      [str.maketrans]) is a [gmap Z Z].
    - an input that is read through [read] is a bytes buffer, which the
      code wraps in a [BytesIO] with exact reads, or a [Stream.stream],
      whose [read] may deliver fewer bytes than it is asked for.
    - a function that may raise returns a [result]; loops whose trip count
      is not syntactically bounded take fuel and answer [OutOfFuel] when it
      is exhausted. *)

From Stdlib Require Import Strings.String Strings.Ascii.
From Stdlib Require Import ZArith List Lia Bool.
From stdpp Require Import base numbers option list gmap.

Local Open Scope Z_scope.

(** ** Exceptions and the result monad *)

Inductive exn : Set :=
| ValueError
| AssertionError
| IndexError
| OverflowError
| TypeError
| UnicodeEncodeError.

Inductive result (A : Type) : Type :=
| Ok (a : A)
| Raise (e : exn)
| OutOfFuel.

Arguments Ok {A} a.
Arguments Raise {A} e.
Arguments OutOfFuel {A}.

Definition bind {A B : Type} (m : result A) (k : A -> result B) : result B :=
  match m with
  | Ok a => k a
  | Raise e => Raise e
  | OutOfFuel => OutOfFuel
  end.

Notation "'let*' x := m 'in' k" := (bind m (fun x => k))
  (at level 10, x pattern, m at level 100, k at level 200, only parsing).

(** [assert cond] *)
Definition assert (cond : bool) : result unit :=
  if cond then Ok tt else Raise AssertionError.

(** A [for] loop whose body may raise. *)
Fixpoint for_each {A S : Type} (body : S -> A -> result S) (xs : list A) (s : S)
  : result S :=
  match xs with
  | [] => Ok s
  | x :: xs' => let* s' := body s x in for_each body xs' s'
  end.

(** A [while cond: body] loop over the state [s]. *)
Fixpoint while {S : Type} (fuel : nat) (cond : S -> bool) (body : S -> S) (s : S)
  : result S :=
  match fuel with
  | O => OutOfFuel
  | S fuel' => if cond s then while fuel' cond body (body s) else Ok s
  end.

(** Fuel for a loop that at least halves a counter starting at [n]. *)
Definition halving_fuel (n : Z) : nat := S (S (Z.to_nat (Z.log2 n))).

(** [xs[i]] for a non-negative index. *)
Definition getitem {A : Type} (xs : list A) (i : nat) : result A :=
  match xs !! i with
  | Some x => Ok x
  | None => Raise IndexError
  end.

(** ** Bytes and strings *)

Definition is_byte (b : Z) : Prop := 0 <= b < 256.
Definition is_bytes (bs : list Z) : Prop := Forall is_byte bs.

(** [int.from_bytes(bs, 'big', signed=False)] *)
Definition from_bytes (bs : list Z) : Z :=
  fold_left (fun acc b => acc * 256 + b) bs 0.

(** The [n] low bytes of [x], the most significant first. *)
Definition be_bytes (n : nat) (x : Z) : list Z :=
  map (fun k => (x / 256 ^ Z.of_nat (n - 1 - k)) mod 256) (seq 0 n).

(** [x.to_bytes(n, 'big', signed=False)] *)
Definition to_bytes (x : Z) (n : nat) : result (list Z) :=
  if (0 <=? x) && (x <? 256 ^ Z.of_nat n)
  then Ok (be_bytes n x)
  else Raise OverflowError.

(** [str.translate(s, table)] for a table built by [str.maketrans]:
    a code point without an entry is left as it is. *)
Definition translate (s : list Z) (table : gmap Z Z) : list Z :=
  map (fun c => default c (table !! c)) s.

(** ** The base58 codec ([encode], [decode]) *)

Section codec.

(** [const.V2CTABLE] and [const.C2VTABLE] are not part of the sources at
    hand; they are parameters of the codec. *)
Variable V2CTABLE : gmap Z Z.
Variable C2VTABLE : gmap Z Z.

(** The part of [encode] after the test for a 9-byte record. *)
Definition encode_part (digest : list Z) : result (list Z) :=
  let* _ := assert (bool_decide (length digest = 1%nat \/ length digest = 8%nat)) in
  let '(value, numvalues) :=
    fold_left (fun '(value, numvalues) octet =>
                 (value + octet * numvalues, numvalues * 256))
              (rev digest) (0, 1) in
  let* (_, _, chars) :=
    while (halving_fuel numvalues)
      (fun '(value, numvalues, chars) => 0 <? numvalues)
      (fun '(value, numvalues, chars) =>
         (value / 58, numvalues / 58, chars ++ [value mod 58]))
      (value, numvalues, []) in
  Ok (translate (rev chars) V2CTABLE).

Definition encode (digest : list Z) : result (list Z) :=
  if bool_decide (length digest = 9%nat)
  then let* a := encode_part (take 1 digest) in
       let* b := encode_part (drop 1 digest) in
       Ok (a ++ b)
  else encode_part digest.

(** The part of [decode] after the test for a 13-character code. *)
Definition decode_part (code : list Z) : result (list Z) :=
  let n := length code in
  let* bit_length :=
    if bool_decide (n = 2%nat) then Ok 8
    else if bool_decide (n = 11%nat) then Ok 64
    else Raise ValueError in
  let code := rev (translate code C2VTABLE) in
  let '(value, _) :=
    fold_left (fun '(value, numvalues) c =>
                 (value + c * numvalues, numvalues * 58))
              code (0, 1) in
  let numvalues := 2 ^ bit_length in
  let* (_, _, data) :=
    while (halving_fuel numvalues)
      (fun '(value, numvalues, data) => 1 <? numvalues)
      (fun '(value, numvalues, data) =>
         (value / 256, numvalues / 256, data ++ [value mod 256]))
      (value, numvalues, []) in
  Ok (rev data).

Definition decode (code : list Z) : result (list Z) :=
  if bool_decide (length code = 13%nat)
  then let* a := decode_part (take 2 code) in
       let* b := decode_part (drop 2 code) in
       Ok (a ++ b)
  else decode_part code.

End codec.

(** ** Similarity hash *)

(** [similarity_hash(hash_digests)].  [minfeatures] is the float
    [len(hash_digests) * 1. / 2]; Python compares an [int] with a [float]
    exactly, and both the product and the halving are exact for fewer than
    [2^53] digests, so [vector[i] >= minfeatures] is
    [len(hash_digests) <= 2 * vector[i]]. *)
Definition similarity_hash (hash_digests : list (list Z)) : result (list Z) :=
  let* first := getitem hash_digests 0 in
  let n_bytes := length first in
  let n_bits := (n_bytes * 8)%nat in
  let vector := replicate n_bits 0 in
  let* vector :=
    for_each (fun vector digest =>
      let* _ := assert (bool_decide (length digest = n_bytes)) in
      let h := from_bytes digest in
      let* (vector, _) :=
        for_each (fun '(vector, h) i =>
          let* v := getitem vector i in
          Ok (<[i := v + Z.land h 1]> vector, Z.shiftr h 1))
          (seq 0 n_bits) (vector, h) in
      Ok vector)
      hash_digests vector in
  let len := Z.of_nat (length hash_digests) in
  let* shash :=
    for_each (fun shash i =>
      let* v := getitem vector i in
      Ok (Z.lor shash (Z.shiftl (Z.b2z (len <=? 2 * v)) (Z.of_nat i))))
      (seq 0 n_bits) 0 in
  to_bytes shash n_bytes.

(** ** Minimum hash *)

Section minhash.

(** [const.MINHASH_PERMUTATIONS], a pair of tables; the constant is not
    part of the sources at hand. *)
Variable MINHASH_PERMUTATIONS : list Z * list Z.

Definition max_int64 : Z := Z.shiftl 1 64 - 1.
Definition mersenne_prime : Z := Z.shiftl 1 61 - 1.
Definition max_hash : Z := Z.shiftl 1 32 - 1.

Definition minimum_hash (features : list Z) : result (list Z) :=
  let hashvalues := replicate 128 max_hash in
  let '(a, b) := MINHASH_PERMUTATIONS in
  for_each (fun hashvalues hv =>
    for_each (fun nhs x =>
      let* ax := getitem a x in
      let* bx := getitem b x in
      let nh := Z.land (Z.land (ax * hv + bx) max_int64 mod mersenne_prime) max_hash in
      let* old := getitem hashvalues x in
      Ok (nhs ++ [Z.min nh old]))
      (seq 0 128) [])
    features hashvalues.

End minhash.

(** ** Gear chunker *)

(** How a loop body leaves: by [return] or by falling through. *)
Inductive flow (R S : Type) : Type :=
| Return (r : R)
| Continue (s : S).

Arguments Return {R S} r.
Arguments Continue {R S} s.

(** [len(xs)] *)
Definition len {A : Type} (xs : list A) : Z := Z.of_nat (length xs).

(** [xs[i]] for an [int] index: a negative index counts from the end. *)
Definition getitem_int {A : Type} (xs : list A) (i : Z) : result A :=
  if 0 <=? i then getitem xs (Z.to_nat i)
  else if 0 <=? len xs + i then getitem xs (Z.to_nat (len xs + i))
  else Raise IndexError.

(** [xs[:n]] and [xs[n:]]; a negative bound counts from the end. *)
Definition slice_to {A : Type} (xs : list A) (n : Z) : list A :=
  if 0 <=? n then take (Z.to_nat n) xs else take (Z.to_nat (len xs + n)) xs.

Definition slice_from {A : Type} (xs : list A) (n : Z) : list A :=
  if 0 <=? n then drop (Z.to_nat n) xs else drop (Z.to_nat (len xs + n)) xs.

(** [stream.read(n)] on a [BytesIO], in which [data_chunks] and
    [instance_id] wrap a bytes buffer: it delivers [n] bytes unless fewer
    remain; the stream is its unread suffix.  [Stream.read] below is the
    [read] of an input that may deliver fewer. *)
Definition read (n : Z) (stream : list Z) : list Z * list Z :=
  (take (Z.to_nat n) stream, drop (Z.to_nat n) stream).

Section chunker.

(** [const.CHUNKING_GEAR]; the table is not part of the sources at hand. *)
Variable CHUNKING_GEAR : list Z.

(** One [while i < bound] loop of [chunk_length]; [steps] is [bound - i],
    the number of rounds left before the condition fails. *)
Fixpoint gear_scan (steps : nat) (data : list Z) (mask : Z) (i : Z) (pattern : Z)
  : result (flow Z (Z * Z)) :=
  match steps with
  | O => Ok (Continue (i, pattern))
  | S steps' =>
      let* octet := getitem_int data i in
      let* gear := getitem_int CHUNKING_GEAR octet in
      let pattern := Z.shiftl pattern 1 + gear in
      if Z.land pattern mask =? 0 then Ok (Return i)
      else gear_scan steps' data mask (i + 1) pattern
  end.

Definition chunk_length (data : list Z) (norm_size min_size max_size : Z)
    (mask_1 mask_2 : Z) : result Z :=
  let data_length := len data in
  let i := min_size in
  let pattern := 0 in
  if data_length <=? min_size then Ok data_length
  else
    let* r := gear_scan (Z.to_nat (Z.min norm_size data_length - i))
                data mask_1 i pattern in
    match r with
    | Return i => Ok i
    | Continue (i, pattern) =>
        let* r := gear_scan (Z.to_nat (Z.min max_size data_length - i))
                    data mask_2 i pattern in
        match r with
        | Return i => Ok i
        | Continue (i, _) => Ok i
        end
    end.

(** The [while True] loop of [data_chunks]; the chunks it yields are
    collected in order. *)
Fixpoint data_chunks_loop (fuel : nat) (data section : list Z) (counter : Z)
  : result (list (list Z)) :=
  match fuel with
  | O => OutOfFuel
  | S fuel' =>
      if counter <? 100 then
        let '(section, data) :=
          if len section <? 640
          then let '(more, data) := read 640 data in (section ++ more, data)
          else (section, data) in
        if len section =? 0 then Ok []
        else
          let* boundary := chunk_length section 40 20 640 0x016118 0x00a0b1 in
          let* rest := data_chunks_loop fuel' data (slice_from section boundary)
                         (counter + 1) in
          Ok (slice_to section boundary :: rest)
      else
        let '(section, data) :=
          if len section <? 65536
          then let '(more, data) := read 65536 data in (section ++ more, data)
          else (section, data) in
        if len section =? 0 then Ok []
        else
          let* boundary :=
            chunk_length section 4096 2048 65536
              0x0003590703530000 0x0000d90003530000 in
          let* rest := data_chunks_loop fuel' data (slice_from section boundary)
                         (counter + 1) in
          Ok (slice_to section boundary :: rest)
  end.

(** [data_chunks(data)] for a bytes buffer; one round per chunk and a last
    one to see the end of the input. *)
Definition data_chunks (data : list Z) : result (list (list Z)) :=
  let '(section, data') := read 640 data in
  data_chunks_loop (S (length data)) data' section 0.

End chunker.

(** ** Text normalisation *)

(** Unicode general categories, as [unicodedata.category] names them. *)
Inductive general_category : Set :=
| Lu | Ll | Lt | Lm | Lo
| Mn | Mc | Me
| Nd | Nl | No
| Pc | Pd | Ps | Pe | Pi | Pf | Po
| Sm | Sc | Sk | So
| Zs | Zl | Zp
| Cc | Cf | Cs | Co | Cn.

Inductive major_class : Set := ClassL | ClassM | ClassN | ClassP | ClassS | ClassZ | ClassC.

#[global] Instance major_class_eq_dec : EqDecision major_class.
Proof. solve_decision. Defined.

(** The first letter of a category name, [cat[0]]. *)
Definition major (cat : general_category) : major_class :=
  match cat with
  | Lu | Ll | Lt | Lm | Lo => ClassL
  | Mn | Mc | Me => ClassM
  | Nd | Nl | No => ClassN
  | Pc | Pd | Ps | Pe | Pi | Pf | Po => ClassP
  | Sm | Sc | Sk | So => ClassS
  | Zs | Zl | Zp => ClassZ
  | Cc | Cf | Cs | Co | Cn => ClassC
  end.

Inductive normal_form : Set := NFC | NFD | NFKC | NFKD.

(** [str.isspace] of a code point, which decides where [str.split()] cuts. *)
Definition isspace (c : Z) : bool :=
  ((0x09 <=? c) && (c <=? 0x0D)) || ((0x1C <=? c) && (c <=? 0x20))
  || (c =? 0x85) || (c =? 0xA0) || (c =? 0x1680)
  || ((0x2000 <=? c) && (c <=? 0x200A))
  || (c =? 0x2028) || (c =? 0x2029) || (c =? 0x202F) || (c =? 0x205F)
  || (c =? 0x3000).

(** [s.split()]: the maximal runs of non-whitespace, in order; [word] is
    the run being read. *)
Fixpoint split_from (word : list Z) (s : list Z) : list (list Z) :=
  match s with
  | [] => match word with [] => [] | _ => [word] end
  | c :: s' =>
      if isspace c
      then match word with
           | [] => split_from [] s'
           | _ => word :: split_from [] s'
           end
      else split_from (word ++ [c]) s'
  end.

Definition split (s : list Z) : list (list Z) := split_from [] s.

(** [sep.join(parts)] *)
Fixpoint join (sep : list Z) (parts : list (list Z)) : list Z :=
  match parts with
  | [] => []
  | [p] => p
  | p :: parts' => p ++ sep ++ join sep parts'
  end.

Section text.

(** The Unicode database, as Python's [unicodedata] and [str] expose it. *)
Variable normalize : normal_form -> list Z -> list Z.
Variable category : Z -> general_category.
Variable lower : Z -> list Z.

Definition whitelist : list major_class := [ClassL; ClassN; ClassS].

Definition normalize_text (text : list Z) : list Z :=
  let decomposed := normalize NFD text in
  let chars :=
    fold_left (fun chars c =>
      let cat := category c in
      if bool_decide (major cat = ClassZ) then chars ++ [[0x20]]
      else if bool_decide (major cat ∈ whitelist) then chars ++ [lower c]
      else chars)
      decomposed [] in
  let filtered := join [] chars in
  let collapsed := join [0x20] (split filtered) in
  let normalized := normalize NFC collapsed in
  normalized.

End text.

(** [sliding_window(text, width)] over any sequence. *)
Definition sliding_window {A : Type} (text : list A) (width : Z) : result (list (list A)) :=
  let* _ := assert (2 <=? width) in
  let idx := seq 0 (Z.to_nat (Z.max (len text - width + 1) 1)) in
  Ok (map (fun i => slice_to (slice_from text (Z.of_nat i)) width) idx).

(** ** Merkle top hash *)

Section tophash.

(** [hashlib.sha256(data).digest()] *)
Variable sha256 : list Z -> list Z.

Definition sha256d (data : list Z) : list Z := sha256 (sha256 data).

Definition hash_inner_nodes (a b : list Z) : list Z := sha256d ([0x01] ++ a ++ b).

(** [range(0, stop, 2)] *)
Definition range_by_2 (stop : Z) : list Z :=
  map (fun k => 2 * Z.of_nat k) (seq 0 (Z.to_nat ((stop + 1) / 2))).

(** One level of [top_hash]: the list [pairwise_hashed]. *)
Definition pairwise (hashes : list (list Z)) : result (list (list Z)) :=
  let size := len hashes in
  let* pairwise_hashed :=
    for_each (fun pairwise_hashed i =>
      let* l := getitem_int hashes i in
      let* r := getitem_int hashes (i + 1) in
      Ok (pairwise_hashed ++ [hash_inner_nodes l r]))
      (range_by_2 (len hashes - 1)) [] in
  if size mod 2 =? 1
  then let* last := getitem_int hashes (-1) in
       Ok (pairwise_hashed ++ [hash_inner_nodes last last])
  else Ok pairwise_hashed.

(** [top_hash(hashes)]; [fuel] bounds the depth of the recursion. *)
Fixpoint top_hash (fuel : nat) (hashes : list (list Z)) : result (list Z) :=
  match fuel with
  | O => OutOfFuel
  | S fuel' =>
      let size := len hashes in
      if size =? 1 then getitem_int hashes 0
      else
        let* pairwise_hashed := pairwise hashes in
        top_hash fuel' pairwise_hashed
  end.

(** The [while True] loop of [instance_id] that reads the leaves. *)
Fixpoint leaf_nodes (rounds : nat) (data : list Z) (leaf_node_digests : list (list Z))
  : result (list (list Z)) :=
  match rounds with
  | O => OutOfFuel
  | S rounds' =>
      let '(chunk, data) := read 64000 data in
      match chunk with
      | [] => Ok leaf_node_digests
      | _ => leaf_nodes rounds' data (leaf_node_digests ++ [sha256d ([0x00] ++ chunk)])
      end
  end.

End tophash.

(** ** Hamming distance, [iscc.distance] *)

(** [bin(x).count('1')]: the number of ones in the binary numeral of [|x|]. *)
Fixpoint ones (p : positive) : Z :=
  match p with
  | xH => 1
  | xO p' => ones p'
  | xI p' => 1 + ones p'
  end.

Definition count_ones (x : Z) : Z :=
  match x with
  | Z0 => 0
  | Zpos p => ones p
  | Zneg p => ones p
  end.

(** The argument of [distance]: [Union[int, str, bytes]]. *)
Inductive code_value : Type :=
| IntValue (x : Z)
| StrValue (s : list Z)
| BytesValue (bs : list Z).

Section distance.

Variable C2VTABLE : gmap Z Z.

Definition distance (a b : code_value) : result Z :=
  let* (a, b) :=
    match a, b with
    | StrValue sa, StrValue sb =>
        let* da := decode C2VTABLE sa in
        let* db := decode C2VTABLE sb in
        Ok (BytesValue (slice_from da 1), BytesValue (slice_from db 1))
    | _, _ => Ok (a, b)
    end in
  let '(a, b) :=
    match a, b with
    | BytesValue ba, BytesValue bb => (IntValue (from_bytes ba), IntValue (from_bytes bb))
    | _, _ => (a, b)
    end in
  match a, b with
  | IntValue x, IntValue y => Ok (count_ones (Z.lxor x y))
  | _, _ => Raise TypeError
  end.

End distance.

(** ** Component builders *)

(** [s.encode('utf-8')] *)
Definition utf8_char (c : Z) : result (list Z) :=
  if c <? 0x80 then Ok [c]
  else if c <? 0x800 then
    Ok [Z.lor 0xC0 (Z.shiftr c 6); Z.lor 0x80 (Z.land c 0x3F)]
  else if (0xD800 <=? c) && (c <=? 0xDFFF) then Raise UnicodeEncodeError
  else if c <? 0x10000 then
    Ok [Z.lor 0xE0 (Z.shiftr c 12); Z.lor 0x80 (Z.land (Z.shiftr c 6) 0x3F);
        Z.lor 0x80 (Z.land c 0x3F)]
  else
    Ok [Z.lor 0xF0 (Z.shiftr c 18); Z.lor 0x80 (Z.land (Z.shiftr c 12) 0x3F);
        Z.lor 0x80 (Z.land (Z.shiftr c 6) 0x3F); Z.lor 0x80 (Z.land c 0x3F)].

Definition utf8_encode (s : list Z) : result (list Z) :=
  for_each (fun acc c => let* bs := utf8_char c in Ok (acc ++ bs)) s [].

(** [str(d)] for a one-digit [d]. *)
Definition str_of_digit (d : Z) : list Z := [0x30 + d].

(** [int(s, 2)] for a string of binary digits; the other spellings that
    [int] accepts (sign, prefix, underscores, blanks) raise here. *)
Definition int_base_2 (s : list Z) : result Z :=
  match s with
  | [] => Raise ValueError
  | _ =>
      for_each (fun acc c =>
        if c =? 0x30 then Ok (2 * acc)
        else if c =? 0x31 then Ok (2 * acc + 1)
        else Raise ValueError)
        s 0
  end.

(** Steps 7 to 9 of [content_id_text], which are steps 4 to 6 of [data_id]:
    the least significant bits of the 128 minima as two 64-bit digests, and
    their similarity hash. *)
Definition lsb_digest (minhash : list Z) : result (list Z) :=
  let lsb := join [] (map (fun x => str_of_digit (Z.land x 1)) minhash) in
  let* a := (let* v := int_base_2 (slice_to lsb 64) in to_bytes v 8) in
  let* b := (let* v := int_base_2 (slice_from lsb 64) in to_bytes v 8) in
  similarity_hash [a; b].

(** Modelled from the spec: [const.WINDOW_SIZE_CID_T], the width of the
    word shingles, which the spec gives as 5. *)
Definition WINDOW_SIZE_CID_T : Z := 5.

Section builders.

Variable normalize : normal_form -> list Z -> list Z.
Variable category : Z -> general_category.
Variable lower : Z -> list Z.
(** [xxhash.xxh32(data).intdigest()] *)
Variable xxh32 : list Z -> Z.
Variable sha256 : list Z -> list Z.
Variable MINHASH_PERMUTATIONS : list Z * list Z.
Variable CHUNKING_GEAR : list Z.
Variable V2CTABLE : gmap Z Z.
(** The header bytes of [const]. *)
Variables HEAD_CID_T HEAD_CID_T_PCF HEAD_DID HEAD_IID : list Z.

(** [content_id_text(text, partial)] for a [str]. *)
Definition content_id_text (text : list Z) (partial : bool) : result (list Z) :=
  let text := normalize NFKC text in
  let text := normalize_text normalize category lower text in
  let words := split text in
  let* windows := sliding_window words WINDOW_SIZE_CID_T in
  let shingles := map (fun l => join [0x20] l) windows in
  let* features :=
    for_each (fun acc s => let* bs := utf8_encode s in Ok (acc ++ [xxh32 bs]))
      shingles [] in
  let* minhash := minimum_hash MINHASH_PERMUTATIONS features in
  let* simhash_digest := lsb_digest minhash in
  let content_id_text_digest :=
    if partial then HEAD_CID_T_PCF ++ simhash_digest
    else HEAD_CID_T ++ simhash_digest in
  encode V2CTABLE content_id_text_digest.

(** [data_id(data)] for a bytes buffer. *)
Definition data_id (data : list Z) : result (list Z) :=
  let* chunks := data_chunks CHUNKING_GEAR data in
  let features := map xxh32 chunks in
  let* minhash := minimum_hash MINHASH_PERMUTATIONS features in
  let* simhash_digest := lsb_digest minhash in
  let data_id_digest := HEAD_DID ++ simhash_digest in
  encode V2CTABLE data_id_digest.

(** [instance_id(data)] for a bytes buffer; [fuel] bounds the depth of
    the recursion of [top_hash]. *)
Definition instance_id (fuel : nat) (data : list Z) : result (list Z) :=
  let* leaf_node_digests := leaf_nodes sha256 (S (length data)) data [] in
  let* top_hash_digest := top_hash sha256 fuel leaf_node_digests in
  let instance_id_digest := HEAD_IID ++ slice_to top_hash_digest 8 in
  encode V2CTABLE instance_id_digest.

End builders.

(** ** Inputs with a [read] method *)

Module Stream.

(** An object with a [read] method, as [data_chunks] and [instance_id] take
    it when it is not a bytes buffer: the bytes it has not delivered yet and,
    for each coming call of [read], the most bytes that the call delivers.
    [read(n)] may return fewer than [n] bytes (a raw file, a pipe, a socket);
    it returns at least one byte until the input ends, an empty result
    meaning the end.  When the limits are used up the reads are exact. *)
Record stream : Type := { unread : list Z; short_reads : list positive }.

(** [BytesIO(data)]: every [read] is exact. *)
Definition BytesIO (data : list Z) : stream := {| unread := data; short_reads := [] |}.

(** [stream.read(n)] *)
Definition read (n : Z) (s : stream) : list Z * stream :=
  let k := match short_reads s with
           | [] => Z.to_nat n
           | limit :: _ => Nat.min (Z.to_nat n) (Pos.to_nat limit)
           end in
  (take k (unread s), {| unread := drop k (unread s); short_reads := tail (short_reads s) |}).

Section chunker.

Variable CHUNKING_GEAR : list Z.

(** The [while True] loop of [data_chunks] on a stream. *)
Fixpoint data_chunks_loop (fuel : nat) (data : stream) (section : list Z) (counter : Z)
  : result (list (list Z)) :=
  match fuel with
  | O => OutOfFuel
  | S fuel' =>
      if counter <? 100 then
        let '(section, data) :=
          if len section <? 640
          then let '(more, data) := read 640 data in (section ++ more, data)
          else (section, data) in
        if len section =? 0 then Ok []
        else
          let* boundary := chunk_length CHUNKING_GEAR section 40 20 640 0x016118 0x00a0b1 in
          let* rest := data_chunks_loop fuel' data (slice_from section boundary)
                         (counter + 1) in
          Ok (slice_to section boundary :: rest)
      else
        let '(section, data) :=
          if len section <? 65536
          then let '(more, data) := read 65536 data in (section ++ more, data)
          else (section, data) in
        if len section =? 0 then Ok []
        else
          let* boundary :=
            chunk_length CHUNKING_GEAR section 4096 2048 65536
              0x0003590703530000 0x0000d90003530000 in
          let* rest := data_chunks_loop fuel' data (slice_from section boundary)
                         (counter + 1) in
          Ok (slice_to section boundary :: rest)
  end.

(** [data_chunks(data)] for an object with a [read] method. *)
Definition data_chunks (data : stream) : result (list (list Z)) :=
  let '(section, data') := read 640 data in
  data_chunks_loop (S (length (unread data))) data' section 0.

End chunker.

Section instance.

Variable sha256 : list Z -> list Z.
Variable V2CTABLE : gmap Z Z.
Variable HEAD_IID : list Z.

(** The [while True] loop of [instance_id] on a stream: one leaf for each
    call of [read] that returns bytes. *)
Fixpoint leaf_nodes (rounds : nat) (data : stream) (leaf_node_digests : list (list Z))
  : result (list (list Z)) :=
  match rounds with
  | O => OutOfFuel
  | S rounds' =>
      let '(chunk, data) := read 64000 data in
      match chunk with
      | [] => Ok leaf_node_digests
      | _ => leaf_nodes rounds' data (leaf_node_digests ++ [sha256d sha256 ([0x00] ++ chunk)])
      end
  end.

(** [instance_id(data)] for an object with a [read] method. *)
Definition instance_id (fuel : nat) (data : stream) : result (list Z) :=
  let* leaf_node_digests := leaf_nodes (S (length (unread data))) data [] in
  let* top_hash_digest := top_hash sha256 fuel leaf_node_digests in
  let instance_id_digest := HEAD_IID ++ slice_to top_hash_digest 8 in
  encode V2CTABLE instance_id_digest.

End instance.

End Stream.

(** ** Trimming of the metadata ([trim]) *)

Section trim.

(** [const.INPUT_TRIM]; the constant is not part of the sources at hand. *)
Variable INPUT_TRIM : Z.

(** [trim(text)]; [fuel] bounds the rounds of the [while True] loop. *)
Fixpoint trim (fuel : nat) (text : list Z) : result (list Z) :=
  match fuel with
  | O => OutOfFuel
  | S fuel' =>
      let* data := utf8_encode text in
      if len data <=? INPUT_TRIM then Ok text
      else trim fuel' (slice_to text (-1))
  end.

End trim.

(** ** [iscc.metrics]: distance of base32 component codes *)

Module Metrics.

(** [hex2ba(a.hex())]: eight bits per byte, the most significant first. *)
Definition bits_of_bytes (a : list Z) : list bool :=
  flat_map (fun b => map (fun k => Z.testbit b (Z.of_nat k)) [7; 6; 5; 4; 3; 2; 1; 0]%nat) a.

(** [bitarray.util.count_xor(a, b)]: the number of ones of [a ^ b]; the
    two bit arrays must have one length. *)
Definition count_xor (a b : list bool) : result Z :=
  if bool_decide (length a = length b)
  then Ok (len (filter (fun x => x = true) (zip_with xorb a b)))
  else Raise ValueError.

Definition distance_bytes (a b : list Z) : result Z :=
  count_xor (bits_of_bytes a) (bits_of_bytes b).

Definition distance_int (a b : Z) : Z := count_ones (Z.lxor a b).

(** What [read_header] returns: main type, sub type, version, length in
    bits, and the bytes after the header. *)
Definition header : Type := Z * Z * Z * Z * list Z.

Section code.

(** [iscc.codec.decode_base32] and [iscc.codec.read_header] are not
    part of the sources at hand. *)
Variable decode_base32 : list Z -> result (list Z).
Variable read_header : list Z -> result header.

Definition distance_code (a b : list Z) (mixed : bool) : result Z :=
  let* a := decode_base32 a in
  let* b := decode_base32 b in
  let* a := read_header a in
  let* b := read_header b in
  let '(a0, a1, a2, a3, a_tail) := a in
  let '(b0, b1, b2, b3, b_tail) := b in
  if mixed then
    let* _ := assert (bool_decide (a0 = b0) && bool_decide (a2 = b2)) in
    let nbytes := Z.min a3 b3 / 8 in
    distance_bytes (slice_to a_tail nbytes) (slice_to b_tail nbytes)
  else
    let* _ := assert (bool_decide ((a0, a1, a2, a3) = (b0, b1, b2, b3))) in
    let a := slice_to a_tail (a3 / 8) in
    let b := slice_to b_tail (b3 / 8) in
    distance_bytes a b.

End code.

End Metrics.

(** ** Vocabulary of the statements *)

(** Little-endian positional value of a digit list, and the [k] low digits
    of a number. *)
Definition le_value (base : Z) (ds : list Z) : Z :=
  fold_right (fun d acc => d + base * acc) 0 ds.

Fixpoint le_digits (base : Z) (k : nat) (v : Z) : list Z :=
  match k with
  | O => []
  | S k' => v mod base :: le_digits base k' (v / base)
  end.

Definition is_digit (base d : Z) : Prop := 0 <= d < base.

(** The number of digests whose big-endian integer has bit [i] set. *)
Definition count_bit (hash_digests : list (list Z)) (i : nat) : Z :=
  len (filter (fun d => Z.testbit (from_bytes d) (Z.of_nat i) = true) hash_digests).

(** The body of the counting loop of [similarity_hash]. *)
Definition count_step : list Z * Z -> nat -> result (list Z * Z) :=
  fun '(vector, h) i =>
    let* v := getitem vector i in
    Ok (<[i := v + Z.land h 1]> vector, Z.shiftr h 1).

(** The vote of bit [i]: whether its counter reaches half of [len]. *)
Definition vote (vector : list Z) (len : Z) (i : nat) : bool :=
  match vector !! i with
  | Some v => len <=? 2 * v
  | None => false
  end.

(** The permuted hash of feature [h] in a slot with multiplier [ax] and
    offset [bx]. *)
Definition slot_hash (ax bx h : Z) : Z :=
  Z.land (Z.land (ax * h + bx) (2 ^ 64 - 1) mod (2 ^ 61 - 1)) (2 ^ 32 - 1).

(** The register of a slot after the features, starting from [reg]. *)
Definition slot_min (ax bx : Z) (features : list Z) (reg : Z) : Z :=
  fold_left (fun reg h => Z.min (slot_hash ax bx h) reg) features reg.

(** The body of the slot loop of [minimum_hash]. *)
Definition slot_step (a b : list Z) (hashvalues : list Z) (hv : Z) (nhs : list Z) (x : nat)
  : result (list Z) :=
  let* ax := getitem a x in
  let* bx := getitem b x in
  let nh := Z.land (Z.land (ax * hv + bx) max_int64 mod mersenne_prime) max_hash in
  let* old := getitem hashvalues x in
  Ok (nhs ++ [Z.min nh old]).

(** The size discipline of the two stages of the chunker. *)
Definition stage_min (counter : Z) : Z := if counter <? 100 then 20 else 2048.
Definition stage_max (counter : Z) : Z := if counter <? 100 then 640 else 65536.

(** Every chunk of [chunks], the first of which has index [counter], obeys
    the discipline against what remains of the input when it is cut. *)
Fixpoint chunks_bounded (counter : Z) (remaining : list Z) (chunks : list (list Z))
  : Prop :=
  match chunks with
  | [] => True
  | c :: chunks' =>
      Z.min (len remaining) (stage_min counter) <= len c <= stage_max counter
      /\ chunks_bounded (counter + 1) (drop (length c) remaining) chunks'
  end.

(** Filling the working buffer of [data_chunks] up from the stream. *)
Definition refill (size : Z) (section data : list Z) : list Z * list Z :=
  if len section <? size
  then let '(more, data) := read size data in (section ++ more, data)
  else (section, data).

(** The pairs of one level of the Merkle tree, read by index. *)
Definition paired (sha256 : list Z -> list Z) (hashes : list (list Z)) (k : nat) : list Z :=
  hash_inner_nodes sha256 (hashes !!! (2 * k)%nat) (hashes !!! (2 * k + 1)%nat).

(** The Hamming distance of two digests: the ones of the exclusive or of
    their big-endian integers. *)
Definition hamming (a b : list Z) : Z :=
  count_ones (Z.lxor (from_bytes a) (from_bytes b)).

(** The eight bits of a byte, the most significant first. *)
Definition bits8 (b : Z) : list bool :=
  map (fun k => Z.testbit b (Z.of_nat k)) [7; 6; 5; 4; 3; 2; 1; 0]%nat.

(** The number of [true] in a list of bits. *)
Definition count_true (bits : list bool) : Z := len (filter (fun x => x = true) bits).

(** The characters ['0'] and ['1']. *)
Definition binary_digit (c : Z) : Prop := c = 0x30 \/ c = 0x31.

(** A character at which [str.split()] does not cut. *)
Definition nonspace (c : Z) : Prop := isspace c = false.

Section text_vocabulary.

Variable normalize : normal_form -> list Z -> list Z.
Variable category : Z -> general_category.
Variable lower : Z -> list Z.

(** What one decomposed character contributes to [filtered]. *)
Definition char_map (c : Z) : list Z :=
  if bool_decide (major (category c) = ClassZ) then [0x20]
  else if bool_decide (major (category c) ∈ whitelist) then lower c
  else [].

(** A character that the normaliser keeps as it is. *)
Definition kept (x : Z) : Prop :=
  normalize NFD [x] = [x]
  /\ major (category x) ∈ whitelist
  /\ lower x = [x]
  /\ isspace x = false.

(** A character of a normalised text: a single space or a kept one. *)
Definition tidy (x : Z) : Prop := x = 0x20 \/ kept x.

End text_vocabulary.

(** Big-endian positional value of a digit list. *)
Definition be_value (base : Z) (ds : list Z) : Z :=
  fold_left (fun acc d => acc * base + d) ds 0.

(** The leaf of the Merkle tree for one block of the input. *)
Definition leaf (sha256 : list Z -> list Z) (chunk : list Z) : list Z :=
  sha256d sha256 ([0x00] ++ chunk).

(** Block [k] of [size] bytes of the input. *)
Definition block (size : nat) (data : list Z) (k : nat) : list Z :=
  take size (drop (k * size) data).

(** The leaves of an input cut into blocks of [size] bytes. *)
Definition leaves (sha256 : list Z -> list Z) (size : nat) (data : list Z)
  : list (list Z) :=
  map (fun k => leaf sha256 (block size data k))
      (seq 0 ((length data + size - 1) / size)).

(** A code point that [str.encode('utf-8')] accepts: no surrogate. *)
Definition encodable (c : Z) : Prop := ~ (0xD800 <= c <= 0xDFFF).

(** The number of bytes of the UTF-8 encoding of a string. *)
Definition utf8_width (c : Z) : Z :=
  if c <? 0x80 then 1 else if c <? 0x800 then 2 else if c <? 0x10000 then 3 else 4.

Definition utf8_length (s : list Z) : Z := fold_right (fun c n => utf8_width c + n) 0 s.

(** Every chunk of [chunks], the first of which has index [counter], has at
    least one byte and at most the maximal size of its stage. *)
Fixpoint chunks_sized (counter : Z) (chunks : list (list Z)) : Prop :=
  match chunks with
  | [] => True
  | c :: chunks' => 1 <= len c <= stage_max counter /\ chunks_sized (counter + 1) chunks'
  end.

(** Filling the working buffer of [data_chunks] up from a stream. *)
Definition refill_stream (size : Z) (section : list Z) (data : Stream.stream)
  : list Z * Stream.stream :=
  if len section <? size
  then let '(more, data) := Stream.read size data in (section ++ more, data)
  else (section, data).

(** One level of the tree in the words of the specification: adjacent
    nodes are paired, and the last node of an odd level is paired with
    itself. *)
Fixpoint pair_up (sha256 : list Z -> list Z) (hashes : list (list Z)) : list (list Z) :=
  match hashes with
  | a :: b :: rest => hash_inner_nodes sha256 a b :: pair_up sha256 rest
  | [a] => [hash_inner_nodes sha256 a a]
  | [] => []
  end.

(** ** Instances of the parameters *)

(** The code points of an ASCII literal. *)
Definition code_points (s : string) : list Z :=
  map (fun a => Z.of_nat (nat_of_ascii a)) (list_ascii_of_string s).

(** A 58-symbol alphabet (the digits 1 to 9 and the letters without I, O
    and l) and the two translation tables that [str.maketrans] builds from
    it and from the digit values 0 to 57. *)
Definition sample_SYMBOLS : list Z :=
  code_points "C23456789rB1ZEFGTtYiAaVvMmHUPWXKDNbcdefghLjkSnopRqsJuQwxyz"%string.
Definition sample_VALUES : list Z := map Z.of_nat (seq 0 58).
Definition sample_V2CTABLE : gmap Z Z := list_to_map (zip sample_VALUES sample_SYMBOLS).
Definition sample_C2VTABLE : gmap Z Z := list_to_map (zip sample_SYMBOLS sample_VALUES).

(** A gear table of 256 entries and a pair of permutation tables of 128
    entries, all 64-bit. *)
Definition sample_GEAR : list Z :=
  map (fun i => ((Z.of_nat i + 1) * 0x9E3779B97F4A7C15) mod 2 ^ 64) (seq 0 256).
Definition sample_PERMUTATIONS : list Z * list Z :=
  (map (fun i => ((Z.of_nat i + 1) * 0x9E3779B97F4A7C15) mod 2 ^ 64) (seq 0 128),
   map (fun i => ((Z.of_nat i + 7) * 0xC2B2AE3D27D4EB4F) mod 2 ^ 64) (seq 0 128)).

(** A 32-byte checksum in the place of [sha256], and a feature hash in the
    place of [xxh32]. *)
Definition checksum32 (data : list Z) : list Z :=
  replicate 32 (fold_left (fun acc b => (acc * 31 + b) mod 251) data 7).
Definition checksum (data : list Z) : Z :=
  fold_left (fun acc b => (acc * 31 + b) mod 4294967291) data 7.

(** The Unicode database restricted to ASCII: every normal form leaves
    ASCII text as it is; a code point beyond ASCII counts as unassigned. *)
Definition ascii_normalize (form : normal_form) (s : list Z) : list Z := s.

Definition ascii_category (c : Z) : general_category :=
  if (0x41 <=? c) && (c <=? 0x5A) then Lu
  else if (0x61 <=? c) && (c <=? 0x7A) then Ll
  else if (0x30 <=? c) && (c <=? 0x39) then Nd
  else if c =? 0x20 then Zs
  else if c =? 0x24 then Sc
  else if (c =? 0x2B) || (c =? 0x3C) || (c =? 0x3D) || (c =? 0x3E)
          || (c =? 0x7C) || (c =? 0x7E) then Sm
  else if (c =? 0x5E) || (c =? 0x60) then Sk
  else if (c =? 0x28) || (c =? 0x5B) || (c =? 0x7B) then Ps
  else if (c =? 0x29) || (c =? 0x5D) || (c =? 0x7D) then Pe
  else if c =? 0x2D then Pd
  else if c =? 0x5F then Pc
  else if (0x21 <=? c) && (c <=? 0x7E) then Po
  else if (0 <=? c) && (c <=? 0x7F) then Cc
  else Cn.

Definition ascii_lower (c : Z) : list Z :=
  if (0x41 <=? c) && (c <=? 0x5A) then [c + 32] else [c].

(** A base32 decoder and a header reader for codes that are already byte
    strings of four one-byte header fields and a digest. *)
Definition plain_decode (code : list Z) : result (list Z) := Ok code.

Definition plain_header (code : list Z) : result Metrics.header :=
  match code with
  | mt :: st :: vs :: ln :: tail => Ok (mt, st, vs, ln, tail)
  | _ => Raise ValueError
  end.

(** * Properties *)

Lemma getitem_ok {A} (xs : list A) i x : xs !! i = Some x -> getitem xs i = Ok x.
Proof. unfold getitem. intros ->. reflexivity. Qed.

Lemma getitem_int_ok {A} (xs : list A) (i : Z) :
  0 <= i < len xs -> exists x, getitem_int xs i = Ok x /\ xs !! Z.to_nat i = Some x.
Proof.
  intros Hi. unfold getitem_int, len in *.
  replace (0 <=? i) with true by (symmetry; apply Z.leb_le; lia).
  destruct (lookup_lt_is_Some_2 xs (Z.to_nat i) ltac:(lia)) as [x Hx].
  exists x. split; [apply getitem_ok|]; exact Hx.
Qed.

Lemma getitem_int_last {A} (xs : list A) :
  xs <> [] -> exists x, getitem_int xs (-1) = Ok x /\ xs !! (length xs - 1)%nat = Some x.
Proof.
  intros Hne. unfold getitem_int.
  assert (0 < length xs)%nat by (destruct xs; [congruence|cbn; lia]).
  replace (0 <=? -1) with false by reflexivity.
  replace (0 <=? len xs + -1) with true by (symmetry; apply Z.leb_le; unfold len; lia).
  replace (Z.to_nat (len xs + -1)) with (length xs - 1)%nat by (unfold len; lia).
  destruct (lookup_lt_is_Some_2 xs (length xs - 1)%nat ltac:(lia)) as [x Hx].
  exists x. split; [apply getitem_ok|]; exact Hx.
Qed.

(** ** The codec *)

Lemma radix_fold base ds : forall v n,
  fold_left (fun '(value, numvalues) d => (value + d * numvalues, numvalues * base))
            ds (v, n)
  = (v + n * le_value base ds, n * base ^ Z.of_nat (length ds)).
Proof.
  induction ds as [|d ds IH]; intros v n.
  - simpl. f_equal; lia.
  - cbn [fold_left le_value fold_right length]. rewrite IH.
    fold (le_value base ds).
    rewrite Nat2Z.inj_succ, Z.pow_succ_r by lia. f_equal; ring.
Qed.

Lemma length_le_digits base k v : length (le_digits base k v) = k.
Proof. revert v; induction k; intros; simpl; auto. Qed.

Lemma le_digits_range base k : 0 < base -> forall v, Forall (is_digit base) (le_digits base k v).
Proof.
  intros Hb. induction k; intros v; simpl; constructor; auto.
  apply Z.mod_pos_bound; lia.
Qed.

Lemma le_value_le_digits base k : 0 < base -> forall v,
  le_value base (le_digits base k v) = v mod base ^ Z.of_nat k.
Proof.
  intros Hb. induction k as [|k IH]; intros v.
  - simpl. now rewrite Z.mod_1_r.
  - cbn [le_digits le_value fold_right]. fold (le_value base (le_digits base k (v / base))).
    rewrite IH, Nat2Z.inj_succ, Z.pow_succ_r by lia.
    rewrite Z.rem_mul_r by (try apply Z.pow_pos_nonneg; lia). reflexivity.
Qed.

Lemma le_value_range base ds : 0 < base -> Forall (is_digit base) ds ->
  0 <= le_value base ds < base ^ Z.of_nat (length ds).
Proof.
  intros Hb H. induction H as [|d ds Hd _ IH].
  - simpl. lia.
  - cbn [le_value fold_right length]. fold (le_value base ds).
    rewrite Nat2Z.inj_succ, Z.pow_succ_r by lia. unfold is_digit in Hd. nia.
Qed.

Lemma le_digits_le_value base ds : 0 < base -> Forall (is_digit base) ds ->
  le_digits base (length ds) (le_value base ds) = ds.
Proof.
  intros Hb H. induction H as [|d ds Hd _ IH]; [reflexivity|].
  cbn [le_value fold_right length le_digits]. fold (le_value base ds).
  unfold is_digit in Hd.
  replace (d + base * le_value base ds) with (d + le_value base ds * base) by ring.
  rewrite Z_mod_plus_full, Z.mod_small by lia.
  rewrite Z.div_add, Z.div_small by lia.
  rewrite Z.add_0_l. now rewrite IH.
Qed.

(** The digit-emitting loop of [encode]. *)
Lemma encode_while k : forall fuel value numvalues chars,
  (k < fuel)%nat ->
  (match k with O => numvalues = 0 | S j => 58 ^ Z.of_nat j <= numvalues < 58 ^ Z.of_nat k end) ->
  while fuel
    (fun '(value, numvalues, chars) => 0 <? numvalues)
    (fun '(value, numvalues, chars) =>
       (value / 58, numvalues / 58, chars ++ [value mod 58]))
    (value, numvalues, chars)
  = Ok (value / 58 ^ Z.of_nat k, 0, chars ++ le_digits 58 k value).
Proof.
  induction k as [|k IH]; intros fuel value numvalues chars Hf Hn.
  - destruct fuel; [lia|]. subst. simpl. rewrite Z.div_1_r, app_nil_r. reflexivity.
  - destruct fuel; [lia|]. cbn [while].
    assert (0 < 58 ^ Z.of_nat k) by (apply Z.pow_pos_nonneg; lia).
    replace (0 <? numvalues) with true by (symmetry; apply Z.ltb_lt; lia).
    rewrite IH; [|lia|].
    + rewrite Z.div_div, <- Z.pow_succ_r, <- Nat2Z.inj_succ by lia.
      cbn [le_digits]. rewrite <- app_assoc. reflexivity.
    + rewrite Nat2Z.inj_succ, Z.pow_succ_r in Hn by lia.
      destruct k as [|j].
      * simpl in Hn. apply Z.div_small. lia.
      * rewrite Nat2Z.inj_succ, Z.pow_succ_r in * by lia. split.
        -- apply Z.div_le_lower_bound; lia.
        -- apply Z.div_lt_upper_bound; lia.
Qed.

(** The byte-emitting loop of [decode]. *)
Lemma decode_while k : forall fuel value data,
  (k < fuel)%nat ->
  while fuel
    (fun '(value, numvalues, data) => 1 <? numvalues)
    (fun '(value, numvalues, data) =>
       (value / 256, numvalues / 256, data ++ [value mod 256]))
    (value, 256 ^ Z.of_nat k, data)
  = Ok (value / 256 ^ Z.of_nat k, 1, data ++ le_digits 256 k value).
Proof.
  induction k as [|k IH]; intros fuel value data Hf.
  - destruct fuel; [lia|]. simpl. rewrite Z.div_1_r, app_nil_r. reflexivity.
  - destruct fuel; [lia|]. cbn [while].
    assert (0 < 256 ^ Z.of_nat k) by (apply Z.pow_pos_nonneg; lia).
    rewrite Nat2Z.inj_succ, Z.pow_succ_r by lia.
    replace (1 <? 256 * 256 ^ Z.of_nat k) with true by (symmetry; apply Z.ltb_lt; lia).
    replace (256 * 256 ^ Z.of_nat k / 256) with (256 ^ Z.of_nat k)
      by (rewrite Z.mul_comm, Z.div_mul; lia).
    rewrite IH by lia.
    rewrite Z.div_div by lia.
    cbn [le_digits]. rewrite <- app_assoc. reflexivity.
Qed.

Section codec_facts.
Variables V2CTABLE C2VTABLE : gmap Z Z.

Lemma length_translate s (t : gmap Z Z) : length (translate s t) = length s.
Proof. unfold translate. now rewrite length_map. Qed.

Lemma encode_part_1 digest :
  length digest = 1%nat ->
  encode_part V2CTABLE digest
  = Ok (translate (rev (le_digits 58 2 (le_value 256 (rev digest)))) V2CTABLE).
Proof.
  intros HL. unfold encode_part.
  rewrite bool_decide_eq_true_2 by auto. cbn [assert bind].
  rewrite radix_fold, length_rev, HL, Z.add_0_l, !Z.mul_1_l.
  change (256 ^ Z.of_nat 1) with 256.
  rewrite (encode_while 2); [reflexivity| vm_compute; lia | vm_compute; split; congruence].
Qed.

Lemma encode_part_8 digest :
  length digest = 8%nat ->
  encode_part V2CTABLE digest
  = Ok (translate (rev (le_digits 58 11 (le_value 256 (rev digest)))) V2CTABLE).
Proof.
  intros HL. unfold encode_part.
  rewrite bool_decide_eq_true_2 by auto. cbn [assert bind].
  rewrite radix_fold, length_rev, HL, Z.add_0_l, !Z.mul_1_l.
  change (256 ^ Z.of_nat 8) with 18446744073709551616.
  rewrite (encode_while 11); [reflexivity| vm_compute; lia | vm_compute; split; congruence].
Qed.

Lemma decode_part_2 code :
  length code = 2%nat ->
  decode_part C2VTABLE code
  = Ok (rev (le_digits 256 1 (le_value 58 (rev (translate code C2VTABLE))))).
Proof.
  intros HL. unfold decode_part. rewrite HL.
  rewrite bool_decide_eq_true_2 by auto. cbn [bind].
  rewrite radix_fold, Z.add_0_l, Z.mul_1_l.
  change (2 ^ 8) with (256 ^ Z.of_nat 1).
  rewrite decode_while; [reflexivity| vm_compute; lia].
Qed.

Lemma decode_part_11 code :
  length code = 11%nat ->
  decode_part C2VTABLE code
  = Ok (rev (le_digits 256 8 (le_value 58 (rev (translate code C2VTABLE))))).
Proof.
  intros HL. unfold decode_part. rewrite HL.
  rewrite bool_decide_eq_false_2 by lia.
  rewrite bool_decide_eq_true_2 by auto. cbn [bind].
  rewrite radix_fold, Z.add_0_l, Z.mul_1_l.
  change (2 ^ 64) with (256 ^ Z.of_nat 8).
  rewrite decode_while; [reflexivity| vm_compute; lia].
Qed.

Lemma decode_part_other code :
  length code <> 2%nat -> length code <> 11%nat ->
  decode_part C2VTABLE code = Raise ValueError.
Proof.
  intros H2 H11. unfold decode_part.
  rewrite !bool_decide_eq_false_2 by auto. reflexivity.
Qed.

Hypothesis tables_inverse : forall v, 0 <= v < 58 ->
  exists c, V2CTABLE !! v = Some c /\ C2VTABLE !! c = Some v.

Lemma translate_inverse s :
  Forall (is_digit 58) s -> translate (translate s V2CTABLE) C2VTABLE = s.
Proof.
  induction 1 as [|v s Hv _ IH]; [reflexivity|].
  unfold translate in *. cbn [map]. rewrite IH. f_equal.
  destruct (tables_inverse v Hv) as (c & H1 & H2).
  rewrite H1. simpl. rewrite H2. reflexivity.
Qed.

Lemma decode_encode_part digest (k n : nat) :
  is_bytes digest ->
  length digest = n ->
  256 ^ Z.of_nat n <= 58 ^ Z.of_nat k ->
  rev (le_digits 256 n
    (le_value 58 (rev (translate
      (translate (rev (le_digits 58 k (le_value 256 (rev digest)))) V2CTABLE)
      C2VTABLE)))) = digest.
Proof.
  intros Hb HL Hk.
  rewrite translate_inverse.
  2:{ apply Forall_rev. apply le_digits_range; lia. }
  rewrite rev_involutive, le_value_le_digits by lia.
  assert (Hr : Forall (is_digit 256) (rev digest)) by (apply Forall_rev; exact Hb).
  pose proof (le_value_range 256 (rev digest) ltac:(lia) Hr) as Hv.
  rewrite length_rev, HL in Hv.
  rewrite Z.mod_small by lia.
  rewrite <- HL, <- (length_rev digest), le_digits_le_value by (auto; lia).
  apply rev_involutive.
Qed.

(** Claim C1.  For every byte digest of 1, 8 or 9 bytes, [encode]
    returns a code and [decode] of that code returns the digest: [decode]
    is a left inverse of [encode] on the legal digest lengths.  The two
    tables are any pair in which [C2VTABLE] sends the symbol of each digit
    value 0..57 back to that value. *)
Theorem decode_encode digest :
  is_bytes digest ->
  length digest = 1%nat \/ length digest = 8%nat \/ length digest = 9%nat ->
  exists code, encode V2CTABLE digest = Ok code /\ decode C2VTABLE code = Ok digest.
Proof.
  intros Hb [HL|[HL|HL]].
  - unfold encode. rewrite bool_decide_eq_false_2 by lia.
    rewrite encode_part_1 by auto. eexists; split; [reflexivity|].
    unfold decode. rewrite bool_decide_eq_false_2
      by (rewrite length_translate, length_rev, length_le_digits; lia).
    rewrite decode_part_2 by (now rewrite length_translate, length_rev, length_le_digits).
    f_equal. apply decode_encode_part; auto. vm_compute; congruence.
  - unfold encode. rewrite bool_decide_eq_false_2 by lia.
    rewrite encode_part_8 by auto. eexists; split; [reflexivity|].
    unfold decode. rewrite bool_decide_eq_false_2
      by (rewrite length_translate, length_rev, length_le_digits; lia).
    rewrite decode_part_11 by (now rewrite length_translate, length_rev, length_le_digits).
    f_equal. apply decode_encode_part; auto. vm_compute; congruence.
  - unfold encode. rewrite bool_decide_eq_true_2 by auto.
    assert (H1 : length (take 1 digest) = 1%nat) by (rewrite length_take; lia).
    assert (H8 : length (drop 1 digest) = 8%nat) by (rewrite length_drop; lia).
    rewrite encode_part_1, encode_part_8 by auto. cbn [bind].
    eexists; split; [reflexivity|].
    unfold decode. rewrite bool_decide_eq_true_2
      by (rewrite length_app, !length_translate, !length_rev, !length_le_digits; lia).
    rewrite take_app_length', drop_app_length'
      by (now rewrite length_translate, length_rev, length_le_digits).
    rewrite decode_part_2, decode_part_11
      by (now rewrite length_translate, length_rev, length_le_digits).
    cbn [bind]. f_equal.
    rewrite !decode_encode_part; auto;
      try (vm_compute; congruence).
    + apply take_drop.
    + apply Forall_drop; exact Hb.
    + apply Forall_take; exact Hb.
Qed.
End codec_facts.

(** ** Similarity hash *)

Lemma from_bytes_acc bs : forall acc,
  fold_left (fun acc b => acc * 256 + b) bs acc
  = acc * 256 ^ len bs + from_bytes bs.
Proof.
  unfold from_bytes, len. induction bs as [|b bs IH]; intros acc.
  - simpl. lia.
  - cbn [fold_left length]. rewrite IH, (IH (0 * 256 + b)).
    rewrite Nat2Z.inj_succ, Z.pow_succ_r by lia. ring.
Qed.

Lemma from_bytes_cons b bs : from_bytes (b :: bs) = b * 256 ^ len bs + from_bytes bs.
Proof. unfold from_bytes at 1. cbn [fold_left]. rewrite from_bytes_acc. ring. Qed.

Lemma be_bytes_succ n x :
  be_bytes (S n) x = (x / 256 ^ Z.of_nat n) mod 256 :: be_bytes n x.
Proof.
  unfold be_bytes. cbn [seq map]. f_equal.
  - do 3 f_equal. lia.
  - rewrite <- seq_shift, map_map. apply map_ext_in. intros k _.
    do 3 f_equal. lia.
Qed.

Lemma length_be_bytes n x : length (be_bytes n x) = n.
Proof. unfold be_bytes. now rewrite length_map, length_seq. Qed.

Lemma from_bytes_be_bytes n x : from_bytes (be_bytes n x) = x mod 256 ^ Z.of_nat n.
Proof.
  induction n as [|n IH].
  - simpl. now rewrite Z.mod_1_r.
  - rewrite be_bytes_succ, from_bytes_cons, IH. unfold len.
    rewrite length_be_bytes, Nat2Z.inj_succ, Z.pow_succ_r by lia.
    rewrite (Z.mul_comm 256), Z.rem_mul_r by (try apply Z.pow_pos_nonneg; lia).
    ring.
Qed.

Lemma to_bytes_ok x n :
  0 <= x < 256 ^ Z.of_nat n ->
  to_bytes x n = Ok (be_bytes n x) /\ from_bytes (be_bytes n x) = x.
Proof.
  intros Hx. unfold to_bytes.
  replace (0 <=? x) with true by (symmetry; apply Z.leb_le; lia).
  replace (x <? 256 ^ Z.of_nat n) with true by (symmetry; apply Z.ltb_lt; lia).
  split; [reflexivity|]. rewrite from_bytes_be_bytes. apply Z.mod_small; lia.
Qed.

(** *** The counting loop *)

Lemma land_1_bit h : Z.land h 1 = Z.b2z (Z.testbit h 0).
Proof. change 1 with (Z.ones 1). rewrite Z.land_ones by lia. now rewrite Z.bit0_mod. Qed.

Lemma count_loop m : forall k (vector : list Z) h,
  (k + m <= length vector)%nat ->
  exists vector',
    for_each count_step (seq k m) (vector, h) = Ok (vector', Z.shiftr h (Z.of_nat m))
    /\ length vector' = length vector
    /\ forall j, vector' !! j =
         if bool_decide (k <= j < k + m)%nat
         then (fun v => v + Z.b2z (Z.testbit h (Z.of_nat (j - k)))) <$> vector !! j
         else vector !! j.
Proof.
  induction m as [|m IH]; intros k vector h Hlen.
  - exists vector. split; [reflexivity|]. split; [reflexivity|].
    intros j. rewrite bool_decide_eq_false_2 by lia. reflexivity.
  - cbn [seq for_each].
    destruct (lookup_lt_is_Some_2 vector k ltac:(lia)) as [v Hv].
    unfold count_step at 1. rewrite (getitem_ok _ _ _ Hv). cbn [bind].
    destruct (IH (S k) (<[k := v + Z.land h 1]> vector) (Z.shiftr h 1))
      as (vector' & Hrun & Hl & Hj).
    { rewrite length_insert. lia. }
    exists vector'. rewrite Hrun, Hl, length_insert.
    split; [|split; [reflexivity|]].
    + f_equal. f_equal. rewrite Z.shiftr_shiftr by lia. f_equal. lia.
    + intros j. rewrite Hj.
      destruct (decide (j = k)) as [->|Hne].
      * rewrite bool_decide_eq_false_2, bool_decide_eq_true_2 by lia.
        rewrite list_lookup_insert_eq by lia. rewrite Hv. cbn.
        rewrite Nat.sub_diag, land_1_bit. reflexivity.
      * rewrite list_lookup_insert_ne by auto.
        destruct (decide (S k <= j < S k + m)%nat) as [Hin|Hout].
        -- rewrite !bool_decide_eq_true_2 by lia.
           rewrite Z.shiftr_spec by lia.
           replace (Z.of_nat (j - S k) + 1) with (Z.of_nat (j - k)) by lia. reflexivity.
        -- rewrite !bool_decide_eq_false_2 by lia. reflexivity.
Qed.

Lemma count_bit_cons d ds i :
  count_bit (d :: ds) i = Z.b2z (Z.testbit (from_bytes d) (Z.of_nat i)) + count_bit ds i.
Proof.
  unfold count_bit, len. rewrite filter_cons.
  destruct (decide _) as [H|H].
  - rewrite H. cbn [length Z.b2z]. lia.
  - apply not_true_is_false in H. rewrite H. cbn [Z.b2z]. lia.
Qed.

Lemma digests_loop n_bytes ds : forall (vector : list Z),
  Forall (fun d => length d = n_bytes) ds ->
  length vector = (n_bytes * 8)%nat ->
  exists vector',
    for_each (fun vector digest =>
      let* _ := assert (bool_decide (length digest = n_bytes)) in
      let h := from_bytes digest in
      let* (vector, _) := for_each count_step (seq 0 (n_bytes * 8)) (vector, h) in
      Ok vector) ds vector = Ok vector'
    /\ length vector' = (n_bytes * 8)%nat
    /\ forall j v, vector !! j = Some v -> vector' !! j = Some (v + count_bit ds j).
Proof.
  induction ds as [|d ds IH]; intros vector Hds Hlen.
  - exists vector. split; [reflexivity|]. split; [assumption|].
    intros j v Hv. rewrite Hv. f_equal. unfold count_bit, len. rewrite filter_nil. simpl. lia.
  - apply Forall_cons in Hds as [Hd Hds']. cbn [for_each].
    rewrite bool_decide_eq_true_2 by exact Hd. cbn [assert bind].
    assert (Hk : (0 + n_bytes * 8 <= length vector)%nat) by lia.
    destruct (count_loop (n_bytes * 8) 0 vector (from_bytes d) Hk)
      as (vector1 & Hrun & Hl1 & Hj1).
    rewrite Hrun. cbn [bind].
    destruct (IH vector1 Hds' ltac:(lia)) as (vector' & Hrun' & Hl' & Hj').
    exists vector'. split; [exact Hrun'|]. split; [exact Hl'|].
    intros j v Hv. rewrite count_bit_cons, Z.add_assoc. apply Hj'. rewrite Hj1, Hv.
    apply lookup_lt_Some in Hv.
    rewrite bool_decide_eq_true_2 by lia. cbn.
    rewrite Nat.sub_0_r. reflexivity.
Qed.

(** *** The voting loop *)

Lemma vote_loop (vector : list Z) (len : Z) m : forall k shash,
  (k + m <= length vector)%nat ->
  exists shash',
    for_each (fun shash i =>
      let* v := getitem vector i in
      Ok (Z.lor shash (Z.shiftl (Z.b2z (len <=? 2 * v)) (Z.of_nat i))))
      (seq k m) shash = Ok shash'
    /\ (0 <= shash -> 0 <= shash')
    /\ forall j, 0 <= j -> Z.testbit shash' j =
         Z.testbit shash j
         || existsb (fun i => (Z.of_nat i =? j) && vote vector len i) (seq k m).
Proof.
  induction m as [|m IH]; intros k shash Hlen.
  - exists shash. split; [reflexivity|]. split; [auto|].
    intros j _. cbn. now rewrite orb_false_r.
  - cbn [seq for_each existsb].
    destruct (lookup_lt_is_Some_2 vector k ltac:(lia)) as [v Hv].
    rewrite (getitem_ok _ _ _ Hv). cbn [bind].
    destruct (IH (S k) (Z.lor shash (Z.shiftl (Z.b2z (len <=? 2 * v)) (Z.of_nat k))))
      as (s' & Hrun & Hpos & Hbits); [lia|].
    exists s'. split; [exact Hrun|]. split.
    + intros H0. apply Hpos. apply Z.lor_nonneg. split; [assumption|].
      apply Z.shiftl_nonneg. destruct (len <=? 2 * v); cbn; lia.
    + intros j Hj. rewrite Hbits by assumption.
      rewrite Z.lor_spec, Z.shiftl_spec by assumption.
      rewrite <- orb_assoc. f_equal. f_equal.
      unfold vote at 1. rewrite Hv.
      destruct (Z.eqb_spec (Z.of_nat k) j) as [<-|Hne].
      * rewrite Z.sub_diag. destruct (len <=? 2 * v); reflexivity.
      * cbn [andb]. destruct (len <=? 2 * v); cbn [Z.b2z].
        -- destruct (Z.lt_ge_cases (j - Z.of_nat k) 0).
           ++ now rewrite Z.testbit_neg_r.
           ++ change 1 with (2 ^ 0). rewrite Z.pow2_bits_eqb by lia.
              apply Z.eqb_neq. lia.
        -- apply Z.testbit_0_l.
Qed.

Lemma existsb_seq_pick (f : nat -> bool) m : forall k j,
  existsb (fun i => (Z.of_nat i =? j) && f i) (seq k m)
  = if bool_decide (Z.of_nat k <= j < Z.of_nat (k + m)) then f (Z.to_nat j) else false.
Proof.
  induction m as [|m IH]; intros k j.
  - cbn. rewrite bool_decide_eq_false_2 by lia. reflexivity.
  - cbn [seq existsb]. rewrite IH.
    destruct (Z.eqb_spec (Z.of_nat k) j) as [<-|Hne].
    + rewrite Nat2Z.id. rewrite bool_decide_eq_false_2 by lia.
      rewrite bool_decide_eq_true_2 by lia. cbn. now rewrite orb_false_r.
    + cbn [andb orb].
      destruct (decide (Z.of_nat (S k) <= j < Z.of_nat (S k + m))).
      * rewrite !bool_decide_eq_true_2 by lia. reflexivity.
      * rewrite !bool_decide_eq_false_2 by lia. reflexivity.
Qed.

Lemma bits_below n a :
  0 <= n -> 0 <= a -> (forall j, n <= j -> Z.testbit a j = false) -> a < 2 ^ n.
Proof.
  intros Hn Ha Hhigh.
  assert (a mod 2 ^ n = a) as <-.
  { apply Z.bits_inj'. intros j Hj.
    destruct (Z.lt_ge_cases j n).
    - now rewrite Z.mod_pow2_bits_low.
    - rewrite Z.mod_pow2_bits_high by lia. symmetry. apply Hhigh. lia. }
  apply Z.mod_pos_bound. apply Z.pow_pos_nonneg; lia.
Qed.

Lemma similarity_hash_votes (hash_digests : list (list Z)) (L : nat) :
  hash_digests <> [] ->
  Forall (fun d => length d = L) hash_digests ->
  exists vector shash,
    similarity_hash hash_digests = to_bytes shash L
    /\ 0 <= shash < 256 ^ Z.of_nat L
    /\ (forall i, (i < L * 8)%nat -> vector !! i = Some (count_bit hash_digests i))
    /\ (forall j, 0 <= j -> Z.testbit shash j =
          if bool_decide (0 <= j < Z.of_nat (L * 8))
          then vote vector (len hash_digests) (Z.to_nat j) else false).
Proof.
  intros Hne Hall.
  destruct hash_digests as [|first rest]; [congruence|].
  pose proof Hall as Hfirst. apply Forall_cons in Hfirst as [Hfirst _].
  unfold similarity_hash. cbn [getitem lookup list_lookup bind].
  rewrite Hfirst.
  destruct (digests_loop L (first :: rest) (replicate (L * 8) 0) Hall)
    as (vector & Hrun & Hlen & Hcount); [apply length_replicate|].
  match goal with
  | |- context [for_each ?f (first :: rest) ?v] =>
      replace (for_each f (first :: rest) v) with (Ok vector) by (symmetry; exact Hrun)
  end.
  cbn [bind].
  destruct (vote_loop vector (Z.of_nat (length (first :: rest))) (L * 8) 0 0)
    as (shash & Hvote & Hpos & Hbits); [lia|].
  rewrite Hvote. cbn [bind].
  assert (Hbit : forall j, 0 <= j -> Z.testbit shash j =
            if bool_decide (0 <= j < Z.of_nat (L * 8))
            then vote vector (len (first :: rest)) (Z.to_nat j) else false).
  { intros j Hj. rewrite Hbits, Z.testbit_0_l, existsb_seq_pick by assumption.
    reflexivity. }
  exists vector, shash. split; [reflexivity|]. split; [|split; [|exact Hbit]].
  - split; [apply Hpos; lia|].
    change 256 with (2 ^ 8). rewrite <- Z.pow_mul_r by lia.
    apply bits_below; [lia|apply Hpos; lia|].
    intros j Hj. rewrite Hbit by lia. rewrite bool_decide_eq_false_2 by lia. reflexivity.
  - intros i Hi. rewrite (Hcount i 0) by (apply lookup_replicate_2; lia).
    now rewrite Z.add_0_l.
Qed.

Lemma similarity_hash_length (hash_digests : list (list Z)) (L : nat) :
  hash_digests <> [] ->
  Forall (fun d => length d = L) hash_digests ->
  exists out, similarity_hash hash_digests = Ok out /\ length out = L.
Proof.
  intros Hne Hall.
  destruct (similarity_hash_votes hash_digests L Hne Hall)
    as (vector & shash & Hrun & Hrange & _).
  destruct (to_bytes_ok shash L Hrange) as [Hto _].
  exists (be_bytes L shash). rewrite Hrun. split; [exact Hto|apply length_be_bytes].
Qed.

(** Claim C2.  For a non-empty sequence of digests that all have [L] bytes,
    [similarity_hash] returns a digest of [L] bytes, and bit [i] (counted
    from the least significant bit of the big-endian integer) of the result
    is set exactly when the number of input digests with bit [i] set is at
    least half the number of digests; a tie gives 1. *)
Theorem similarity_hash_majority (hash_digests : list (list Z)) (L : nat) :
  hash_digests <> [] ->
  Forall (fun d => length d = L) hash_digests ->
  exists out,
    similarity_hash hash_digests = Ok out
    /\ length out = L
    /\ forall i, (i < 8 * L)%nat ->
         (Z.testbit (from_bytes out) (Z.of_nat i) = true
          <-> len hash_digests <= 2 * count_bit hash_digests i).
Proof.
  intros Hne Hall.
  destruct (similarity_hash_votes hash_digests L Hne Hall)
    as (vector & shash & Hrun & Hrange & Hcount & Hbit).
  destruct (to_bytes_ok shash L Hrange) as [Hto Hfrom].
  exists (be_bytes L shash). rewrite Hrun.
  split; [exact Hto|]. split; [apply length_be_bytes|].
  intros i Hi. rewrite Hfrom, Hbit by lia.
  rewrite bool_decide_eq_true_2 by lia. rewrite Nat2Z.id.
  unfold vote. rewrite Hcount by lia.
  apply Z.leb_le.
Qed.

(** ** Minimum hash *)

Lemma slot_hash_range ax bx h : 0 <= slot_hash ax bx h <= 2 ^ 32 - 1.
Proof.
  unfold slot_hash. change (2 ^ 32 - 1) with (Z.ones 32).
  rewrite Z.land_ones by lia.
  pose proof (Z.mod_pos_bound (Z.land (ax * h + bx) (2 ^ 64 - 1) mod (2 ^ 61 - 1))
                (2 ^ 32) ltac:(lia)).
  change (Z.ones 32) with (2 ^ 32 - 1). lia.
Qed.

Lemma slot_min_range ax bx features : forall reg,
  0 <= reg <= 2 ^ 32 - 1 -> 0 <= slot_min ax bx features reg <= 2 ^ 32 - 1.
Proof.
  unfold slot_min. induction features as [|h hs IH]; intros reg Hreg; [exact Hreg|].
  cbn [fold_left]. apply IH. pose proof (slot_hash_range ax bx h). lia.
Qed.

Section minhash_facts.
Variables a b : list Z.
Hypothesis length_a : length a = 128%nat.
Hypothesis length_b : length b = 128%nat.

Lemma slots_loop hashvalues hv m : forall k nhs,
  length hashvalues = 128%nat ->
  (k + m <= 128)%nat ->
  exists new,
    for_each (slot_step a b hashvalues hv) (seq k m) nhs = Ok (nhs ++ new)
    /\ length new = m
    /\ forall i ax bx old, (i < m)%nat ->
         a !! (k + i)%nat = Some ax -> b !! (k + i)%nat = Some bx ->
         hashvalues !! (k + i)%nat = Some old ->
         new !! i = Some (Z.min (slot_hash ax bx hv) old).
Proof.
  induction m as [|m IH]; intros k nhs Hlen Hk.
  - exists []. rewrite app_nil_r. split; [reflexivity|]. split; [reflexivity|]. lia.
  - cbn [seq for_each].
    destruct (lookup_lt_is_Some_2 a k ltac:(lia)) as [ax Hax].
    destruct (lookup_lt_is_Some_2 b k ltac:(lia)) as [bx Hbx].
    destruct (lookup_lt_is_Some_2 hashvalues k ltac:(lia)) as [old Hold].
    unfold slot_step at 1.
    rewrite (getitem_ok _ _ _ Hax), (getitem_ok _ _ _ Hbx), (getitem_ok _ _ _ Hold).
    cbn [bind].
    change (Z.land (Z.land (ax * hv + bx) max_int64 mod mersenne_prime) max_hash)
      with (slot_hash ax bx hv).
    destruct (IH (S k) (nhs ++ [Z.min (slot_hash ax bx hv) old]) Hlen ltac:(lia))
      as (new & Hrun & Hl & Hnew).
    exists (Z.min (slot_hash ax bx hv) old :: new).
    split; [|split].
    + rewrite Hrun, <- app_assoc. reflexivity.
    + cbn. now rewrite Hl.
    + intros [|i] ax' bx' old' Hi Ha Hb Hh.
      * rewrite Nat.add_0_r in *. cbn. congruence.
      * cbn. apply Hnew; [lia| | |];
          rewrite <- ?Ha, <- ?Hb, <- ?Hh; f_equal; lia.
Qed.

Lemma features_loop features : forall hashvalues,
  length hashvalues = 128%nat ->
  exists out,
    for_each (fun hashvalues hv => for_each (slot_step a b hashvalues hv) (seq 0 128) [])
      features hashvalues = Ok out
    /\ length out = 128%nat
    /\ forall x ax bx reg,
         a !! x = Some ax -> b !! x = Some bx -> hashvalues !! x = Some reg ->
         out !! x = Some (slot_min ax bx features reg).
Proof.
  induction features as [|hv hs IH]; intros hashvalues Hlen.
  - exists hashvalues. split; [reflexivity|]. split; [exact Hlen|].
    intros x ax bx reg _ _ Hreg. exact Hreg.
  - cbn [for_each].
    destruct (slots_loop hashvalues hv 128 0 [] Hlen ltac:(lia)) as (new & Hrun & Hl & Hnew).
    rewrite Hrun. cbn [bind app].
    destruct (IH new Hl) as (out & Hrun' & Hl' & Hout).
    exists out. split; [exact Hrun'|]. split; [exact Hl'|].
    intros x ax bx reg Ha Hb Hreg.
    apply (Hout x ax bx); [assumption..|].
    apply (Hnew x ax bx reg); try assumption.
    apply lookup_lt_Some in Ha. lia.
Qed.

Lemma minimum_hash_length (features : list Z) :
  exists out, minimum_hash (a, b) features = Ok out /\ length out = 128%nat.
Proof.
  destruct (features_loop features (replicate 128 max_hash)) as (out & Hrun & Hl & _);
    [apply length_replicate|].
  exists out. split; [exact Hrun|exact Hl].
Qed.

(** Claim C3.  For every list of features, [minimum_hash] returns a list
    of exactly 128 integers, each in [0, 2^32 - 1]; slot [x] holds the
    minimum over the features [h] of
    [(((a[x] * h + b[x]) & (2^64 - 1)) mod (2^61 - 1)) & (2^32 - 1)],
    folded against the initial register [2^32 - 1].  The two tables have
    128 entries each. *)
Theorem minimum_hash_slots (features : list Z) :
  exists out,
    minimum_hash (a, b) features = Ok out
    /\ length out = 128%nat
    /\ Forall (fun v => 0 <= v <= 2 ^ 32 - 1) out
    /\ forall x ax bx,
         a !! x = Some ax -> b !! x = Some bx ->
         out !! x = Some (slot_min ax bx features (2 ^ 32 - 1)).
Proof.
  destruct (features_loop features (replicate 128 max_hash)) as (out & Hrun & Hl & Hout);
    [apply length_replicate|].
  exists out. split; [exact Hrun|]. split; [exact Hl|].
  assert (Hslot : forall x ax bx,
    a !! x = Some ax -> b !! x = Some bx ->
    out !! x = Some (slot_min ax bx features (2 ^ 32 - 1))).
  { intros x ax bx Ha Hb. apply (Hout x ax bx); [assumption..|].
    apply lookup_replicate_2. apply lookup_lt_Some in Ha. lia. }
  split; [|exact Hslot].
  apply Forall_lookup. intros x v Hv.
  pose proof (lookup_lt_Some _ _ _ Hv) as Hx. rewrite Hl in Hx.
  destruct (lookup_lt_is_Some_2 a x ltac:(lia)) as [ax Hax].
  destruct (lookup_lt_is_Some_2 b x ltac:(lia)) as [bx Hbx].
  rewrite (Hslot x ax bx Hax Hbx) in Hv. injection Hv as <-.
  apply slot_min_range. lia.
Qed.
End minhash_facts.

(** ** Gear chunker *)

Lemma chunks_bounded_lookup chunks : forall counter remaining k chunk,
  chunks_bounded counter remaining chunks ->
  chunks !! k = Some chunk ->
  Z.min (len (drop (length (concat (take k chunks))) remaining))
        (stage_min (counter + Z.of_nat k)) <= len chunk
  <= stage_max (counter + Z.of_nat k).
Proof.
  induction chunks as [|c cs IH]; intros counter remaining k chunk Hbd Hk; [discriminate|].
  destruct Hbd as [Hc Hcs]. destruct k as [|k].
  - injection Hk as <-. cbn [take concat length drop]. rewrite Z.add_0_r. exact Hc.
  - cbn [lookup list_lookup] in Hk. cbn [take concat].
    rewrite length_app, <- drop_drop.
    replace (counter + Z.of_nat (S k)) with (counter + 1 + Z.of_nat k) by lia.
    apply IH; assumption.
Qed.

Lemma stream_read_spec n s :
  0 < n ->
  let '(more, s') := Stream.read n s in
  more ++ Stream.unread s' = Stream.unread s
  /\ len more <= n
  /\ (more = [] -> Stream.unread s = []).
Proof.
  intros Hn. unfold Stream.read. cbn [Stream.unread].
  set (k := match Stream.short_reads s with
            | [] => Z.to_nat n
            | limit :: _ => Nat.min (Z.to_nat n) (Pos.to_nat limit)
            end).
  assert (Hk : (0 < k <= Z.to_nat n)%nat).
  { unfold k. destruct (Stream.short_reads s) as [|limit ?]; lia. }
  split; [apply take_drop|]. split.
  - unfold len. rewrite length_take. lia.
  - intros Hnil. destruct (Stream.unread s) as [|b bs]; [reflexivity|].
    destruct k; [lia|discriminate].
Qed.

Lemma stream_read_BytesIO n data :
  Stream.read n (Stream.BytesIO data)
  = (take (Z.to_nat n) data, Stream.BytesIO (drop (Z.to_nat n) data)).
Proof. reflexivity. Qed.

Lemma refill_stream_spec size section data :
  0 < size ->
  let '(section', data') := refill_stream size section data in
  section' ++ Stream.unread data' = section ++ Stream.unread data
  /\ (section' = [] -> Stream.unread data' = []).
Proof.
  intros Hsize. unfold refill_stream.
  destruct (Z.ltb_spec (len section) size) as [Hlt|Hge].
  - pose proof (stream_read_spec size data Hsize) as Hread.
    destruct (Stream.read size data) as [more data'].
    destruct Hread as (Hcat & _ & Hend). split.
    + now rewrite <- app_assoc, Hcat.
    + intros Hnil. apply app_eq_nil in Hnil as [_ ->].
      cbn [app] in Hcat. rewrite Hcat. apply Hend. reflexivity.
  - split; [reflexivity|]. intros ->. unfold len in Hge. cbn in Hge. lia.
Qed.

Lemma chunks_sized_lookup chunks : forall counter k chunk,
  chunks_sized counter chunks ->
  chunks !! k = Some chunk ->
  1 <= len chunk <= stage_max (counter + Z.of_nat k).
Proof.
  induction chunks as [|c cs IH]; intros counter k chunk Hs Hk; [discriminate|].
  destruct Hs as [Hc Hcs]. destruct k as [|k].
  - injection Hk as <-. rewrite Z.add_0_r. exact Hc.
  - cbn [lookup list_lookup] in Hk.
    replace (counter + Z.of_nat (S k)) with (counter + 1 + Z.of_nat k) by lia.
    apply IH; assumption.
Qed.

Lemma chunks_sized_nonempty chunks : forall counter,
  chunks_sized counter chunks -> Forall (fun c => c <> []) chunks.
Proof.
  induction chunks as [|c cs IH]; intros counter Hs; [constructor|].
  destruct Hs as [Hc Hcs]. constructor; [|apply (IH _ Hcs)].
  intros ->. unfold len in Hc. cbn in Hc. lia.
Qed.

Section chunker_facts.
Variable CHUNKING_GEAR : list Z.
Hypothesis gear_entries : length CHUNKING_GEAR = 256%nat.

Lemma gear_scan_ok data mask steps : forall i pattern,
  is_bytes data ->
  0 <= i -> i + Z.of_nat steps <= len data ->
  exists r, gear_scan CHUNKING_GEAR steps data mask i pattern = Ok r
    /\ match r with
       | Return j => i <= j < i + Z.of_nat steps
       | Continue (j, _) => j = i + Z.of_nat steps
       end.
Proof.
  induction steps as [|steps IH]; intros i pattern Hb Hi Hlen.
  - eexists. split; [reflexivity|]. cbn. lia.
  - cbn [gear_scan].
    destruct (getitem_int_ok data i ltac:(lia)) as (octet & Ho & Hlk). rewrite Ho. cbn [bind].
    assert (Hbyte : is_byte octet).
    { eapply Forall_lookup_1; [exact Hb|exact Hlk]. }
    destruct (getitem_int_ok CHUNKING_GEAR octet) as (gear & Hg & _).
    { unfold len, is_byte in *. rewrite gear_entries. lia. }
    rewrite Hg. cbn [bind].
    destruct (Z.land (Z.shiftl pattern 1 + gear) mask =? 0).
    + eexists. split; [reflexivity|]. cbn. lia.
    + destruct (IH (i + 1) (Z.shiftl pattern 1 + gear) Hb ltac:(lia) ltac:(lia))
        as (r & Hr & Hspec).
      exists r. split; [exact Hr|]. destruct r as [j|[j p]]; lia.
Qed.

Lemma chunk_length_ok data norm_size min_size max_size mask_1 mask_2 :
  is_bytes data ->
  0 <= min_size <= norm_size -> norm_size <= max_size ->
  exists boundary,
    chunk_length CHUNKING_GEAR data norm_size min_size max_size mask_1 mask_2 = Ok boundary
    /\ Z.min (len data) min_size <= boundary <= Z.min (len data) max_size.
Proof.
  intros Hb Hmin Hmax. unfold chunk_length.
  destruct (Z.leb_spec (len data) min_size) as [Hle|Hgt].
  - eexists. split; [reflexivity|]. lia.
  - destruct (gear_scan_ok data mask_1
                (Z.to_nat (Z.min norm_size (len data) - min_size)) min_size 0 Hb)
      as (r & Hr & Hspec); [lia|lia|].
    rewrite Hr. cbn [bind]. destruct r as [j|[j p]].
    + eexists. split; [reflexivity|]. lia.
    + destruct (gear_scan_ok data mask_2
                  (Z.to_nat (Z.min max_size (len data) - j)) j p Hb)
        as (r & Hr' & Hspec'); [lia|lia|].
      rewrite Hr'. cbn [bind]. destruct r as [j'|[j' p']].
      * eexists. split; [reflexivity|]. lia.
      * eexists. split; [reflexivity|]. lia.
Qed.

Lemma refill_spec size section data :
  0 < size ->
  let '(section', data') := refill size section data in
  section' ++ data' = section ++ data
  /\ (len section' < size -> data' = []).
Proof.
  intros Hsize. unfold refill, read.
  destruct (Z.ltb_spec (len section) size) as [Hlt|Hge].
  - split.
    + now rewrite <- app_assoc, take_drop.
    + unfold len. rewrite length_app, length_take. intros H.
      apply drop_ge. lia.
  - split; [reflexivity|]. lia.
Qed.

Lemma data_chunks_loop_unfold fuel data section counter :
  data_chunks_loop CHUNKING_GEAR (S fuel) data section counter
  = let '(section, data) := refill (stage_max counter) section data in
    if len section =? 0 then Ok []
    else
      let* boundary :=
        if counter <? 100
        then chunk_length CHUNKING_GEAR section 40 20 640 0x016118 0x00a0b1
        else chunk_length CHUNKING_GEAR section 4096 2048 65536
               0x0003590703530000 0x0000d90003530000 in
      let* rest := data_chunks_loop CHUNKING_GEAR fuel data
                     (slice_from section boundary) (counter + 1) in
      Ok (slice_to section boundary :: rest).
Proof.
  cbn [data_chunks_loop]. unfold stage_max, refill.
  destruct (counter <? 100); reflexivity.
Qed.

Lemma data_chunks_loop_ok fuel : forall data section counter,
  is_bytes (section ++ data) ->
  (length (section ++ data) < fuel)%nat ->
  exists chunks,
    data_chunks_loop CHUNKING_GEAR fuel data section counter = Ok chunks
    /\ concat chunks = section ++ data
    /\ chunks_bounded counter (section ++ data) chunks.
Proof.
  induction fuel as [|fuel IH]; intros data section counter Hb Hfuel; [lia|].
  rewrite data_chunks_loop_unfold.
  pose proof (refill_spec (stage_max counter) section data) as Hrefill.
  destruct (refill (stage_max counter) section data) as [section' data'].
  destruct Hrefill as [Hsame Hshort]; [unfold stage_max; destruct (counter <? 100); lia|].
  rewrite <- Hsame in *.
  destruct (Z.eqb_spec (len section') 0) as [Hz|Hnz].
  - exists []. split; [reflexivity|].
    assert (section' = []) as -> by (apply length_zero_iff_nil; unfold len in Hz; lia).
    rewrite Hshort by (unfold stage_max, len; cbn; destruct (counter <? 100); lia).
    split; [reflexivity|exact I].
  - assert (Hbs : is_bytes section') by (apply Forall_app in Hb; tauto).
    assert (exists boundary,
      (if counter <? 100
       then chunk_length CHUNKING_GEAR section' 40 20 640 0x016118 0x00a0b1
       else chunk_length CHUNKING_GEAR section' 4096 2048 65536
              0x0003590703530000 0x0000d90003530000) = Ok boundary
      /\ Z.min (len section') (stage_min counter) <= boundary
         <= Z.min (len section') (stage_max counter)) as (boundary & Hcl & Hbound).
    { unfold stage_min, stage_max. destruct (counter <? 100);
        apply chunk_length_ok; auto; lia. }
    rewrite Hcl. cbn [bind].
    assert (Hpos : 0 < boundary <= len section').
    { unfold stage_min, len in *. destruct (counter <? 100); lia. }
    unfold slice_from, slice_to.
    replace (0 <=? boundary) with true by (symmetry; apply Z.leb_le; lia).
    destruct (IH data' (drop (Z.to_nat boundary) section') (counter + 1))
      as (rest & Hrest & Hcat & Hbd).
    { rewrite <- (take_drop (Z.to_nat boundary) section'), <- app_assoc in Hb.
      apply Forall_app in Hb. tauto. }
    { rewrite length_app, length_drop. rewrite length_app in Hfuel.
      unfold len in Hpos. lia. }
    rewrite Hrest. cbn [bind].
    eexists. split; [reflexivity|]. split.
    + cbn [concat]. rewrite Hcat, app_assoc, take_drop. reflexivity.
    + cbn [chunks_bounded].
      assert (Hlc : length (take (Z.to_nat boundary) section') = Z.to_nat boundary)
        by (rewrite length_take; unfold len in Hpos; lia).
      split.
      * unfold len at 2 3. rewrite Hlc, Z2Nat.id by lia.
        split; [|lia].
        destruct (Z.lt_ge_cases (len section') (stage_min counter)) as [Hs|Hs].
        -- rewrite Hshort.
           ++ rewrite app_nil_r. lia.
           ++ unfold stage_min, stage_max in *. destruct (counter <? 100); lia.
        -- lia.
      * rewrite Hlc, drop_app_le by (unfold len in Hpos; lia). exact Hbd.
Qed.

Lemma data_chunks_ok data :
  is_bytes data ->
  exists chunks,
    data_chunks CHUNKING_GEAR data = Ok chunks
    /\ concat chunks = data
    /\ chunks_bounded 0 data chunks.
Proof.
  intros Hb. unfold data_chunks, read.
  destruct (data_chunks_loop_ok (S (length data))
              (drop (Z.to_nat 640) data) (take (Z.to_nat 640) data) 0)
    as (chunks & Hrun & Hcat & Hbd); rewrite ?take_drop; auto.
  exists chunks. rewrite take_drop in *. auto.
Qed.

Lemma stream_chunks_loop_unfold fuel data section counter :
  Stream.data_chunks_loop CHUNKING_GEAR (S fuel) data section counter
  = let '(section, data) := refill_stream (stage_max counter) section data in
    if len section =? 0 then Ok []
    else
      let* boundary :=
        if counter <? 100
        then chunk_length CHUNKING_GEAR section 40 20 640 0x016118 0x00a0b1
        else chunk_length CHUNKING_GEAR section 4096 2048 65536
               0x0003590703530000 0x0000d90003530000 in
      let* rest := Stream.data_chunks_loop CHUNKING_GEAR fuel data
                     (slice_from section boundary) (counter + 1) in
      Ok (slice_to section boundary :: rest).
Proof.
  cbn [Stream.data_chunks_loop]. unfold stage_max, refill_stream.
  destruct (counter <? 100); reflexivity.
Qed.

(** The chunker on a stream: whatever the reads deliver, the chunks are
    the input, none is empty and none exceeds the maximal size. *)
Lemma stream_chunks_loop_ok fuel : forall data section counter,
  is_bytes (section ++ Stream.unread data) ->
  (length (section ++ Stream.unread data) < fuel)%nat ->
  exists chunks,
    Stream.data_chunks_loop CHUNKING_GEAR fuel data section counter = Ok chunks
    /\ concat chunks = section ++ Stream.unread data
    /\ chunks_sized counter chunks.
Proof.
  induction fuel as [|fuel IH]; intros data section counter Hb Hfuel; [lia|].
  rewrite stream_chunks_loop_unfold.
  pose proof (refill_stream_spec (stage_max counter) section data) as Hrefill.
  destruct (refill_stream (stage_max counter) section data) as [section' data'].
  destruct Hrefill as [Hsame Hend]; [unfold stage_max; destruct (counter <? 100); lia|].
  rewrite <- Hsame in *.
  destruct (Z.eqb_spec (len section') 0) as [Hz|Hnz].
  - exists []. split; [reflexivity|].
    assert (section' = []) as -> by (apply length_zero_iff_nil; unfold len in Hz; lia).
    rewrite (Hend eq_refl). split; [reflexivity|exact I].
  - assert (Hbs : is_bytes section') by (apply Forall_app in Hb; tauto).
    assert (exists boundary,
      (if counter <? 100
       then chunk_length CHUNKING_GEAR section' 40 20 640 0x016118 0x00a0b1
       else chunk_length CHUNKING_GEAR section' 4096 2048 65536
              0x0003590703530000 0x0000d90003530000) = Ok boundary
      /\ Z.min (len section') (stage_min counter) <= boundary
         <= Z.min (len section') (stage_max counter)) as (boundary & Hcl & Hbound).
    { unfold stage_min, stage_max. destruct (counter <? 100);
        apply chunk_length_ok; auto; lia. }
    rewrite Hcl. cbn [bind].
    assert (Hpos : 0 < boundary <= len section').
    { unfold stage_min, len in *. destruct (counter <? 100); lia. }
    unfold slice_from, slice_to.
    replace (0 <=? boundary) with true by (symmetry; apply Z.leb_le; lia).
    destruct (IH data' (drop (Z.to_nat boundary) section') (counter + 1))
      as (rest & Hrest & Hcat & Hsized).
    { rewrite <- (take_drop (Z.to_nat boundary) section'), <- app_assoc in Hb.
      apply Forall_app in Hb. tauto. }
    { rewrite length_app, length_drop. rewrite length_app in Hfuel.
      unfold len in Hpos. lia. }
    rewrite Hrest. cbn [bind].
    eexists. split; [reflexivity|]. split.
    + cbn [concat]. rewrite Hcat, app_assoc, take_drop. reflexivity.
    + cbn [chunks_sized]. split; [|exact Hsized].
      unfold len at 1 2. rewrite length_take. unfold len in Hpos. lia.
Qed.

Lemma stream_chunks_ok data :
  is_bytes (Stream.unread data) ->
  exists chunks,
    Stream.data_chunks CHUNKING_GEAR data = Ok chunks
    /\ concat chunks = Stream.unread data
    /\ chunks_sized 0 chunks.
Proof.
  intros Hb. unfold Stream.data_chunks.
  pose proof (stream_read_spec 640 data ltac:(lia)) as Hread.
  destruct (Stream.read 640 data) as [section data'].
  destruct Hread as (Hcat & _ & _).
  destruct (stream_chunks_loop_ok (S (length (Stream.unread data))) data' section 0)
    as (chunks & Hrun & Hconcat & Hsized); rewrite ?Hcat; auto.
  exists chunks. rewrite Hcat in Hconcat. auto.
Qed.

(** On a [BytesIO] the stream chunker is the chunker of a bytes buffer. *)
Lemma stream_chunks_loop_BytesIO fuel : forall data section counter,
  Stream.data_chunks_loop CHUNKING_GEAR fuel (Stream.BytesIO data) section counter
  = data_chunks_loop CHUNKING_GEAR fuel data section counter.
Proof.
  induction fuel as [|fuel IH]; intros data section counter; [reflexivity|].
  rewrite stream_chunks_loop_unfold, data_chunks_loop_unfold.
  unfold refill_stream, refill, read. rewrite stream_read_BytesIO.
  destruct (len section <? stage_max counter).
  - destruct (len (section ++ take (Z.to_nat (stage_max counter)) data) =? 0); [reflexivity|].
    destruct (if counter <? 100 then _ else _) as [boundary| |]; cbn [bind]; try reflexivity.
    now rewrite IH.
  - destruct (len section =? 0); [reflexivity|].
    destruct (if counter <? 100 then _ else _) as [boundary| |]; cbn [bind]; try reflexivity.
    now rewrite IH.
Qed.

Lemma stream_chunks_BytesIO data :
  Stream.data_chunks CHUNKING_GEAR (Stream.BytesIO data) = data_chunks CHUNKING_GEAR data.
Proof.
  unfold Stream.data_chunks, data_chunks, read. rewrite stream_read_BytesIO.
  apply stream_chunks_loop_BytesIO.
Qed.

(** Claim C4.  For every input, a stream whose [read] may deliver fewer
    bytes than it is asked for as well as a bytes buffer, [data_chunks]
    returns, and the concatenation of the chunks it yields, in the order it
    yields them, is the input.  The gear table has 256 entries. *)
Theorem data_chunks_concat :
  (forall data, is_bytes (Stream.unread data) ->
     exists chunks, Stream.data_chunks CHUNKING_GEAR data = Ok chunks
       /\ concat chunks = Stream.unread data)
  /\ (forall data, is_bytes data ->
        exists chunks, data_chunks CHUNKING_GEAR data = Ok chunks /\ concat chunks = data).
Proof.
  split.
  - intros data Hb.
    destruct (stream_chunks_ok data Hb)
      as (chunks & Hrun & Hcat & _).
    exists chunks. auto.
  - intros data Hb.
    destruct (data_chunks_ok data Hb) as (chunks & Hrun & Hcat & _).
    exists chunks. auto.
Qed.

(** Claim C5, as amended.  On an input whose [read] is exact (a bytes
    buffer, which [data_chunks] wraps in a [BytesIO]), every chunk has a
    length in [[min(len(remaining), min_size), max_size]], where
    [remaining] is the suffix of the input not yet yielded when the chunk
    is cut, and [min_size], [max_size] are 20 and 640 for the chunks 0 to
    99, then 2048 and 65536.  On a stream whose [read] may deliver fewer
    bytes than it is asked for, every chunk has at least one byte and at
    most [max_size] bytes. *)
Theorem data_chunks_sizes :
  (forall data, is_bytes data ->
     exists chunks,
       Stream.data_chunks CHUNKING_GEAR (Stream.BytesIO data) = Ok chunks
       /\ data_chunks CHUNKING_GEAR data = Ok chunks
       /\ forall k chunk, chunks !! k = Some chunk ->
            let remaining := drop (length (concat (take k chunks))) data in
            Z.min (len remaining) (stage_min (Z.of_nat k)) <= len chunk
            <= stage_max (Z.of_nat k))
  /\ (forall data, is_bytes (Stream.unread data) ->
        exists chunks,
          Stream.data_chunks CHUNKING_GEAR data = Ok chunks
          /\ forall k chunk, chunks !! k = Some chunk ->
               1 <= len chunk <= stage_max (Z.of_nat k)).
Proof.
  split.
  - intros data Hb.
    destruct (data_chunks_ok data Hb) as (chunks & Hrun & _ & Hbd).
    exists chunks. split; [rewrite stream_chunks_BytesIO; exact Hrun|].
    split; [exact Hrun|].
    intros k chunk Hk. apply (chunks_bounded_lookup chunks 0 data k chunk Hbd Hk).
  - intros data Hb.
    destruct (stream_chunks_ok data Hb)
      as (chunks & Hrun & _ & Hsized).
    exists chunks. split; [exact Hrun|].
    intros k chunk Hk. apply (chunks_sized_lookup chunks 0 k chunk Hsized Hk).
Qed.
End chunker_facts.

(** Claim C5, counterexample.  A stream of forty bytes that delivers seven
    bytes for each call of [read]: the buffer is filled up once for each
    round, so the first chunk is cut from fourteen bytes and has fourteen,
    below the twenty of its stage, while forty bytes remain. *)
Lemma data_chunks_short_reads :
  ~ (forall (data : Stream.stream) chunks,
       is_bytes (Stream.unread data) ->
       Stream.data_chunks sample_GEAR data = Ok chunks ->
       forall k chunk, chunks !! k = Some chunk ->
         let remaining := drop (length (concat (take k chunks))) (Stream.unread data) in
         Z.min (len remaining) (stage_min (Z.of_nat k)) <= len chunk
         <= stage_max (Z.of_nat k)).
Proof.
  intros H.
  pose (data := {| Stream.unread := replicate 40 7;
                   Stream.short_reads := replicate 10 7%positive |}).
  assert (Hrun : exists chunks,
            Stream.data_chunks sample_GEAR data = Ok chunks
            /\ chunks !! 0%nat = Some (replicate 14 7)).
  { vm_compute. eexists. split; reflexivity. }
  destruct Hrun as (chunks & Hrun & H0).
  assert (Hb : is_bytes (Stream.unread data)).
  { apply Forall_replicate. unfold is_byte. lia. }
  specialize (H data chunks Hb Hrun 0%nat (replicate 14 7) H0).
  cbn zeta in H. destruct H as [H _].
  change (take 0 chunks) with (@nil (list Z)) in H.
  vm_compute in H. apply H. reflexivity.
Qed.

(** ** Merkle top hash *)

Section tophash_facts.
Variable sha256 : list Z -> list Z.
Hypothesis sha256_length : forall data, length (sha256 data) = 32%nat.

Lemma length_node a b : length (hash_inner_nodes sha256 a b) = 32%nat.
Proof. unfold hash_inner_nodes, sha256d. apply sha256_length. Qed.

Lemma pairing_loop hashes m : forall k acc,
  (2 * (k + m) <= length hashes)%nat ->
  for_each (fun pairwise_hashed i =>
    let* l := getitem_int hashes i in
    let* r := getitem_int hashes (i + 1) in
    Ok (pairwise_hashed ++ [hash_inner_nodes sha256 l r]))
    (map (fun k => 2 * Z.of_nat k) (seq k m)) acc
  = Ok (acc ++ map (paired sha256 hashes) (seq k m)).
Proof.
  induction m as [|m IH]; intros k acc Hk.
  - cbn. now rewrite app_nil_r.
  - cbn [seq map for_each].
    destruct (getitem_int_ok hashes (2 * Z.of_nat k)) as (l & Hl & Hl'); [unfold len; lia|].
    destruct (getitem_int_ok hashes (2 * Z.of_nat k + 1)) as (r & Hr & Hr'); [unfold len; lia|].
    rewrite Hl, Hr. cbn [bind]. rewrite IH by lia. rewrite <- app_assoc. cbn [app].
    do 3 f_equal. unfold paired.
    replace (Z.to_nat (2 * Z.of_nat k)) with (2 * k)%nat in Hl' by lia.
    replace (Z.to_nat (2 * Z.of_nat k + 1)) with (2 * k + 1)%nat in Hr' by lia.
    now rewrite (list_lookup_total_correct _ _ _ Hl'), (list_lookup_total_correct _ _ _ Hr').
Qed.

Lemma pairwise_ok hashes :
  pairwise sha256 hashes
  = Ok (map (paired sha256 hashes) (seq 0 (length hashes / 2))
        ++ if Nat.odd (length hashes)
           then [hash_inner_nodes sha256 (hashes !!! (length hashes - 1)%nat)
                                        (hashes !!! (length hashes - 1)%nat)]
           else []).
Proof.
  unfold pairwise, range_by_2.
  replace (Z.to_nat ((len hashes - 1 + 1) / 2)) with (length hashes / 2)%nat.
  2:{ unfold len. rewrite Z.sub_add. rewrite <- (Nat2Z.id (length hashes / 2)).
      f_equal. rewrite Nat2Z.inj_div. reflexivity. }
  rewrite pairing_loop.
  2:{ pose proof (Nat.div_mod_eq (length hashes) 2). lia. }
  cbn [bind app].
  assert (Hodd : (len hashes mod 2 =? 1) = Nat.odd (length hashes)).
  { unfold len. destruct (Nat.odd (length hashes)) eqn:Ho.
    - apply Nat.odd_spec in Ho as [q Hq]. apply Z.eqb_eq.
      rewrite Hq. Z.div_mod_to_equations. lia.
    - assert (He : Nat.even (length hashes) = true)
        by (rewrite <- Nat.negb_odd, Ho; reflexivity).
      apply Nat.even_spec in He as [q Hq]. apply Z.eqb_neq.
      rewrite Hq. Z.div_mod_to_equations. lia. }
  rewrite Hodd. destruct (Nat.odd (length hashes)) eqn:Ho.
  - destruct (getitem_int_last hashes) as (x & Hx & Hx').
    { intros ->. discriminate. }
    rewrite Hx. cbn [bind]. now rewrite (list_lookup_total_correct _ _ _ Hx').
  - now rewrite app_nil_r.
Qed.

Lemma pairwise_length hashes level :
  pairwise sha256 hashes = Ok level ->
  length level = ((length hashes + 1) / 2)%nat /\ Forall (fun h => length h = 32%nat) level.
Proof.
  rewrite pairwise_ok. intros Heq.
  match type of Heq with Ok ?l = _ => assert (level = l) as -> by congruence end.
  clear Heq. split.
  - rewrite length_app, length_map, length_seq.
    pose proof (Nat.div_mod_eq (length hashes) 2) as Hd.
    pose proof (Nat.div_mod_eq (length hashes + 1) 2) as Hd'.
    pose proof (Nat.mod_upper_bound (length hashes) 2 ltac:(lia)).
    pose proof (Nat.mod_upper_bound (length hashes + 1) 2 ltac:(lia)).
    destruct (Nat.odd (length hashes)) eqn:Ho.
    + apply Nat.odd_spec in Ho as [q Hq].
      match goal with |- context [length [?x]] => change (length [x]) with 1%nat end.
      lia.
    + assert (He : Nat.even (length hashes) = true)
        by (rewrite <- Nat.negb_odd, Ho; reflexivity).
      apply Nat.even_spec in He as [q Hq].
      change (length (@nil (list Z))) with 0%nat. lia.
  - apply Forall_app. split.
    + apply Forall_map. apply Forall_forall. intros k _. apply length_node.
    + destruct (Nat.odd _); repeat constructor. apply length_node.
Qed.

Lemma top_hash_ok fuel : forall hashes,
  hashes <> [] ->
  (length hashes <= fuel)%nat ->
  Forall (fun h => length h = 32%nat) hashes ->
  exists root, top_hash sha256 fuel hashes = Ok root /\ length root = 32%nat.
Proof.
  induction fuel as [|fuel IH]; intros hashes Hne Hfuel H32.
  - destruct hashes; [congruence|cbn in Hfuel; lia].
  - cbn [top_hash]. destruct (Z.eqb_spec (len hashes) 1) as [H1|Hn1].
    + destruct (getitem_int_ok hashes 0) as (root & Hroot & Hlk); [lia|].
      exists root. split; [exact Hroot|].
      eapply Forall_lookup_1 in H32; [exact H32|exact Hlk].
    + destruct (pairwise sha256 hashes) as [level| |] eqn:Hp;
        try (rewrite pairwise_ok in Hp; discriminate).
      cbn [bind]. destruct (pairwise_length _ _ Hp) as [Hl Hl32].
      assert (2 <= length hashes)%nat.
      { destruct hashes as [|? [|? ?]]; [congruence| |cbn; lia].
        exfalso. apply Hn1. reflexivity. }
      pose proof (Nat.div_mod_eq (length hashes + 1) 2).
      pose proof (Nat.mod_upper_bound (length hashes + 1) 2 ltac:(lia)).
      apply IH; [|lia|exact Hl32].
      intros ->. change (length (@nil (list Z))) with 0%nat in Hl. lia.
Qed.

Lemma top_hash_more_fuel fuel : forall hashes root fuel',
  top_hash sha256 fuel hashes = Ok root -> (fuel <= fuel')%nat ->
  top_hash sha256 fuel' hashes = Ok root.
Proof.
  induction fuel as [|fuel IH]; intros hashes root fuel' Hrun Hle; [discriminate|].
  destruct fuel' as [|fuel']; [lia|]. cbn [top_hash] in *.
  destruct (len hashes =? 1); [exact Hrun|].
  destruct (pairwise sha256 hashes) as [level| |]; try discriminate.
  cbn [bind] in *. apply (IH _ _ _ Hrun). lia.
Qed.

Lemma top_hash_empty fuel : top_hash sha256 fuel [] = OutOfFuel.
Proof. induction fuel as [|fuel IH]; [reflexivity|]. cbn. exact IH. Qed.

Lemma leaf_nodes_ok rounds : forall data leaf_node_digests,
  (length data < rounds)%nat ->
  exists leaves,
    leaf_nodes sha256 rounds data leaf_node_digests = Ok (leaf_node_digests ++ leaves)
    /\ Forall (fun h => length h = 32%nat) leaves
    /\ (length leaves <= length data)%nat
    /\ (data <> [] -> leaves <> []).
Proof.
  induction rounds as [|rounds IH]; intros data acc Hr; [lia|].
  cbn [leaf_nodes]. unfold read.
  assert (Hn : (0 < Z.to_nat 64000)%nat) by lia.
  generalize dependent (Z.to_nat 64000). intros n Hn.
  destruct (take n data) as [|b chunk] eqn:Ht.
  - exists []. rewrite app_nil_r. split; [reflexivity|]. split; [constructor|].
    split; [cbn; lia|]. intros Hne. exfalso. apply Hne.
    destruct data; [reflexivity|]. destruct n; [lia|discriminate].
  - assert (0 < length data)%nat by (destruct data; [destruct n; discriminate|cbn; lia]).
    destruct (IH (drop n data) (acc ++ [sha256d sha256 ([0] ++ b :: chunk)]))
      as (leaves & Hrun & H32 & Hlen & _).
    { rewrite length_drop. lia. }
    exists (sha256d sha256 ([0] ++ b :: chunk) :: leaves).
    split; [rewrite Hrun, <- app_assoc; reflexivity|].
    split; [constructor; [apply sha256_length|exact H32]|].
    split; [|discriminate].
    rewrite length_drop in Hlen. cbn [length]. lia.
Qed.
End tophash_facts.

(** *** The levels of the tree *)

Section pairing_facts.
Variable sha256 : list Z -> list Z.

Lemma length_pair_up hashes :
  length (pair_up sha256 hashes) = ((length hashes + 1) / 2)%nat.
Proof.
  assert (H : forall n hashes, (length hashes <= n)%nat ->
            length (pair_up sha256 hashes) = ((length hashes + 1) / 2)%nat).
  { clear hashes. induction n as [|n IH]; intros hashes Hn.
    - destruct hashes; [reflexivity|cbn in Hn; lia].
    - destruct hashes as [|a [|b rest]]; [reflexivity|reflexivity|].
      cbn [pair_up length]. rewrite IH by (cbn [length] in Hn; lia).
      replace (S (S (length rest)) + 1)%nat with (length rest + 1 + 1 * 2)%nat by lia.
      rewrite Nat.div_add by lia. lia. }
  apply (H (length hashes)). lia.
Qed.

(** The index loop of [top_hash] builds the level of the specification. *)
Lemma pairwise_pair_up hashes : pairwise sha256 hashes = Ok (pair_up sha256 hashes).
Proof.
  rewrite pairwise_ok. f_equal.
  assert (H : forall n hashes, (length hashes <= n)%nat ->
    map (paired sha256 hashes) (seq 0 (length hashes / 2))
    ++ (if Nat.odd (length hashes)
        then [hash_inner_nodes sha256 (hashes !!! (length hashes - 1)%nat)
                                      (hashes !!! (length hashes - 1)%nat)]
        else [])
    = pair_up sha256 hashes).
  { clear hashes. induction n as [|n IH]; intros hashes Hn.
    - destruct hashes; [reflexivity|cbn in Hn; lia].
    - destruct hashes as [|a [|b rest]]; [reflexivity|reflexivity|].
      cbn [pair_up length]. rewrite <- (IH rest) by (cbn [length] in Hn; lia).
      replace (S (S (length rest)) / 2)%nat with (S (length rest / 2)).
      2:{ replace (S (S (length rest))) with (length rest + 1 * 2)%nat by lia.
          rewrite Nat.div_add by lia. lia. }
      cbn [seq map app]. f_equal.
      rewrite <- seq_shift, map_map. f_equal.
      + apply map_ext. intros k. unfold paired.
        replace (2 * S k)%nat with (S (S (2 * k))) by lia.
        replace (S (S (2 * k)) + 1)%nat with (S (S (2 * k + 1))) by lia.
        reflexivity.
      + change (Nat.odd (S (S (length rest)))) with (Nat.odd (length rest)).
        destruct (Nat.odd (length rest)) eqn:Ho; [|reflexivity].
        assert (0 < length rest)%nat by (destruct rest; [discriminate|cbn; lia]).
        replace (S (S (length rest)) - 1)%nat with (S (S (length rest - 1))) by lia.
        reflexivity. }
  apply (H (length hashes)). lia.
Qed.

Lemma top_hash_step fuel hashes :
  (2 <= length hashes)%nat ->
  top_hash sha256 (S fuel) hashes = top_hash sha256 fuel (pair_up sha256 hashes).
Proof.
  intros Hn. cbn [top_hash].
  replace (len hashes =? 1) with false by (symmetry; apply Z.eqb_neq; unfold len; lia).
  rewrite pairwise_pair_up. reflexivity.
Qed.

Hypothesis sha256_length : forall data, length (sha256 data) = 32%nat.

Lemma pair_up_32 hashes : Forall (fun h => length h = 32%nat) (pair_up sha256 hashes).
Proof.
  eapply pairwise_length; [exact sha256_length|apply pairwise_pair_up].
Qed.

(** [top_hash] returns the one node that the iterated pairing ends in. *)
Lemma top_hash_root fuel : forall hashes,
  hashes <> [] -> (length hashes <= fuel)%nat ->
  Forall (fun h => length h = 32%nat) hashes ->
  exists root depth,
    length root = 32%nat
    /\ Nat.iter depth (pair_up sha256) hashes = [root]
    /\ (forall d, (d < depth)%nat ->
          (2 <= length (Nat.iter d (pair_up sha256) hashes))%nat)
    /\ top_hash sha256 fuel hashes = Ok root.
Proof.
  induction fuel as [|fuel IH]; intros hashes Hne Hfuel H32.
  - destruct hashes; [congruence|cbn in Hfuel; lia].
  - destruct hashes as [|a [|b rest]]; [congruence| |].
    + exists a, 0%nat. split; [now apply Forall_inv in H32|].
      split; [reflexivity|]. split; [lia|reflexivity].
    + rewrite top_hash_step by (cbn [length]; lia).
      pose proof (length_pair_up (a :: b :: rest)) as Hl.
      pose proof (Nat.div_mod_eq (length (a :: b :: rest) + 1) 2) as Hd.
      pose proof (Nat.mod_upper_bound (length (a :: b :: rest) + 1) 2 ltac:(lia)) as Hm.
      cbn [length] in Hfuel, Hd, Hm, Hl.
      destruct (IH (pair_up sha256 (a :: b :: rest))) as (root & depth & Hr & Hit & Hlev & Hrun).
      { intros E. rewrite E in Hl. cbn [length] in Hl. lia. }
      { lia. }
      { apply pair_up_32. }
      exists root, (S depth). split; [exact Hr|].
      split; [rewrite Nat.iter_succ_r; exact Hit|]. split; [|exact Hrun].
      intros [|d] Hd'.
      { change (2 <= length (a :: b :: rest))%nat. cbn [length]. lia. }
      rewrite Nat.iter_succ_r. apply Hlev. lia.
Qed.
End pairing_facts.

(** ** Decoding and the sample tables *)

Lemma sample_tables_inverse v :
  0 <= v < 58 ->
  exists c, sample_V2CTABLE !! v = Some c /\ sample_C2VTABLE !! c = Some v.
Proof.
  intros Hv.
  assert (Hall : forallb (fun v =>
            match sample_V2CTABLE !! v with
            | Some c => bool_decide (sample_C2VTABLE !! c = Some v)
            | None => false
            end) sample_VALUES = true) by (vm_compute; reflexivity).
  rewrite forallb_forall in Hall.
  specialize (Hall v). 
  destruct (sample_V2CTABLE !! v) as [c|].
  - exists c. split; [reflexivity|]. eapply bool_decide_eq_true_1. apply Hall.
    unfold sample_VALUES. apply in_map_iff. exists (Z.to_nat v). split; [lia|].
    apply in_seq. lia.
  - exfalso. assert (false = true) as [=]. apply Hall.
    unfold sample_VALUES. apply in_map_iff. exists (Z.to_nat v). split; [lia|].
    apply in_seq. lia.
Qed.

Section codec_total.
Variables V2CTABLE C2VTABLE : gmap Z Z.

Lemma encode_ok digest :
  length digest = 1%nat \/ length digest = 8%nat \/ length digest = 9%nat ->
  exists code, encode V2CTABLE digest = Ok code
    /\ (length digest = 1%nat /\ length code = 2%nat
        \/ length digest = 8%nat /\ length code = 11%nat
        \/ length digest = 9%nat /\ length code = 13%nat).
Proof.
  intros [HL|[HL|HL]]; unfold encode.
  - rewrite bool_decide_eq_false_2 by lia. rewrite encode_part_1 by auto.
    eexists; split; [reflexivity|]. left. split; [auto|].
    now rewrite length_translate, length_rev, length_le_digits.
  - rewrite bool_decide_eq_false_2 by lia. rewrite encode_part_8 by auto.
    eexists; split; [reflexivity|]. right; left. split; [auto|].
    now rewrite length_translate, length_rev, length_le_digits.
  - rewrite bool_decide_eq_true_2 by auto.
    rewrite encode_part_1, encode_part_8
      by (rewrite ?length_take, ?length_drop; lia).
    cbn [bind]. eexists; split; [reflexivity|]. right; right. split; [auto|].
    now rewrite length_app, !length_translate, !length_rev, !length_le_digits.
Qed.

Lemma is_bytes_rev_le_digits k v : is_bytes (rev (le_digits 256 k v)).
Proof. apply Forall_rev. apply le_digits_range. lia. Qed.

(** Claim C7, as amended.  [decode] raises [ValueError] exactly on the
    codes whose length is not 2, 11 or 13; on every code of length 2, 11
    or 13 it returns a digest of 1, 8 or 9 bytes, whatever the characters
    of the code are: a character outside the alphabet is not rejected. *)
Theorem decode_total_on_legal_lengths code :
  match decode C2VTABLE code with
  | Ok digest =>
      (length code = 2%nat /\ length digest = 1%nat
       \/ length code = 11%nat /\ length digest = 8%nat
       \/ length code = 13%nat /\ length digest = 9%nat)
      /\ is_bytes digest
  | Raise e =>
      e = ValueError
      /\ length code <> 2%nat /\ length code <> 11%nat /\ length code <> 13%nat
  | OutOfFuel => False
  end.
Proof.
  unfold decode. destruct (decide (length code = 13%nat)) as [H13|H13].
  - rewrite bool_decide_eq_true_2 by auto.
    rewrite decode_part_2, decode_part_11 by (rewrite ?length_take, ?length_drop; lia).
    cbn [bind]. split.
    + right; right. split; [auto|].
      now rewrite length_app, !length_rev, !length_le_digits.
    + apply Forall_app; split; apply is_bytes_rev_le_digits.
  - rewrite bool_decide_eq_false_2 by auto.
    destruct (decide (length code = 2%nat)) as [H2|H2];
      [|destruct (decide (length code = 11%nat)) as [H11|H11]].
    + rewrite decode_part_2 by auto. split; [|apply is_bytes_rev_le_digits].
      left. split; [auto|]. now rewrite length_rev, length_le_digits.
    + rewrite decode_part_11 by auto. split; [|apply is_bytes_rev_le_digits].
      right; left. split; [auto|]. now rewrite length_rev, length_le_digits.
    + rewrite decode_part_other by auto. auto.
Qed.
End codec_total.

(** Claim C7, counterexample.  With the sample alphabet, which has no
    ['0'], the code ["00"] decodes to the byte [0x10]: it is not the case
    that [decode] fails on every code with a character outside the
    alphabet. *)
Lemma decode_accepts_illegal_character :
  ~ (forall code,
       Exists (fun c => sample_C2VTABLE !! c = None) code ->
       exists e, decode sample_C2VTABLE code = Raise e).
Proof.
  intros H. destruct (H [48; 48]) as [e He].
  - constructor. vm_compute. reflexivity.
  - vm_compute in He. discriminate.
Qed.

(** ** Hamming distance *)

Lemma count_ones_nonneg z : 0 <= count_ones z.
Proof.
  assert (forall p, 0 < ones p) by (induction p; cbn; lia).
  destruct z as [|p|p]; cbn; [lia|specialize (H p); lia..].
Qed.

Lemma count_ones_halve z :
  0 <= z -> count_ones z = z mod 2 + count_ones (z / 2).
Proof.
  intros Hz. destruct z as [|p|p]; [reflexivity| |lia].
  destruct p as [p|p|].
  - change (Z.pos p~1) with (2 * Z.pos p + 1).
    replace ((2 * Z.pos p + 1) mod 2) with 1 by (Z.div_mod_to_equations; lia).
    replace ((2 * Z.pos p + 1) / 2) with (Z.pos p) by (Z.div_mod_to_equations; lia).
    reflexivity.
  - change (Z.pos p~0) with (2 * Z.pos p).
    replace ((2 * Z.pos p) mod 2) with 0 by (Z.div_mod_to_equations; lia).
    replace ((2 * Z.pos p) / 2) with (Z.pos p) by (Z.div_mod_to_equations; lia).
    reflexivity.
  - reflexivity.
Qed.

Lemma count_ones_shift k : forall hi lo,
  0 <= hi -> 0 <= lo < 2 ^ Z.of_nat k ->
  count_ones (2 ^ Z.of_nat k * hi + lo) = count_ones hi + count_ones lo.
Proof.
  induction k as [|k IH]; intros hi lo Hhi Hlo.
  - change (Z.of_nat 0) with 0 in *. rewrite Z.pow_0_r in *.
    assert (lo = 0) as -> by lia. cbn [count_ones].
    rewrite Z.mul_1_l, !Z.add_0_r. reflexivity.
  - rewrite Nat2Z.inj_succ, Z.pow_succ_r in * by lia.
    assert (0 < 2 ^ Z.of_nat k) by (apply Z.pow_pos_nonneg; lia).
    rewrite (count_ones_halve (_ + _)) by nia.
    rewrite (count_ones_halve lo) by lia.
    replace ((2 * 2 ^ Z.of_nat k * hi + lo) mod 2) with (lo mod 2).
    2:{ replace (2 * 2 ^ Z.of_nat k * hi + lo) with (lo + (2 ^ Z.of_nat k * hi) * 2) by ring.
        now rewrite Z_mod_plus_full. }
    replace ((2 * 2 ^ Z.of_nat k * hi + lo) / 2) with (2 ^ Z.of_nat k * hi + lo / 2).
    2:{ replace (2 * 2 ^ Z.of_nat k * hi + lo) with (lo + (2 ^ Z.of_nat k * hi) * 2) by ring.
        rewrite Z.div_add by lia. ring. }
    rewrite IH; [ring|lia|].
    split; [apply Z.div_pos; lia|apply Z.div_lt_upper_bound; lia].
Qed.

Lemma byte_high_bits x j : is_byte x -> 8 <= j -> Z.testbit x j = false.
Proof.
  intros Hx Hj. unfold is_byte in Hx.
  rewrite <- (Z.mod_small x (2 ^ 8)) by lia.
  apply Z.mod_pow2_bits_high. lia.
Qed.

Lemma testbit_snoc hi lo k :
  is_byte lo -> 0 <= k ->
  Z.testbit (hi * 256 + lo) k = if k <? 8 then Z.testbit lo k else Z.testbit hi (k - 8).
Proof.
  intros Hlo Hk. unfold is_byte in Hlo. destruct (Z.ltb_spec k 8) as [Hlt|Hge].
  - rewrite <- (Z.mod_pow2_bits_low (hi * 256 + lo) 8 k) by lia.
    change (2 ^ 8) with 256. rewrite Z.add_comm, Z_mod_plus_full, Z.mod_small by lia.
    reflexivity.
  - replace k with ((k - 8) + 8) at 1 by lia.
    rewrite <- Z.div_pow2_bits by lia. change (2 ^ 8) with 256.
    rewrite Z.add_comm, Z.div_add, Z.div_small by lia. reflexivity.
Qed.

Lemma lxor_byte x y : is_byte x -> is_byte y -> is_byte (Z.lxor x y).
Proof.
  intros Hx Hy. unfold is_byte in *.
  assert (0 <= Z.lxor x y) by (apply Z.lxor_nonneg; lia).
  split; [assumption|]. change 256 with (2 ^ 8). apply bits_below; [lia|assumption|].
  intros j Hj. rewrite Z.lxor_spec, !byte_high_bits by (unfold is_byte; lia). reflexivity.
Qed.

Lemma lxor_snoc a x b y :
  is_byte x -> is_byte y ->
  Z.lxor (a * 256 + x) (b * 256 + y) = Z.lxor a b * 256 + Z.lxor x y.
Proof.
  intros Hx Hy. apply Z.bits_inj'. intros k Hk.
  rewrite Z.lxor_spec, !testbit_snoc by (auto using lxor_byte).
  destruct (k <? 8); now rewrite Z.lxor_spec.
Qed.

Lemma from_bytes_snoc a x : from_bytes (a ++ [x]) = from_bytes a * 256 + x.
Proof. unfold from_bytes. now rewrite fold_left_app. Qed.

Lemma from_bytes_nonneg a : is_bytes a -> 0 <= from_bytes a.
Proof.
  induction a as [|x a IH] using rev_ind; intros Ha; [cbn; lia|].
  apply Forall_app in Ha as [Ha Hx]. apply Forall_cons in Hx as [Hx _].
  rewrite from_bytes_snoc. unfold is_byte in Hx. specialize (IH Ha). lia.
Qed.

Lemma hamming_snoc a x b y :
  is_bytes a -> is_bytes b -> is_byte x -> is_byte y ->
  hamming (a ++ [x]) (b ++ [y]) = hamming a b + count_ones (Z.lxor x y).
Proof.
  intros Ha Hb Hx Hy. unfold hamming. rewrite !from_bytes_snoc, lxor_snoc by auto.
  rewrite Z.mul_comm. change 256 with (2 ^ Z.of_nat 8).
  apply count_ones_shift.
  - apply Z.lxor_nonneg. pose proof (from_bytes_nonneg a Ha).
    pose proof (from_bytes_nonneg b Hb). lia.
  - apply (lxor_byte x y Hx Hy).
Qed.

Lemma bits8_lxor x y : zip_with xorb (bits8 x) (bits8 y) = bits8 (Z.lxor x y).
Proof. unfold bits8. cbn [map zip_with]. now rewrite !Z.lxor_spec. Qed.

Lemma count_true_bits8 z : is_byte z -> count_true (bits8 z) = count_ones z.
Proof.
  intros Hz.
  assert (Hall : forallb (fun z => count_true (bits8 z) =? count_ones z)
                   (map Z.of_nat (seq 0 256)) = true) by (vm_compute; reflexivity).
  rewrite forallb_forall in Hall. apply Z.eqb_eq. apply Hall.
  unfold is_byte in Hz. apply in_map_iff. exists (Z.to_nat z). split; [lia|].
  apply in_seq. lia.
Qed.

Lemma bits_of_bytes_snoc a x :
  Metrics.bits_of_bytes (a ++ [x]) = Metrics.bits_of_bytes a ++ bits8 x.
Proof.
  unfold Metrics.bits_of_bytes. rewrite flat_map_app. cbn [flat_map].
  unfold bits8. now rewrite app_nil_r.
Qed.

Lemma length_bits_of_bytes a : length (Metrics.bits_of_bytes a) = (8 * length a)%nat.
Proof.
  induction a as [|x a IH]; [reflexivity|].
  unfold Metrics.bits_of_bytes in *. cbn [flat_map]. rewrite length_app, IH. cbn. lia.
Qed.

Lemma count_true_app u v : count_true (u ++ v) = count_true u + count_true v.
Proof. unfold count_true, len. rewrite filter_app, length_app. lia. Qed.

Lemma distance_bytes_hamming a : forall b,
  is_bytes a -> is_bytes b -> length a = length b ->
  Metrics.distance_bytes a b = Ok (hamming a b).
Proof.
  unfold Metrics.distance_bytes, Metrics.count_xor.
  induction a as [|x a IH] using rev_ind; intros b Ha Hb Hlen.
  - destruct b; [reflexivity|discriminate].
  - destruct b as [|y b _] using rev_ind; [rewrite length_app in Hlen; cbn in Hlen; lia|].
    rewrite !length_app in Hlen. cbn in Hlen.
    apply Forall_app in Ha as [Ha Hx]. apply Forall_cons in Hx as [Hx _].
    apply Forall_app in Hb as [Hb Hy]. apply Forall_cons in Hy as [Hy _].
    specialize (IH b Ha Hb ltac:(lia)).
    rewrite bool_decide_eq_true_2 in * by (rewrite !length_bits_of_bytes, ?length_app; cbn; lia).
    injection IH as IH. f_equal.
    rewrite !bits_of_bytes_snoc, zip_with_app by (rewrite !length_bits_of_bytes; lia).
    fold (count_true (zip_with xorb (Metrics.bits_of_bytes a) (Metrics.bits_of_bytes b))) in IH.
    fold (count_true (zip_with xorb (Metrics.bits_of_bytes a) (Metrics.bits_of_bytes b)
                      ++ zip_with xorb (bits8 x) (bits8 y))).
    rewrite count_true_app, IH, bits8_lxor, count_true_bits8 by (apply lxor_byte; auto).
    symmetry. apply hamming_snoc; auto.
Qed.

(** ** Hamming distance of codes *)

Section distance_facts.
Variable decode_base32 : list Z -> result (list Z).
Variable read_header : list Z -> result Metrics.header.
Variable C2VTABLE : gmap Z Z.

Lemma is_bytes_slice_to bs n : is_bytes bs -> is_bytes (slice_to bs n).
Proof. intros H. unfold slice_to. destruct (0 <=? n); apply Forall_take; exact H. Qed.

Lemma distance_str sa sb da db :
  decode C2VTABLE sa = Ok da -> decode C2VTABLE sb = Ok db ->
  distance C2VTABLE (StrValue sa) (StrValue sb) = Ok (hamming (drop 1 da) (drop 1 db)).
Proof. intros Ha Hb. unfold distance. rewrite Ha, Hb. reflexivity. Qed.

Lemma distance_code_strict a b ra rb mta sta vsa lna ta mtb stb vsb lnb tb :
  decode_base32 a = Ok ra -> decode_base32 b = Ok rb ->
  read_header ra = Ok (mta, sta, vsa, lna, ta) ->
  read_header rb = Ok (mtb, stb, vsb, lnb, tb) ->
  Metrics.distance_code decode_base32 read_header a b false
  = if bool_decide ((mta, sta, vsa, lna) = (mtb, stb, vsb, lnb))
    then Metrics.distance_bytes (slice_to ta (lna / 8)) (slice_to tb (lnb / 8))
    else Raise AssertionError.
Proof.
  intros Ha Hb Hra Hrb. unfold Metrics.distance_code.
  rewrite Ha, Hb. cbn [bind]. rewrite Hra, Hrb. cbn [bind].
  destruct (bool_decide _); reflexivity.
Qed.

(** Claim C6, as amended.  [metrics.distance_code] without the mixed
    flag raises [AssertionError] whenever the headers of the two codes
    differ in main type, sub type, version or length, and returns the
    Hamming distance of the two digests, cut to the declared length, when
    the headers agree and the two cut digests have one length.
    [iscc.distance] compares no header: for two codes that [decode]
    accepts it returns the Hamming distance of what follows the first
    decoded byte of each. *)
Theorem distance_header_check a b ra rb mta sta vsa lna ta mtb stb vsb lnb tb sa sb da db :
  decode_base32 a = Ok ra -> decode_base32 b = Ok rb ->
  read_header ra = Ok (mta, sta, vsa, lna, ta) ->
  read_header rb = Ok (mtb, stb, vsb, lnb, tb) ->
  decode C2VTABLE sa = Ok da -> decode C2VTABLE sb = Ok db ->
  ((mta, sta, vsa, lna) <> (mtb, stb, vsb, lnb) ->
     Metrics.distance_code decode_base32 read_header a b false = Raise AssertionError)
  /\ ((mta, sta, vsa, lna) = (mtb, stb, vsb, lnb) ->
      is_bytes ta -> is_bytes tb ->
      length (slice_to ta (lna / 8)) = length (slice_to tb (lnb / 8)) ->
      Metrics.distance_code decode_base32 read_header a b false
      = Ok (hamming (slice_to ta (lna / 8)) (slice_to tb (lnb / 8))))
  /\ distance C2VTABLE (StrValue sa) (StrValue sb) = Ok (hamming (drop 1 da) (drop 1 db)).
Proof.
  intros Ha Hb Hra Hrb Hda Hdb. split; [|split].
  - intros Hne. rewrite (distance_code_strict _ _ _ _ _ _ _ _ _ _ _ _ _ _ Ha Hb Hra Hrb).
    now rewrite bool_decide_eq_false_2.
  - intros Heq Hta Htb Hlen.
    rewrite (distance_code_strict _ _ _ _ _ _ _ _ _ _ _ _ _ _ Ha Hb Hra Hrb).
    rewrite bool_decide_eq_true_2 by exact Heq.
    apply distance_bytes_hamming; auto using is_bytes_slice_to.
  - apply distance_str; assumption.
Qed.
End distance_facts.

(** Claim C6, counterexample.  With the sample alphabet, two 13-character
    codes whose header bytes are 0 and 1 and whose bodies are equal have
    distance 0 under [iscc.distance]: it is not the case that the distance
    of two codes fails whenever their headers differ. *)
Lemma distance_ignores_header :
  ~ (forall a b da db,
       decode sample_C2VTABLE a = Ok da -> decode sample_C2VTABLE b = Ok db ->
       take 1 da <> take 1 db ->
       exists e, distance sample_C2VTABLE (StrValue a) (StrValue b) = Raise e).
Proof.
  intros H.
  destruct (H (code_points "CCCCCCCCCCCCC") (code_points "C2CCCCCCCCCCC")
              [0; 0; 0; 0; 0; 0; 0; 0; 0] [1; 0; 0; 0; 0; 0; 0; 0; 0]) as [e He].
  - vm_compute. reflexivity.
  - vm_compute. reflexivity.
  - discriminate.
  - vm_compute in He. discriminate.
Qed.

(** ** Merkle top hash *)

Lemma slice_to_nonneg {A} (xs : list A) n : 0 <= n -> slice_to xs n = take (Z.to_nat n) xs.
Proof.
  intros Hn. unfold slice_to.
  now replace (0 <=? n) with true by (symmetry; apply Z.leb_le; lia).
Qed.

Lemma slice_from_nonneg {A} (xs : list A) n : 0 <= n -> slice_from xs n = drop (Z.to_nat n) xs.
Proof.
  intros Hn. unfold slice_from.
  now replace (0 <=? n) with true by (symmetry; apply Z.leb_le; lia).
Qed.

Section instance_facts.
Variable sha256 : list Z -> list Z.
Variable V2CTABLE : gmap Z Z.
Variable HEAD_IID : list Z.
Hypothesis sha256_length : forall data, length (sha256 data) = 32%nat.
Hypothesis head_iid_length : length HEAD_IID = 1%nat.

Lemma instance_id_empty fuel : instance_id sha256 V2CTABLE HEAD_IID fuel [] = OutOfFuel.
Proof.
  unfold instance_id.
  change (leaf_nodes sha256 (S (length [])) [] []) with (@Ok (list (list Z)) []).
  cbn [bind]. now rewrite top_hash_empty.
Qed.

Lemma instance_id_ok fuel data :
  data <> [] -> (length data <= fuel)%nat ->
  exists code, instance_id sha256 V2CTABLE HEAD_IID fuel data = Ok code
    /\ length code = 13%nat.
Proof.
  intros Hne Hfuel. unfold instance_id.
  destruct (leaf_nodes_ok sha256 sha256_length (S (length data)) data [] ltac:(lia))
    as (leaves & Hrun & H32 & Hlen & Hleaves).
  rewrite Hrun. cbn [bind app].
  destruct (top_hash_ok sha256 sha256_length fuel leaves (Hleaves Hne) ltac:(lia) H32)
    as (root & Hroot & Hr32).
  rewrite Hroot. cbn [bind].
  destruct (encode_ok V2CTABLE (HEAD_IID ++ slice_to root 8)) as (code & Hcode & Hcl).
  { right; right. rewrite slice_to_nonneg, length_app, length_take by lia. lia. }
  exists code. split; [exact Hcode|].
  assert (length (HEAD_IID ++ slice_to root 8) = 9%nat)
    by (rewrite slice_to_nonneg, length_app, length_take by lia; lia).
  lia.
Qed.

Lemma stream_leaf_nodes_ok rounds : forall data leaf_node_digests,
  (length (Stream.unread data) < rounds)%nat ->
  exists leaves,
    Stream.leaf_nodes sha256 rounds data leaf_node_digests = Ok (leaf_node_digests ++ leaves)
    /\ Forall (fun h => length h = 32%nat) leaves
    /\ (length leaves <= length (Stream.unread data))%nat
    /\ (Stream.unread data <> [] -> leaves <> []).
Proof.
  induction rounds as [|rounds IH]; intros data acc Hr; [lia|].
  cbn [Stream.leaf_nodes].
  pose proof (stream_read_spec 64000 data ltac:(lia)) as Hread.
  destruct (Stream.read 64000 data) as [chunk data'].
  destruct Hread as (Hcat & _ & Hend).
  destruct chunk as [|b chunk].
  - exists []. rewrite app_nil_r. split; [reflexivity|]. split; [constructor|].
    split; [cbn; lia|]. intros Hne. exfalso. apply Hne, Hend. reflexivity.
  - destruct (IH data' (acc ++ [sha256d sha256 ([0] ++ b :: chunk)]))
      as (leaves & Hrun & H32 & Hlen & _).
    { rewrite <- Hcat in Hr. rewrite length_app in Hr. cbn [length] in Hr. lia. }
    exists (sha256d sha256 ([0] ++ b :: chunk) :: leaves).
    split; [rewrite Hrun, <- app_assoc; reflexivity|].
    split; [constructor; [apply sha256_length|exact H32]|].
    split; [|discriminate].
    rewrite <- Hcat, length_app. cbn [length]. lia.
Qed.

Lemma stream_instance_id_ok fuel data :
  Stream.unread data <> [] -> (length (Stream.unread data) <= fuel)%nat ->
  exists code, Stream.instance_id sha256 V2CTABLE HEAD_IID fuel data = Ok code
    /\ length code = 13%nat.
Proof.
  intros Hne Hfuel. unfold Stream.instance_id.
  destruct (stream_leaf_nodes_ok (S (length (Stream.unread data))) data [] ltac:(lia))
    as (leaves & Hrun & H32 & Hlen & Hleaves).
  rewrite Hrun. cbn [bind app].
  destruct (top_hash_ok sha256 sha256_length fuel leaves (Hleaves Hne) ltac:(lia) H32)
    as (root & Hroot & Hr32).
  rewrite Hroot. cbn [bind].
  destruct (encode_ok V2CTABLE (HEAD_IID ++ slice_to root 8)) as (code & Hcode & Hcl).
  { right; right. rewrite slice_to_nonneg, length_app, length_take by lia. lia. }
  exists code. split; [exact Hcode|].
  assert (length (HEAD_IID ++ slice_to root 8) = 9%nat)
    by (rewrite slice_to_nonneg, length_app, length_take by lia; lia).
  lia.
Qed.

Lemma stream_instance_id_empty fuel data :
  Stream.unread data = [] ->
  Stream.instance_id sha256 V2CTABLE HEAD_IID fuel data = OutOfFuel.
Proof.
  intros Hnil. unfold Stream.instance_id. rewrite Hnil. cbn [length Stream.leaf_nodes].
  unfold Stream.read. rewrite Hnil, take_nil. cbn [bind]. now rewrite top_hash_empty.
Qed.

Lemma stream_leaf_nodes_BytesIO rounds : forall data leaf_node_digests,
  Stream.leaf_nodes sha256 rounds (Stream.BytesIO data) leaf_node_digests
  = leaf_nodes sha256 rounds data leaf_node_digests.
Proof.
  induction rounds as [|rounds IH]; intros data acc; [reflexivity|].
  cbn [Stream.leaf_nodes leaf_nodes]. unfold read. rewrite stream_read_BytesIO.
  destruct (take (Z.to_nat 64000) data); [reflexivity|]. apply IH.
Qed.

Lemma stream_instance_id_BytesIO fuel data :
  Stream.instance_id sha256 V2CTABLE HEAD_IID fuel (Stream.BytesIO data)
  = instance_id sha256 V2CTABLE HEAD_IID fuel data.
Proof.
  unfold Stream.instance_id, instance_id. cbn [Stream.unread Stream.BytesIO].
  now rewrite stream_leaf_nodes_BytesIO.
Qed.

(** Claim C9.  For every non-empty list of 32-byte leaf digests,
    [top_hash] returns once the recursion may go as deep as the list is
    long, and what it returns is the single 32-byte node that the levels
    end in: the list is paired up, level after level, each level having
    two nodes or more, until one node is left.  A level of [n >= 2] nodes
    is reduced to [ceil(n / 2)] nodes, node [k] being the hash of the nodes
    [2k] and [2k + 1] and the last node of an odd level being paired with
    itself, and [top_hash] goes on with that level.  On the empty list the
    recursion does not end at any depth, so [instance_id] of an empty
    input, a bytes buffer or a stream, does not return either, while
    [instance_id] of a non-empty input returns a code. *)
Theorem top_hash_terminates :
  (forall hashes, hashes <> [] -> Forall (fun h => length h = 32%nat) hashes ->
     exists root depth,
       length root = 32%nat
       /\ Nat.iter depth (pair_up sha256) hashes = [root]
       /\ (forall d, (d < depth)%nat ->
             (2 <= length (Nat.iter d (pair_up sha256) hashes))%nat)
       /\ forall fuel, (length hashes <= fuel)%nat -> top_hash sha256 fuel hashes = Ok root)
  /\ (forall hashes, (2 <= length hashes)%nat ->
        exists level, pairwise sha256 hashes = Ok level
          /\ level = pair_up sha256 hashes
          /\ length level = ((length hashes + 1) / 2)%nat
          /\ (forall k, (2 * k + 1 < length hashes)%nat ->
                level !! k = Some (hash_inner_nodes sha256 (hashes !!! (2 * k)%nat)
                                                    (hashes !!! (2 * k + 1)%nat)))
          /\ (Nat.odd (length hashes) = true ->
                last level = Some (hash_inner_nodes sha256
                                     (hashes !!! (length hashes - 1)%nat)
                                     (hashes !!! (length hashes - 1)%nat)))
          /\ forall fuel, top_hash sha256 (S fuel) hashes = top_hash sha256 fuel level)
  /\ (forall fuel, top_hash sha256 fuel [] = OutOfFuel)
  /\ (forall fuel, instance_id sha256 V2CTABLE HEAD_IID fuel [] = OutOfFuel)
  /\ (forall data fuel, data <> [] -> (length data <= fuel)%nat ->
        exists code, instance_id sha256 V2CTABLE HEAD_IID fuel data = Ok code)
  /\ (forall data fuel, Stream.unread data = [] ->
        Stream.instance_id sha256 V2CTABLE HEAD_IID fuel data = OutOfFuel)
  /\ (forall data fuel,
        Stream.unread data <> [] -> (length (Stream.unread data) <= fuel)%nat ->
        exists code, Stream.instance_id sha256 V2CTABLE HEAD_IID fuel data = Ok code).
Proof.
  split; [|split; [|split; [|split; [|split; [|split]]]]].
  - intros hashes Hne H32.
    destruct (top_hash_root sha256 sha256_length (length hashes) hashes Hne ltac:(lia) H32)
      as (root & depth & Hlen & Hit & Hlev & Hroot).
    exists root, depth. split; [exact Hlen|]. split; [exact Hit|]. split; [exact Hlev|].
    intros fuel Hfuel. eapply top_hash_more_fuel; eauto.
  - intros hashes Hn. exists (pair_up sha256 hashes).
    split; [apply pairwise_pair_up|]. split; [reflexivity|].
    assert (Hlevel : pair_up sha256 hashes
              = map (paired sha256 hashes) (seq 0 (length hashes / 2))
                ++ (if Nat.odd (length hashes)
                    then [hash_inner_nodes sha256 (hashes !!! (length hashes - 1)%nat)
                                                  (hashes !!! (length hashes - 1)%nat)]
                    else [])).
    { pose proof (pairwise_pair_up sha256 hashes) as Hp. rewrite pairwise_ok in Hp.
      congruence. }
    split; [apply length_pair_up|]. split; [|split].
    + intros k Hk. rewrite Hlevel, lookup_app_l.
      2:{ rewrite length_map, length_seq.
          pose proof (Nat.div_mod_eq (length hashes) 2).
          pose proof (Nat.mod_upper_bound (length hashes) 2 ltac:(lia)). lia. }
      rewrite list_lookup_fmap.
      rewrite lookup_seq_lt.
      2:{ pose proof (Nat.div_mod_eq (length hashes) 2).
          pose proof (Nat.mod_upper_bound (length hashes) 2 ltac:(lia)). lia. }
      reflexivity.
    + intros Hodd. rewrite Hlevel, Hodd. apply last_snoc.
    + intros fuel. apply top_hash_step, Hn.
  - apply top_hash_empty.
  - apply instance_id_empty.
  - intros data fuel Hne Hfuel.
    destruct (instance_id_ok fuel data Hne Hfuel) as (code & Hcode & _). eauto.
  - intros data fuel Hnil. apply stream_instance_id_empty, Hnil.
  - intros data fuel Hne Hfuel.
    destruct (stream_instance_id_ok fuel data Hne Hfuel) as (code & Hcode & _). eauto.
Qed.
End instance_facts.

(** ** Component builders on empty input *)

Lemma join_singletons {A} (f : A -> Z) xs :
  join [] (map (fun x => [f x]) xs) = map f xs.
Proof.
  induction xs as [|x xs IH]; [reflexivity|].
  cbn [map join]. cbn [map] in IH. rewrite IH.
  destruct xs; reflexivity.
Qed.

Lemma binary_loop s : forall acc,
  Forall binary_digit s ->
  exists v,
    for_each (fun acc c =>
      if c =? 0x30 then Ok (2 * acc)
      else if c =? 0x31 then Ok (2 * acc + 1)
      else Raise ValueError) s acc = Ok v
    /\ acc * 2 ^ len s <= v < (acc + 1) * 2 ^ len s.
Proof.
  induction s as [|c s IH]; intros acc Hs.
  - exists acc. split; [reflexivity|]. unfold len. cbn. lia.
  - apply Forall_cons in Hs as [Hc Hs]. cbn [for_each].
    assert (Hpow : 2 ^ len (c :: s) = 2 * 2 ^ len s).
    { unfold len. cbn [length]. rewrite Nat2Z.inj_succ, Z.pow_succ_r by lia. reflexivity. }
    assert (0 < 2 ^ len s) by (apply Z.pow_pos_nonneg; unfold len; lia).
    destruct Hc as [-> | ->]; cbn [Z.eqb Pos.eqb bind].
    + destruct (IH (2 * acc) Hs) as (v & Hv & Hr). exists v. split; [exact Hv|]. nia.
    + destruct (IH (2 * acc + 1) Hs) as (v & Hv & Hr). exists v. split; [exact Hv|]. nia.
Qed.

Lemma int_base_2_ok s :
  s <> [] -> Forall binary_digit s ->
  exists v, int_base_2 s = Ok v /\ 0 <= v < 2 ^ len s.
Proof.
  intros Hne Hs. destruct (binary_loop s 0 Hs) as (v & Hv & Hr).
  exists v. split; [|lia]. destruct s; [congruence|exact Hv].
Qed.

Lemma lsb_digest_ok minhash :
  length minhash = 128%nat ->
  exists digest, lsb_digest minhash = Ok digest /\ length digest = 8%nat.
Proof.
  intros Hlen. unfold lsb_digest, str_of_digit.
  rewrite join_singletons.
  set (lsb := map (fun x => 48 + Z.land x 1) minhash).
  assert (Hl : length lsb = 128%nat) by (unfold lsb; now rewrite length_map).
  assert (Hbin : Forall binary_digit lsb).
  { unfold lsb. apply Forall_map. apply Forall_forall. intros x _. unfold binary_digit.
    rewrite land_1_bit. destruct (Z.testbit x 0); cbn; auto. }
  rewrite slice_to_nonneg, slice_from_nonneg by lia.
  destruct (int_base_2_ok (take (Z.to_nat 64) lsb)) as (va & Hva & Hra).
  { intros Hnil. apply (f_equal length) in Hnil. rewrite length_take in Hnil. cbn in Hnil. lia. }
  { apply Forall_take. exact Hbin. }
  destruct (int_base_2_ok (drop (Z.to_nat 64) lsb)) as (vb & Hvb & Hrb).
  { intros Hnil. apply (f_equal length) in Hnil. rewrite length_drop in Hnil. cbn in Hnil. lia. }
  { apply Forall_drop. exact Hbin. }
  rewrite Hva, Hvb. cbn [bind].
  assert (Hla : len (take (Z.to_nat 64) lsb) = 64) by (unfold len; rewrite length_take; lia).
  assert (Hlb : len (drop (Z.to_nat 64) lsb) = 64) by (unfold len; rewrite length_drop; lia).
  rewrite Hla in Hra. rewrite Hlb in Hrb.
  destruct (to_bytes_ok va 8 Hra) as [Ha _]. destruct (to_bytes_ok vb 8 Hrb) as [Hb _].
  rewrite Ha, Hb. cbn [bind].
  destruct (similarity_hash_length [be_bytes 8 va; be_bytes 8 vb] 8) as (out & Hout & Hol).
  - discriminate.
  - repeat constructor; apply length_be_bytes.
  - exists out. auto.
Qed.

Section empty_input.
Variable normalize : normal_form -> list Z -> list Z.
Variable category : Z -> general_category.
Variable lower : Z -> list Z.
Variable xxh32 : list Z -> Z.
Variables a b : list Z.
Variable CHUNKING_GEAR : list Z.
Variable V2CTABLE : gmap Z Z.
Variables HEAD_CID_T HEAD_CID_T_PCF HEAD_DID : list Z.

Hypothesis normalize_empty : forall form, normalize form [] = [].
Hypothesis length_a : length a = 128%nat.
Hypothesis length_b : length b = 128%nat.
Hypothesis head_cid_t_length : length HEAD_CID_T = 1%nat.
Hypothesis head_cid_t_pcf_length : length HEAD_CID_T_PCF = 1%nat.
Hypothesis head_did_length : length HEAD_DID = 1%nat.

Lemma minimum_hash_empty perms :
  minimum_hash perms [] = Ok (replicate 128 (2 ^ 32 - 1)).
Proof. unfold minimum_hash. destruct perms. reflexivity. Qed.

Lemma data_chunks_empty : data_chunks CHUNKING_GEAR [] = Ok [].
Proof. reflexivity. Qed.

Lemma lsb_digest_full : lsb_digest (replicate 128 (2 ^ 32 - 1)) = Ok (replicate 8 255).
Proof. vm_compute. reflexivity. Qed.

Lemma data_id_empty :
  data_id xxh32 (a, b) CHUNKING_GEAR V2CTABLE HEAD_DID []
  = encode V2CTABLE (HEAD_DID ++ replicate 8 255).
Proof.
  unfold data_id. rewrite data_chunks_empty. cbn [bind map].
  rewrite minimum_hash_empty. cbn [bind]. rewrite lsb_digest_full. reflexivity.
Qed.

Lemma content_id_text_empty partial :
  content_id_text normalize category lower xxh32 (a, b) V2CTABLE
    HEAD_CID_T HEAD_CID_T_PCF [] partial
  = let* minhash := minimum_hash (a, b) [xxh32 []] in
    let* simhash_digest := lsb_digest minhash in
    encode V2CTABLE
      ((if partial then HEAD_CID_T_PCF else HEAD_CID_T) ++ simhash_digest).
Proof.
  unfold content_id_text. rewrite normalize_empty.
  unfold normalize_text. rewrite normalize_empty. cbn [fold_left join split split_from].
  rewrite normalize_empty. cbn [split split_from].
  change (sliding_window (@nil (list Z)) WINDOW_SIZE_CID_T) with (@Ok (list (list (list Z))) [[]]).
  cbn [bind map join for_each utf8_encode app].
  destruct (minimum_hash (a, b) [xxh32 []]); [|reflexivity..].
  cbn [bind]. destruct (lsb_digest _); [|reflexivity..]. cbn [bind].
  destruct partial; reflexivity.
Qed.

(** Claim C10.  [minimum_hash] of no feature returns 128 entries, all
    [2^32 - 1]; [content_id_text] of the empty string and [data_id] of the
    empty input return a code of 13 characters instead of failing, and the
    code of [data_id] is the encoding of the header followed by eight
    bytes [0xFF].  ([content_id_text_empty] gives the code of the empty
    string: its one shingle is empty, and that shingle's hash is the one
    feature.) *)
Theorem empty_input_codes partial :
  minimum_hash (a, b) [] = Ok (replicate 128 (2 ^ 32 - 1))
  /\ (exists code,
        content_id_text normalize category lower xxh32 (a, b) V2CTABLE
          HEAD_CID_T HEAD_CID_T_PCF [] partial = Ok code
        /\ length code = 13%nat)
  /\ (exists code,
        data_id xxh32 (a, b) CHUNKING_GEAR V2CTABLE HEAD_DID [] = Ok code
        /\ length code = 13%nat
        /\ encode V2CTABLE (HEAD_DID ++ replicate 8 255) = Ok code).
Proof.
  split; [apply minimum_hash_empty|]. split.
  - rewrite content_id_text_empty.
    destruct (minimum_hash_length a b length_a length_b [xxh32 []])
      as (minhash & Hmin & Hlen).
    rewrite Hmin. cbn [bind].
    destruct (lsb_digest_ok minhash Hlen) as (digest & Hd & Hdl).
    rewrite Hd. cbn [bind].
    destruct (encode_ok V2CTABLE ((if partial then HEAD_CID_T_PCF else HEAD_CID_T) ++ digest))
      as (code & Hcode & Hcl).
    { right; right. rewrite length_app, Hdl. destruct partial; lia. }
    exists code. split; [exact Hcode|].
    assert (length ((if partial then HEAD_CID_T_PCF else HEAD_CID_T) ++ digest) = 9%nat)
      by (rewrite length_app, Hdl; destruct partial; lia).
    lia.
  - rewrite data_id_empty.
    destruct (encode_ok V2CTABLE (HEAD_DID ++ replicate 8 255)) as (code & Hcode & Hcl).
    { right; right. rewrite length_app, length_replicate. lia. }
    exists code. split; [exact Hcode|]. split; [|exact Hcode].
    assert (length (HEAD_DID ++ replicate 8 255) = 9%nat)
      by (rewrite length_app, length_replicate; lia).
    lia.
Qed.
End empty_input.

(** ** Text normalisation *)

Lemma join_nil_concat parts : join [] parts = concat parts.
Proof.
  induction parts as [|p parts IH]; [reflexivity|].
  cbn [join concat]. rewrite <- IH. destruct parts; [now rewrite app_nil_r|reflexivity].
Qed.

Lemma split_from_word word w : forall s,
  Forall nonspace w -> split_from word (w ++ s) = split_from (word ++ w) s.
Proof.
  revert word. induction w as [|c w IH]; intros word s Hw.
  - now rewrite app_nil_r.
  - apply Forall_cons in Hw as [Hc Hw]. cbn [app split_from]. rewrite Hc.
    rewrite IH by exact Hw. now rewrite <- app_assoc.
Qed.

Lemma split_join words :
  Forall (fun w => w <> [] /\ Forall nonspace w) words ->
  split (join [0x20] words) = words.
Proof.
  unfold split. induction words as [|w words IH]; intros Hws; [reflexivity|].
  apply Forall_cons in Hws as [[Hne Hw] Hws]. cbn [join].
  destruct words as [|w' words].
  - pose proof (split_from_word [] w [] Hw) as Hend. rewrite app_nil_r in Hend.
    rewrite Hend. cbn [app split_from]. destruct w; [congruence|reflexivity].
  - rewrite split_from_word by exact Hw. cbn [app split_from].
    change (isspace 32) with true. cbn match.
    destruct w; [congruence|]. f_equal. apply IH. exact Hws.
Qed.

Lemma split_from_words (P : Z -> Prop) s : forall word,
  Forall P word -> Forall nonspace word -> Forall P s ->
  Forall (fun w => (w <> [] /\ Forall nonspace w) /\ Forall P w) (split_from word s).
Proof.
  induction s as [|c s IH]; intros word Hword Hns Hs.
  - cbn [split_from]. destruct word; [constructor|].
    constructor; [|constructor]. repeat split; auto; discriminate.
  - apply Forall_cons in Hs as [Hc Hs]. cbn [split_from].
    destruct (isspace c) eqn:Hsp.
    + destruct word as [|x word].
      * apply IH; auto.
      * constructor; [|apply IH; auto]. repeat split; auto; discriminate.
    + apply IH; auto.
      * apply Forall_app. split; [exact Hword|]. repeat constructor. exact Hc.
      * apply Forall_app. split; [exact Hns|]. repeat constructor. exact Hsp.
Qed.

Lemma join_Forall (P : Z -> Prop) sep words :
  Forall P sep -> Forall (Forall P) words -> Forall P (join sep words).
Proof.
  intros Hsep. induction 1 as [|w words Hw Hws IH]; [constructor|].
  cbn [join]. destruct words; [exact Hw|].
  apply Forall_app. split; [exact Hw|]. apply Forall_app. split; [exact Hsep|exact IH].
Qed.

Section text_facts.
Variable normalize : normal_form -> list Z -> list Z.
Variable category : Z -> general_category.
Variable lower : Z -> list Z.

Lemma filtered_flat_map decomposed : forall chars,
  join []
    (fold_left (fun chars c =>
       let cat := category c in
       if bool_decide (major cat = ClassZ) then chars ++ [[0x20]]
       else if bool_decide (major cat ∈ whitelist) then chars ++ [lower c]
       else chars) decomposed chars)
  = join [] chars ++ flat_map (char_map category lower) decomposed.
Proof.
  induction decomposed as [|c s IH]; intros chars.
  - cbn. now rewrite app_nil_r.
  - cbn [fold_left flat_map]. rewrite IH. unfold char_map at 2.
    destruct (bool_decide (major (category c) = ClassZ)).
    + rewrite !join_nil_concat, concat_app. cbn. now rewrite <- app_assoc.
    + destruct (bool_decide (major (category c) ∈ whitelist)).
      * rewrite !join_nil_concat, concat_app. cbn. now rewrite app_nil_r, <- app_assoc.
      * reflexivity.
Qed.

Lemma normalize_text_eq text :
  normalize_text normalize category lower text
  = normalize NFC (join [0x20] (split (flat_map (char_map category lower) (normalize NFD text)))).
Proof. unfold normalize_text. now rewrite filtered_flat_map. Qed.

(** What the proof uses of the Unicode database:
    - canonically equivalent strings have one decomposition, and a string
      and its composition are equivalent;
    - a string of characters that have no decomposition and are not marks
      is its own decomposition (nothing is replaced and nothing reordered,
      since only marks have a non-zero combining class);
    - the characters of a decomposition have no decomposition;
    - lower-casing an undecomposable letter, number or symbol gives letters,
      numbers or symbols that have no decomposition, are in lower case and
      are not blank;
    - U+0020 is a separator and has no decomposition. *)
Hypothesis nfd_nfc : forall s, normalize NFD (normalize NFC s) = normalize NFD s.
Hypothesis nfd_starters : forall s,
  Forall (fun c => normalize NFD [c] = [c] /\ major (category c) <> ClassM) s ->
  normalize NFD s = s.
Hypothesis nfd_chars : forall s c, In c (normalize NFD s) -> normalize NFD [c] = [c].
Hypothesis lower_kept : forall c,
  normalize NFD [c] = [c] -> major (category c) ∈ whitelist ->
  Forall (kept normalize category lower) (lower c).
Hypothesis space_category : major (category 0x20) = ClassZ.
Hypothesis space_nfd : normalize NFD [0x20] = [0x20].

Lemma whitelist_not_Z cls : cls ∈ whitelist -> cls <> ClassZ /\ cls <> ClassM.
Proof.
  unfold whitelist. intros H. split; intros ->;
    repeat (apply elem_of_cons in H as [H|H]; [discriminate|]);
    now apply elem_of_nil in H.
Qed.

Lemma char_map_tidy text :
  Forall (tidy normalize category lower)
    (flat_map (char_map category lower) (normalize NFD text)).
Proof.
  apply List.Forall_forall. intros x Hx. apply in_flat_map in Hx as (c & Hc & Hx).
  unfold char_map in Hx.
  destruct (bool_decide (major (category c) = ClassZ)).
  - left. destruct Hx as [<-|[]]. reflexivity.
  - destruct (bool_decide (major (category c) ∈ whitelist)) eqn:Hw; [|destruct Hx].
    apply bool_decide_eq_true_1 in Hw. right.
    pose proof (lower_kept c (nfd_chars _ _ Hc) Hw) as Hk.
    rewrite List.Forall_forall in Hk. apply Hk. exact Hx.
Qed.

Lemma collapse_tidy v :
  Forall (tidy normalize category lower) v ->
  Forall (fun w => (w <> [] /\ Forall nonspace w) /\ Forall (tidy normalize category lower) w)
    (split v).
Proof. intros Hv. apply split_from_words; auto. Qed.

Lemma char_map_fixed u :
  Forall (tidy normalize category lower) u -> flat_map (char_map category lower) u = u.
Proof.
  induction 1 as [|x u Hx _ IH]; [reflexivity|].
  cbn [flat_map]. rewrite IH. unfold char_map.
  destruct Hx as [->|(_ & Hw & Hl & _)].
  - rewrite bool_decide_eq_true_2 by exact space_category. reflexivity.
  - destruct (whitelist_not_Z _ Hw) as [HZ _].
    rewrite bool_decide_eq_false_2 by exact HZ.
    rewrite bool_decide_eq_true_2 by exact Hw. rewrite Hl. reflexivity.
Qed.

Lemma nfd_fixed u : Forall (tidy normalize category lower) u -> normalize NFD u = u.
Proof.
  intros Hu. apply nfd_starters. eapply Forall_impl; [exact Hu|].
  intros x [->|(Hn & Hw & _)].
  - split; [exact space_nfd|]. rewrite space_category. discriminate.
  - split; [exact Hn|]. apply (whitelist_not_Z _ Hw).
Qed.

(** Claim C8.  [normalize_text] is idempotent: normalising the result of
    [normalize_text] again returns it unchanged.  The Unicode database is
    a parameter, of which the facts listed above are assumed. *)
Theorem normalize_text_idempotent text :
  normalize_text normalize category lower (normalize_text normalize category lower text)
  = normalize_text normalize category lower text.
Proof.
  rewrite !normalize_text_eq.
  set (v := flat_map (char_map category lower) (normalize NFD text)).
  pose proof (collapse_tidy v (char_map_tidy text)) as Hwords.
  set (words := split v) in *.
  assert (Hu : Forall (tidy normalize category lower) (join [0x20] words)).
  { apply join_Forall; [repeat constructor; now left|].
    eapply Forall_impl; [exact Hwords|]. intros w [_ Hw]. exact Hw. }
  rewrite nfd_nfc, (nfd_fixed _ Hu), (char_map_fixed _ Hu).
  rewrite split_join; [reflexivity|].
  eapply Forall_impl; [exact Hwords|]. intros w [Hw _]. exact Hw.
Qed.
End text_facts.

(** * Further properties *)

(** ** The codec: lengths, alphabet and wrap-around *)

Lemma be_value_le_value base ds : be_value base ds = le_value base (rev ds).
Proof.
  unfold be_value, le_value. rewrite <- fold_left_rev_right.
  induction (rev ds) as [|d l IH]; cbn [fold_right]; [reflexivity|]. rewrite IH. ring.
Qed.

Lemma from_bytes_be_value bs : from_bytes bs = be_value 256 bs.
Proof. reflexivity. Qed.

Lemma be_bytes_snoc n x : be_bytes (S n) x = be_bytes n (x / 256) ++ [x mod 256].
Proof.
  unfold be_bytes. rewrite seq_S, map_app. cbn [map Nat.add]. f_equal.
  - apply map_ext_in. intros k Hk. apply in_seq in Hk.
    replace (S n - 1 - k)%nat with (S (n - 1 - k)) by lia.
    rewrite Nat2Z.inj_succ, Z.pow_succ_r, Z.div_div by (try apply Z.pow_pos_nonneg; lia).
    reflexivity.
  - replace (S n - 1 - n)%nat with 0%nat by lia. now rewrite Z.pow_0_r, Z.div_1_r.
Qed.

Lemma be_bytes_le_digits n : forall x, be_bytes n x = rev (le_digits 256 n x).
Proof.
  induction n as [|n IH]; intros x; [reflexivity|].
  rewrite be_bytes_snoc, IH. reflexivity.
Qed.

Lemma be_bytes_from_bytes bs : is_bytes bs -> be_bytes (length bs) (from_bytes bs) = bs.
Proof.
  intros Hb. rewrite be_bytes_le_digits, from_bytes_be_value, be_value_le_value.
  rewrite <- (length_rev bs), le_digits_le_value by (try apply Forall_rev; auto; lia).
  apply rev_involutive.
Qed.

Section codec_more.
Variables V2CTABLE C2VTABLE : gmap Z Z.

Lemma encode_part_other digest :
  length digest <> 1%nat -> length digest <> 8%nat ->
  encode_part V2CTABLE digest = Raise AssertionError.
Proof.
  intros H1 H8. unfold encode_part.
  rewrite bool_decide_eq_false_2 by tauto. reflexivity.
Qed.

(** Property X1.  [encode] returns a code of 2, 11 or 13 characters for a digest of 1, 8
    or 9 bytes, whatever the bytes are, and fails its assertion for every
    other length. *)
Theorem encode_lengths digest :
  match encode V2CTABLE digest with
  | Ok code =>
      length digest = 1%nat /\ length code = 2%nat
      \/ length digest = 8%nat /\ length code = 11%nat
      \/ length digest = 9%nat /\ length code = 13%nat
  | Raise e =>
      e = AssertionError
      /\ length digest <> 1%nat /\ length digest <> 8%nat /\ length digest <> 9%nat
  | OutOfFuel => False
  end.
Proof.
  destruct (decide (length digest = 1%nat \/ length digest = 8%nat \/ length digest = 9%nat))
    as [Hlegal|Hother].
  - destruct (encode_ok V2CTABLE digest Hlegal) as (code & -> & Hlen). exact Hlen.
  - unfold encode. rewrite bool_decide_eq_false_2 by tauto.
    rewrite encode_part_other by tauto. repeat split; tauto.
Qed.

(** Property X2.  Every code that [encode] returns is the translation of base-58 digits
    through [V2CTABLE]: no other character is emitted. *)
Theorem encode_digits digest code :
  encode V2CTABLE digest = Ok code ->
  exists digits, Forall (is_digit 58) digits /\ code = translate digits V2CTABLE.
Proof.
  intros Hrun. pose proof (encode_lengths digest) as Hl. rewrite Hrun in Hl.
  unfold encode in Hrun. destruct Hl as [[HL _]|[[HL _]|[HL _]]].
  - rewrite bool_decide_eq_false_2, encode_part_1 in Hrun by lia.
    exists (rev (le_digits 58 2 (le_value 256 (rev digest)))).
    split; [apply Forall_rev, le_digits_range; lia | congruence].
  - rewrite bool_decide_eq_false_2, encode_part_8 in Hrun by lia.
    exists (rev (le_digits 58 11 (le_value 256 (rev digest)))).
    split; [apply Forall_rev, le_digits_range; lia | congruence].
  - rewrite bool_decide_eq_true_2 in Hrun by lia.
    rewrite encode_part_1, encode_part_8 in Hrun
      by (rewrite ?length_take, ?length_drop; lia).
    cbn [bind] in Hrun.
    exists (rev (le_digits 58 2 (le_value 256 (rev (take 1 digest))))
            ++ rev (le_digits 58 11 (le_value 256 (rev (drop 1 digest))))).
    split; [apply Forall_app; split; apply Forall_rev, le_digits_range; lia|].
    unfold translate in *. rewrite map_app. congruence.
Qed.

(** Property X3.  [decode] checks no range: the digits of a code of 2 or 11 characters
    are read as a base-58 number and the low 1 or 8 bytes of that number
    are returned, so a number beyond the bytes wraps around. *)
Theorem decode_wraps code (n_bytes : nat) :
  length code = 2%nat /\ n_bytes = 1%nat \/ length code = 11%nat /\ n_bytes = 8%nat ->
  exists digest,
    decode C2VTABLE code = Ok digest
    /\ length digest = n_bytes
    /\ from_bytes digest = be_value 58 (translate code C2VTABLE) mod 256 ^ Z.of_nat n_bytes.
Proof.
  intros Hlen. unfold decode. rewrite bool_decide_eq_false_2 by lia.
  destruct Hlen as [[HL ->]|[HL ->]].
  - rewrite decode_part_2 by auto. eexists; split; [reflexivity|].
    rewrite <- be_bytes_le_digits, length_be_bytes, from_bytes_be_bytes, be_value_le_value.
    auto.
  - rewrite decode_part_11 by auto. eexists; split; [reflexivity|].
    rewrite <- be_bytes_le_digits, length_be_bytes, from_bytes_be_bytes, be_value_le_value.
    auto.
Qed.
Hypothesis tables_inverse : forall v, 0 <= v < 58 ->
  exists c, V2CTABLE !! v = Some c /\ C2VTABLE !! c = Some v.

Lemma decode_of_encode digest code :
  is_bytes digest -> encode V2CTABLE digest = Ok code -> decode C2VTABLE code = Ok digest.
Proof.
  intros Hb Hrun. pose proof (encode_ok V2CTABLE digest) as Hok.
  assert (Hlegal : length digest = 1%nat \/ length digest = 8%nat \/ length digest = 9%nat).
  { destruct (decide (length digest = 1%nat \/ length digest = 8%nat \/ length digest = 9%nat))
      as [H|H]; [exact H|].
    unfold encode in Hrun. rewrite bool_decide_eq_false_2 in Hrun by tauto.
    rewrite encode_part_other in Hrun by tauto. discriminate. }
  unfold encode in Hrun. unfold decode. destruct Hlegal as [HL|[HL|HL]].
  - rewrite bool_decide_eq_false_2, encode_part_1 in Hrun by lia.
    assert (Hc : code = translate (rev (le_digits 58 2 (le_value 256 (rev digest)))) V2CTABLE)
      by congruence.
    assert (Hlen : length code = 2%nat)
      by (rewrite Hc, length_translate, length_rev, length_le_digits; reflexivity).
    rewrite bool_decide_eq_false_2, decode_part_2 by lia. f_equal. rewrite Hc.
    apply (decode_encode_part V2CTABLE C2VTABLE tables_inverse digest 2 1); auto.
    simpl; lia.
  - rewrite bool_decide_eq_false_2, encode_part_8 in Hrun by lia.
    assert (Hc : code = translate (rev (le_digits 58 11 (le_value 256 (rev digest)))) V2CTABLE)
      by congruence.
    assert (Hlen : length code = 11%nat)
      by (rewrite Hc, length_translate, length_rev, length_le_digits; reflexivity).
    rewrite bool_decide_eq_false_2, decode_part_11 by lia. f_equal. rewrite Hc.
    apply (decode_encode_part V2CTABLE C2VTABLE tables_inverse digest 11 8); auto.
    simpl; lia.
  - rewrite bool_decide_eq_true_2 in Hrun by lia.
    rewrite encode_part_1, encode_part_8 in Hrun
      by (rewrite ?length_take, ?length_drop; lia).
    cbn [bind] in Hrun.
    set (a := translate (rev (le_digits 58 2 (le_value 256 (rev (take 1 digest))))) V2CTABLE) in *.
    set (b := translate (rev (le_digits 58 11 (le_value 256 (rev (drop 1 digest))))) V2CTABLE) in *.
    assert (Hc : code = a ++ b) by congruence.
    assert (Ha : length a = 2%nat)
      by (unfold a; rewrite length_translate, length_rev, length_le_digits; reflexivity).
    assert (Hlb : length b = 11%nat)
      by (unfold b; rewrite length_translate, length_rev, length_le_digits; reflexivity).
    rewrite Hc. rewrite bool_decide_eq_true_2 by (rewrite length_app; lia).
    rewrite take_app_length' , drop_app_length' by auto.
    rewrite decode_part_2, decode_part_11 by auto. cbn [bind]. f_equal.
    unfold a, b.
    rewrite (decode_encode_part V2CTABLE C2VTABLE tables_inverse (take 1 digest) 2 1),
            (decode_encode_part V2CTABLE C2VTABLE tables_inverse (drop 1 digest) 11 8).
    + apply take_drop.
    + apply Forall_drop, Hb.
    + rewrite length_drop; lia.
    + simpl; lia.
    + apply Forall_take, Hb.
    + rewrite length_take; lia.
    + simpl; lia.
Qed.

(** Property X4.  [encode] is injective on byte strings: two digests with the same code
    are the same digest, so a code identifies its digest. *)
Theorem encode_injective digest_1 digest_2 code :
  is_bytes digest_1 -> is_bytes digest_2 ->
  encode V2CTABLE digest_1 = Ok code -> encode V2CTABLE digest_2 = Ok code ->
  digest_1 = digest_2.
Proof.
  intros H1 H2 E1 E2.
  apply (decode_of_encode _ _ H1) in E1. apply (decode_of_encode _ _ H2) in E2.
  congruence.
Qed.

End codec_more.

(** ** The similarity hash: small inputs, order and failure *)

Lemma from_bytes_range bs : is_bytes bs -> 0 <= from_bytes bs < 256 ^ Z.of_nat (length bs).
Proof.
  intros Hb. rewrite from_bytes_be_value, be_value_le_value, <- (length_rev bs).
  apply le_value_range; [lia|]. apply Forall_rev, Hb.
Qed.

Lemma bits_above n a : 0 <= a < 2 ^ n -> forall j, n <= j -> Z.testbit a j = false.
Proof.
  intros Ha j Hj. destruct (decide (a = 0)) as [->|Hnz]; [apply Z.testbit_0_l|].
  apply Z.bits_above_log2; [lia|].
  assert (Z.log2 a < n) by (apply Z.log2_lt_pow2; lia). lia.
Qed.

(** The digest that [similarity_hash] returns, given its bits. *)
Lemma similarity_hash_value (hash_digests : list (list Z)) (L : nat) (target : Z) :
  hash_digests <> [] ->
  Forall (fun d => length d = L) hash_digests ->
  0 <= target < 256 ^ Z.of_nat L ->
  (forall i, (i < L * 8)%nat ->
     Z.testbit target (Z.of_nat i) = (len hash_digests <=? 2 * count_bit hash_digests i)) ->
  similarity_hash hash_digests = Ok (be_bytes L target).
Proof.
  intros Hne Hall Hrange Hbits.
  destruct (similarity_hash_votes hash_digests L Hne Hall)
    as (vector & shash & Hrun & Hsrange & Hcount & Hbit).
  assert (shash = target) as ->.
  { apply Z.bits_inj'. intros j Hj. rewrite Hbit by assumption.
    destruct (decide (j < Z.of_nat (L * 8))) as [Hlt|Hge].
    - rewrite bool_decide_eq_true_2 by lia. unfold vote.
      rewrite Hcount by lia. rewrite <- (Z2Nat.id j) at 2 by lia.
      rewrite Hbits by lia. reflexivity.
    - rewrite bool_decide_eq_false_2 by lia. symmetry.
      apply (bits_above (Z.of_nat (L * 8))); [|lia].
      replace (2 ^ Z.of_nat (L * 8)) with (256 ^ Z.of_nat L); [assumption|].
      change 256 with (2 ^ 8). rewrite <- Z.pow_mul_r by lia. f_equal. lia. }
  rewrite Hrun. apply to_bytes_ok, Hrange.
Qed.

Lemma count_bit_nil i : count_bit [] i = 0.
Proof. reflexivity. Qed.

Lemma count_bit_Permutation ds ds' i : Permutation ds ds' -> count_bit ds i = count_bit ds' i.
Proof.
  intros Hp. induction Hp as [|d ds ds' _ IH|d e ds|ds1 ds2 ds3 _ IH1 _ IH2].
  - reflexivity.
  - rewrite !count_bit_cons, IH. reflexivity.
  - rewrite !count_bit_cons. lia.
  - congruence.
Qed.

Lemma lor_byte x y : is_byte x -> is_byte y -> is_byte (Z.lor x y).
Proof.
  unfold is_byte. intros Hx Hy. split; [apply Z.lor_nonneg; lia|].
  change 256 with (2 ^ 8). apply bits_below; [lia|apply Z.lor_nonneg; lia|].
  intros j Hj. rewrite Z.lor_spec, !byte_high_bits by (auto; lia). reflexivity.
Qed.

Lemma lor_snoc a x b y :
  is_byte x -> is_byte y ->
  Z.lor (a * 256 + x) (b * 256 + y) = Z.lor a b * 256 + Z.lor x y.
Proof.
  intros Hx Hy. apply Z.bits_inj'. intros k Hk.
  rewrite Z.lor_spec, !testbit_snoc by (auto using lor_byte).
  destruct (k <? 8); now rewrite Z.lor_spec.
Qed.

Lemma from_bytes_lor a : forall b,
  is_bytes a -> is_bytes b -> length a = length b ->
  from_bytes (zip_with Z.lor a b) = Z.lor (from_bytes a) (from_bytes b)
  /\ is_bytes (zip_with Z.lor a b).
Proof.
  induction a as [|x a IH] using rev_ind; intros b Ha Hb Hlen.
  - destruct b; [|discriminate]. split; [reflexivity|constructor].
  - destruct b as [|y b _] using rev_ind; [rewrite length_app in Hlen; simpl in Hlen; lia|].
    rewrite !length_app in Hlen. simpl in Hlen.
    apply Forall_app in Ha as [Ha Hx]. apply Forall_app in Hb as [Hb Hy].
    apply Forall_inv in Hx. apply Forall_inv in Hy.
    destruct (IH b Ha Hb ltac:(lia)) as [IHv IHb].
    rewrite zip_with_app by lia. cbn [zip_with].
    split.
    + rewrite !from_bytes_snoc, IHv, lor_snoc by assumption. reflexivity.
    + apply Forall_app. split; [assumption|]. constructor; [|constructor].
      apply lor_byte; assumption.
Qed.

(** The digest loop of [similarity_hash] stops at the first digest of
    another length. *)
Lemma digests_loop_mismatch n_bytes ds : forall (vector : list Z),
  Exists (fun d => length d <> n_bytes) ds ->
  length vector = (n_bytes * 8)%nat ->
  for_each (fun vector digest =>
    let* _ := assert (bool_decide (length digest = n_bytes)) in
    let h := from_bytes digest in
    let* (vector, _) := for_each count_step (seq 0 (n_bytes * 8)) (vector, h) in
    Ok vector) ds vector = Raise AssertionError.
Proof.
  induction ds as [|d ds IH]; intros vector Hex Hlen.
  - inversion Hex.
  - cbn [for_each]. destruct (decide (length d = n_bytes)) as [Hd|Hd].
    + rewrite bool_decide_eq_true_2 by exact Hd. cbn [assert bind].
      assert (Hk : (0 + n_bytes * 8 <= length vector)%nat) by lia.
      destruct (count_loop (n_bytes * 8) 0 vector (from_bytes d) Hk)
        as (vector1 & Hrun & Hl1 & _).
      rewrite Hrun. cbn [bind]. apply IH; [|lia].
      apply Exists_cons in Hex as [Hex|Hex]; [contradiction|exact Hex].
    + rewrite bool_decide_eq_false_2 by exact Hd. reflexivity.
Qed.

Lemma similarity_hash_mismatch first rest :
  Exists (fun d => length d <> length first) rest ->
  similarity_hash (first :: rest) = Raise AssertionError.
Proof.
  intros Hex. unfold similarity_hash. cbn [getitem lookup list_lookup bind].
  pose proof (digests_loop_mismatch (length first) (first :: rest)
                (replicate (length first * 8) 0)
                ltac:(apply Exists_cons; right; exact Hex)
                ltac:(apply length_replicate)) as Hrun.
  match goal with
  | |- context [for_each ?f (first :: rest) ?v] =>
      replace (for_each f (first :: rest) v) with (@Raise (list Z) AssertionError)
        by (symmetry; exact Hrun)
  end.
  reflexivity.
Qed.

(** Property X5.  [similarity_hash] fails its assertion as soon as one digest has another
    length than the first one, wherever it stands, and raises [IndexError]
    on no digest at all. *)
Theorem similarity_hash_unequal first rest :
  Exists (fun d => length d <> length first) rest ->
  similarity_hash (first :: rest) = Raise AssertionError
  /\ similarity_hash [] = Raise IndexError.
Proof.
  intros Hex. split; [apply similarity_hash_mismatch, Hex|reflexivity].
Qed.

(** Property X6.  The similarity hash of one digest is that digest. *)
Theorem similarity_hash_single digest :
  is_bytes digest -> similarity_hash [digest] = Ok digest.
Proof.
  intros Hb.
  rewrite (similarity_hash_value [digest] (length digest) (from_bytes digest)).
  - f_equal. apply be_bytes_from_bytes, Hb.
  - discriminate.
  - constructor; [reflexivity|constructor].
  - apply from_bytes_range, Hb.
  - intros i _. rewrite count_bit_cons, count_bit_nil.
    change (len [digest]) with 1.
    destruct (Z.testbit (from_bytes digest) (Z.of_nat i)); reflexivity.
Qed.

(** Property X7.  The similarity hash of two digests is their bytewise OR: with two
    voters a single vote is already half of them.  This is how the two
    64-bit halves of a minimum hash are folded into one digest. *)
Theorem similarity_hash_pair a b :
  is_bytes a -> is_bytes b -> length a = length b ->
  similarity_hash [a; b] = Ok (zip_with Z.lor a b).
Proof.
  intros Ha Hb Hlen. destruct (from_bytes_lor a b Ha Hb Hlen) as [Hval Hbytes].
  pose proof (from_bytes_range _ Hbytes) as Hrange.
  assert (Hl : length (zip_with Z.lor a b) = length a)
    by (rewrite length_zip_with; lia).
  rewrite (similarity_hash_value [a; b] (length a) (from_bytes (zip_with Z.lor a b))).
  - f_equal. rewrite <- Hl at 1. apply be_bytes_from_bytes, Hbytes.
  - discriminate.
  - repeat constructor. auto.
  - rewrite <- Hl. exact Hrange.
  - intros i _. rewrite Hval, Z.lor_spec, !count_bit_cons, count_bit_nil.
    change (len [a; b]) with 2.
    destruct (Z.testbit (from_bytes a) (Z.of_nat i)),
             (Z.testbit (from_bytes b) (Z.of_nat i)); reflexivity.
Qed.

(** Property X8.  [similarity_hash] does not depend on the order of the digests: a
    reordered sequence gives the same digest, or fails in the same way. *)
Theorem similarity_hash_permutation ds ds' :
  Permutation ds ds' -> similarity_hash ds = similarity_hash ds'.
Proof.
  intros Hp.
  destruct ds as [|first rest].
  { apply Permutation_nil in Hp. now subst. }
  destruct ds' as [|first' rest'].
  { symmetry in Hp. apply Permutation_nil in Hp. discriminate. }
  destruct (decide (Forall (fun d => length d = length first) (first :: rest)))
    as [Hall|Hnot].
  - assert (Hall' : Forall (fun d => length d = length first) (first' :: rest'))
      by (rewrite <- Hp; exact Hall).
    destruct (similarity_hash_votes (first :: rest) (length first) ltac:(discriminate) Hall)
      as (vector & shash & Hrun & Hrange & Hcount & Hbit).
    rewrite Hrun. destruct (to_bytes_ok shash (length first) Hrange) as [-> _].
    symmetry. apply similarity_hash_value; try assumption; [discriminate|].
    intros i Hi. rewrite Hbit by lia.
    rewrite bool_decide_eq_true_2 by lia. unfold vote.
    rewrite Nat2Z.id, Hcount by lia.
    rewrite (count_bit_Permutation _ _ i Hp). unfold len. now rewrite Hp.
  - apply not_Forall_Exists in Hnot; [|intros d; apply _].
    assert (Hex : Exists (fun d => length d <> length first) rest).
    { apply Exists_cons in Hnot as [Hbad|Hex]; [congruence|exact Hex]. }
    rewrite (similarity_hash_mismatch first rest Hex).
    symmetry. apply similarity_hash_mismatch.
    destruct (decide (Forall (fun d => length d = length first') rest')) as [Hall'|Hnot'].
    + exfalso.
      assert (Hall : Forall (fun d => length d = length first') (first :: rest)).
      { rewrite Hp. constructor; [reflexivity|exact Hall']. }
      apply Forall_cons in Hall as [Hf Hr].
      apply Exists_exists in Hex as (d & Hin & Hd).
      rewrite Forall_forall in Hr. specialize (Hr d Hin). congruence.
    + apply not_Forall_Exists in Hnot'; [exact Hnot'|intros d; apply _].
Qed.

(** ** The minimum hash: merging and order *)

Lemma slot_min_min ax bx features : forall r s,
  slot_min ax bx features (Z.min r s) = Z.min r (slot_min ax bx features s).
Proof.
  unfold slot_min. induction features as [|h hs IH]; intros r s; [reflexivity|].
  cbn [fold_left]. rewrite <- IH. f_equal. lia.
Qed.

Lemma slot_min_app ax bx fs gs reg :
  slot_min ax bx (fs ++ gs) reg
  = Z.min (slot_min ax bx fs reg) (slot_min ax bx gs reg).
Proof.
  rewrite <- slot_min_min. unfold slot_min at 1. rewrite fold_left_app.
  fold (slot_min ax bx fs reg). fold (slot_min ax bx gs (slot_min ax bx fs reg)).
  f_equal. rewrite <- (Z.min_id reg) at 1. rewrite slot_min_min. lia.
Qed.

Lemma slot_min_Permutation ax bx fs gs :
  Permutation fs gs -> forall reg, slot_min ax bx fs reg = slot_min ax bx gs reg.
Proof.
  unfold slot_min.
  induction 1 as [|h fs gs _ IH|h k fs|fs gs hs _ IH1 _ IH2]; intros reg.
  - reflexivity.
  - cbn [fold_left]. apply IH.
  - cbn [fold_left]. f_equal. lia.
  - now rewrite IH1.
Qed.

Section minhash_more.
Variables a b : list Z.
Hypothesis length_a : length a = 128%nat.
Hypothesis length_b : length b = 128%nat.

(** The registers of [minimum_hash], slot by slot. *)
Lemma minimum_hash_registers (features : list Z) :
  exists out,
    minimum_hash (a, b) features = Ok out
    /\ length out = 128%nat
    /\ forall x ax bx, a !! x = Some ax -> b !! x = Some bx ->
         out !! x = Some (slot_min ax bx features max_hash).
Proof.
  destruct (features_loop a b length_a length_b features (replicate 128 max_hash))
    as (out & Hrun & Hl & Hout); [apply length_replicate|].
  exists out. split; [exact Hrun|]. split; [exact Hl|].
  intros x ax bx Ha Hb. apply (Hout x ax bx); [assumption..|].
  apply lookup_replicate_2. apply lookup_lt_Some in Ha. lia.
Qed.

(** Property X9.  The minimum hash of two feature lists put together is the slotwise
    minimum of their minimum hashes: sketches of parts can be merged
    without the features. *)
Theorem minimum_hash_app (fs gs : list Z) :
  exists u v,
    minimum_hash (a, b) fs = Ok u
    /\ minimum_hash (a, b) gs = Ok v
    /\ minimum_hash (a, b) (fs ++ gs) = Ok (zip_with Z.min u v).
Proof.
  destruct (minimum_hash_registers fs) as (u & Hu & Hlu & Hsu).
  destruct (minimum_hash_registers gs) as (v & Hv & Hlv & Hsv).
  destruct (minimum_hash_registers (fs ++ gs)) as (w & Hw & Hlw & Hsw).
  exists u, v. split; [exact Hu|]. split; [exact Hv|]. rewrite Hw. f_equal.
  apply list_eq. intros x. rewrite lookup_zip_with.
  destruct (decide (x < 128)%nat) as [Hx|Hx].
  - destruct (lookup_lt_is_Some_2 a x ltac:(lia)) as [ax Hax].
    destruct (lookup_lt_is_Some_2 b x ltac:(lia)) as [bx Hbx].
    rewrite (Hsw x ax bx Hax Hbx), (Hsu x ax bx Hax Hbx), (Hsv x ax bx Hax Hbx).
    cbn. f_equal. apply slot_min_app.
  - rewrite !lookup_ge_None_2 by lia. reflexivity.
Qed.

(** Property X10.  [minimum_hash] does not depend on the order of the features. *)
Theorem minimum_hash_permutation (fs gs : list Z) :
  Permutation fs gs -> minimum_hash (a, b) fs = minimum_hash (a, b) gs.
Proof.
  intros Hp.
  destruct (minimum_hash_registers fs) as (u & Hu & Hlu & Hsu).
  destruct (minimum_hash_registers gs) as (v & Hv & Hlv & Hsv).
  rewrite Hu, Hv. f_equal. apply list_eq. intros x.
  destruct (decide (x < 128)%nat) as [Hx|Hx].
  - destruct (lookup_lt_is_Some_2 a x ltac:(lia)) as [ax Hax].
    destruct (lookup_lt_is_Some_2 b x ltac:(lia)) as [bx Hbx].
    rewrite (Hsu x ax bx Hax Hbx), (Hsv x ax bx Hax Hbx).
    f_equal. apply slot_min_Permutation, Hp.
  - rewrite !lookup_ge_None_2 by lia. reflexivity.
Qed.
End minhash_more.

(** ** The gear chunker: shape of the cut *)

Lemma concat_nonempty (chunks : list (list Z)) :
  chunks <> [] -> Forall (fun c => c <> []) chunks -> (0 < length (concat chunks))%nat.
Proof.
  intros Hne Hall. destruct chunks as [|c cs]; [congruence|].
  apply Forall_cons in Hall as [Hc _]. cbn [concat]. rewrite length_app.
  destruct c; [congruence|]. cbn. lia.
Qed.

Lemma length_concat_nonempty (chunks : list (list Z)) :
  Forall (fun c => c <> []) chunks -> (length chunks <= length (concat chunks))%nat.
Proof.
  induction 1 as [|c cs Hc _ IH]; [reflexivity|].
  cbn [concat length]. rewrite length_app. destruct c; [congruence|]. cbn. lia.
Qed.

(** Only the last chunk of a bounded, gapless cut can be short. *)
Lemma chunks_bounded_full chunks : forall counter remaining k chunk,
  chunks_bounded counter remaining chunks ->
  concat chunks = remaining ->
  Forall (fun c => c <> []) chunks ->
  chunks !! k = Some chunk ->
  (S k < length chunks)%nat ->
  stage_min (counter + Z.of_nat k) <= len chunk.
Proof.
  induction chunks as [|c cs IH]; intros counter remaining k chunk Hbd Hcat Hne Hk Hlast;
    [discriminate|].
  destruct Hbd as [Hc Hcs]. apply Forall_cons in Hne as [_ Hne].
  cbn [concat] in Hcat. destruct k as [|k].
  - injection Hk as <-. rewrite Z.add_0_r.
    assert (0 < length (concat cs))%nat.
    { apply concat_nonempty; [|exact Hne]. intros ->. cbn in Hlast. lia. }
    rewrite <- Hcat in Hc. unfold len in *. rewrite length_app in Hc. lia.
  - cbn [lookup list_lookup] in Hk.
    replace (counter + Z.of_nat (S k)) with (counter + 1 + Z.of_nat k) by lia.
    apply (IH (counter + 1) (drop (length c) remaining)); auto.
    + rewrite <- Hcat, drop_app_length. reflexivity.
    + cbn [length] in Hlast. lia.
Qed.

Lemma getitem_int_app {A} (data more : list A) i :
  0 <= i < len data -> getitem_int (data ++ more) i = getitem_int data i.
Proof.
  intros Hi. unfold getitem_int, getitem.
  replace (0 <=? i) with true by (symmetry; apply Z.leb_le; lia).
  rewrite lookup_app_l by (unfold len in Hi; lia). reflexivity.
Qed.

Section chunker_more.
Variable CHUNKING_GEAR : list Z.

Lemma gear_scan_app data more mask steps : forall i pattern,
  0 <= i -> i + Z.of_nat steps <= len data ->
  gear_scan CHUNKING_GEAR steps (data ++ more) mask i pattern
  = gear_scan CHUNKING_GEAR steps data mask i pattern.
Proof.
  induction steps as [|steps IH]; intros i pattern Hi Hlen; [reflexivity|].
  cbn [gear_scan]. rewrite getitem_int_app by lia.
  destruct (getitem_int data i) as [octet| |]; cbn [bind]; try reflexivity.
  destruct (getitem_int CHUNKING_GEAR octet) as [gear| |]; cbn [bind]; try reflexivity.
  destruct (Z.land (Z.shiftl pattern 1 + gear) mask =? 0); [reflexivity|].
  apply IH; lia.
Qed.

Lemma gear_scan_split data mask s1 s2 : forall i pattern,
  gear_scan CHUNKING_GEAR (s1 + s2) data mask i pattern
  = match gear_scan CHUNKING_GEAR s1 data mask i pattern with
    | Ok (Continue (i', pattern')) => gear_scan CHUNKING_GEAR s2 data mask i' pattern'
    | r => r
    end.
Proof.
  induction s1 as [|s1 IH]; intros i pattern; [reflexivity|].
  cbn [gear_scan Nat.add].
  destruct (getitem_int data i) as [octet| |]; cbn [bind]; try reflexivity.
  destruct (getitem_int CHUNKING_GEAR octet) as [gear| |]; cbn [bind]; try reflexivity.
  destruct (Z.land (Z.shiftl pattern 1 + gear) mask =? 0); [reflexivity|].
  apply IH.
Qed.

Lemma gear_scan_index data mask steps : forall i pattern r,
  gear_scan CHUNKING_GEAR steps data mask i pattern = Ok r ->
  match r with
  | Return j => i <= j < i + Z.of_nat steps
  | Continue (j, _) => j = i + Z.of_nat steps
  end.
Proof.
  induction steps as [|steps IH]; intros i pattern r Hrun.
  - injection Hrun as <-. lia.
  - cbn [gear_scan] in Hrun.
    destruct (getitem_int data i) as [octet| |]; cbn [bind] in Hrun; try discriminate.
    destruct (getitem_int CHUNKING_GEAR octet) as [gear| |]; cbn [bind] in Hrun;
      try discriminate.
    destruct (Z.land (Z.shiftl pattern 1 + gear) mask =? 0).
    + injection Hrun as <-. lia.
    + apply IH in Hrun. destruct r as [j|[j q]]; lia.
Qed.

(** A cut found by a scan is found by every longer scan. *)
Lemma gear_scan_return data more mask s s' i pattern j :
  0 <= i -> i + Z.of_nat s <= len data -> (s <= s')%nat ->
  gear_scan CHUNKING_GEAR s data mask i pattern = Ok (Return j) ->
  gear_scan CHUNKING_GEAR s' (data ++ more) mask i pattern = Ok (Return j).
Proof.
  intros Hi Hlen Hs Hrun. replace s' with (s + (s' - s))%nat by lia.
  rewrite gear_scan_split, gear_scan_app, Hrun by assumption. reflexivity.
Qed.

(** Property X11.  A boundary that [chunk_length] finds before the end of its buffer
    depends only on the bytes up to that end: it is found again when more
    bytes follow the buffer. *)
Theorem chunk_length_prefix data more norm_size min_size max_size mask_1 mask_2 boundary :
  0 <= min_size -> norm_size <= max_size ->
  chunk_length CHUNKING_GEAR data norm_size min_size max_size mask_1 mask_2 = Ok boundary ->
  boundary < len data ->
  chunk_length CHUNKING_GEAR (data ++ more) norm_size min_size max_size mask_1 mask_2
  = Ok boundary.
Proof.
  intros Hmin Hmax Hrun Hb. unfold chunk_length in *.
  assert (HL : len (data ++ more) = len data + len more)
    by (unfold len; rewrite length_app; lia).
  assert (Hmore : 0 <= len more) by (unfold len; lia).
  destruct (Z.leb_spec (len data) min_size) as [Hle|Hgt].
  { injection Hrun as <-. lia. }
  replace (len (data ++ more) <=? min_size) with false
    by (symmetry; apply Z.leb_gt; lia).
  set (s1 := Z.to_nat (Z.min norm_size (len data) - min_size)) in *.
  set (s1' := Z.to_nat (Z.min norm_size (len (data ++ more)) - min_size)).
  assert (Hs1 : (s1 <= s1')%nat) by (unfold s1, s1'; lia).
  assert (Hs1len : min_size + Z.of_nat s1 <= len data) by (unfold s1; lia).
  destruct (gear_scan CHUNKING_GEAR s1 data mask_1 min_size 0) as [[j|[i1 p1]]| |] eqn:Hscan1;
    cbn [bind] in Hrun; try discriminate.
  - rewrite (gear_scan_return data more mask_1 s1 s1' min_size 0 j) by assumption.
    exact Hrun.
  - pose proof (gear_scan_index _ _ _ _ _ _ Hscan1) as Hi1. cbn in Hi1.
    set (s2 := Z.to_nat (Z.min max_size (len data) - i1)) in *.
    pose (s2' := Z.to_nat (Z.min max_size (len (data ++ more)) - i1)).
    assert (Hs2 : (s2 <= s2')%nat) by (unfold s2, s2'; lia).
    assert (Hs2len : i1 + Z.of_nat s2 <= len data) by (unfold s2; lia).
    destruct (gear_scan CHUNKING_GEAR s2 data mask_2 i1 p1) as [r2| |] eqn:Hscan2;
      cbn [bind] in Hrun; try discriminate.
    pose proof (gear_scan_index _ _ _ _ _ _ Hscan2) as Hi2.
    assert (Hnorm : norm_size <= len data).
    { destruct (Z.le_gt_cases norm_size (len data)) as [H|H]; [exact H|exfalso].
      destruct r2 as [j|[i2 p2]]; injection Hrun as <-; unfold s1, s2 in *; lia. }
    assert (s1' = s1) as -> by (unfold s1, s1'; lia).
    rewrite gear_scan_app, Hscan1 by lia. cbn [bind].
    change (Z.to_nat (Z.min max_size (len (data ++ more)) - i1)) with s2'.
    destruct r2 as [j|[i2 p2]].
    + rewrite (gear_scan_return data more mask_2 s2 s2' i1 p1 j) by (assumption || lia).
      exact Hrun.
    + injection Hrun as <-.
      assert (s2' = s2) as -> by (unfold s2, s2' in *; lia).
      rewrite gear_scan_app, Hscan2 by lia. reflexivity.
Qed.

Hypothesis gear_entries : length CHUNKING_GEAR = 256%nat.

(** No round of [data_chunks] yields an empty chunk. *)
Lemma data_chunks_loop_nonempty fuel : forall data section counter chunks,
  is_bytes (section ++ data) ->
  data_chunks_loop CHUNKING_GEAR fuel data section counter = Ok chunks ->
  Forall (fun c => c <> []) chunks.
Proof.
  induction fuel as [|fuel IH]; intros data section counter chunks Hb Hrun; [discriminate|].
  rewrite data_chunks_loop_unfold in Hrun.
  pose proof (refill_spec CHUNKING_GEAR gear_entries (stage_max counter) section data) as Hrefill.
  destruct (refill (stage_max counter) section data) as [section' data'].
  destruct Hrefill as [Hsame _]; [unfold stage_max; destruct (counter <? 100); lia|].
  rewrite <- Hsame in Hb.
  destruct (Z.eqb_spec (len section') 0) as [Hz|Hnz].
  { injection Hrun as <-. constructor. }
  assert (Hbs : is_bytes section') by (apply Forall_app in Hb; tauto).
  assert (exists boundary,
    (if counter <? 100
     then chunk_length CHUNKING_GEAR section' 40 20 640 0x016118 0x00a0b1
     else chunk_length CHUNKING_GEAR section' 4096 2048 65536
            0x0003590703530000 0x0000d90003530000) = Ok boundary
    /\ Z.min (len section') (stage_min counter) <= boundary
       <= Z.min (len section') (stage_max counter)) as (boundary & Hcl & Hbound).
  { unfold stage_min, stage_max. destruct (counter <? 100);
      apply chunk_length_ok; auto; lia. }
  rewrite Hcl in Hrun. cbn [bind] in Hrun.
  assert (Hpos : 0 < boundary <= len section').
  { unfold stage_min, len in *. destruct (counter <? 100); lia. }
  destruct (data_chunks_loop CHUNKING_GEAR fuel data' (slice_from section' boundary)
              (counter + 1)) as [rest| |] eqn:Hrest; cbn [bind] in Hrun; try discriminate.
  assert (chunks = slice_to section' boundary :: rest) as -> by congruence.
  constructor.
  - unfold slice_to. replace (0 <=? boundary) with true by (symmetry; apply Z.leb_le; lia).
    intros Hnil. apply (f_equal length) in Hnil. rewrite length_take in Hnil.
    unfold len in Hpos. cbn in Hnil. lia.
  - refine (IH _ _ _ _ _ Hrest).
    unfold slice_from. replace (0 <=? boundary) with true by (symmetry; apply Z.leb_le; lia).
    rewrite <- (take_drop (Z.to_nat boundary) section'), <- app_assoc in Hb.
    apply Forall_app in Hb. tauto.
Qed.

Lemma data_chunks_shape data :
  is_bytes data ->
  exists chunks,
    data_chunks CHUNKING_GEAR data = Ok chunks
    /\ concat chunks = data
    /\ chunks_bounded 0 data chunks
    /\ Forall (fun c => c <> []) chunks.
Proof.
  intros Hb. destruct (data_chunks_ok CHUNKING_GEAR gear_entries data Hb)
    as (chunks & Hrun & Hcat & Hbd).
  exists chunks. repeat split; try assumption.
  unfold data_chunks, read in Hrun.
  refine (data_chunks_loop_nonempty _ _ _ _ _ _ Hrun).
  rewrite take_drop. exact Hb.
Qed.

(** Property X12.  [data_chunks] yields no empty chunk, on a stream whose
    [read] may deliver fewer bytes than it is asked for as on a bytes
    buffer, so an input of [n] bytes gives at most [n] chunks (and at most
    [n] features for the Data-ID). *)
Theorem data_chunks_nonempty :
  (forall data, is_bytes (Stream.unread data) ->
     exists chunks,
       Stream.data_chunks CHUNKING_GEAR data = Ok chunks
       /\ Forall (fun c => c <> []) chunks
       /\ (length chunks <= length (Stream.unread data))%nat)
  /\ (forall data, is_bytes data ->
        exists chunks,
          data_chunks CHUNKING_GEAR data = Ok chunks
          /\ Forall (fun c => c <> []) chunks
          /\ (length chunks <= length data)%nat).
Proof.
  assert (Hstream : forall data, is_bytes (Stream.unread data) ->
     exists chunks,
       Stream.data_chunks CHUNKING_GEAR data = Ok chunks
       /\ Forall (fun c => c <> []) chunks
       /\ (length chunks <= length (Stream.unread data))%nat).
  { intros data Hb.
    destruct (stream_chunks_ok CHUNKING_GEAR gear_entries data Hb)
      as (chunks & Hrun & Hcat & Hsized).
    pose proof (chunks_sized_nonempty chunks 0 Hsized) as Hne.
    exists chunks. split; [exact Hrun|]. split; [exact Hne|].
    pose proof (length_concat_nonempty chunks Hne) as Hlen.
    rewrite Hcat in Hlen. exact Hlen. }
  split; [exact Hstream|].
  intros data Hb. destruct (Hstream (Stream.BytesIO data) Hb) as (chunks & Hrun & Hne & Hlen).
  exists chunks. rewrite stream_chunks_BytesIO in Hrun. auto.
Qed.

(** Property X13.  On an input whose [read] is exact (a bytes buffer, which
    [data_chunks] wraps in a [BytesIO]), every chunk but the last has at
    least the minimal size of its stage: 20 bytes for the chunks 0 to 99,
    then 2048. *)
Theorem data_chunks_only_last_short data :
  is_bytes data ->
  exists chunks,
    Stream.data_chunks CHUNKING_GEAR (Stream.BytesIO data) = Ok chunks
    /\ data_chunks CHUNKING_GEAR data = Ok chunks
    /\ forall k chunk, chunks !! k = Some chunk -> (S k < length chunks)%nat ->
         stage_min (Z.of_nat k) <= len chunk.
Proof.
  intros Hb. destruct (data_chunks_shape data Hb) as (chunks & Hrun & Hcat & Hbd & Hne).
  exists chunks. split; [rewrite stream_chunks_BytesIO; exact Hrun|].
  split; [exact Hrun|]. intros k chunk Hk Hlast.
  apply (chunks_bounded_full chunks 0 data k chunk); assumption.
Qed.

(** Property X14.  A bytes buffer of 1 to 20 bytes (or an input of that
    size whose [read] is exact) is one chunk, the input itself. *)
Theorem data_chunks_small data :
  is_bytes data -> 0 < len data <= 20 ->
  data_chunks CHUNKING_GEAR data = Ok [data]
  /\ Stream.data_chunks CHUNKING_GEAR (Stream.BytesIO data) = Ok [data].
Proof.
  intros Hb Hlen. rewrite stream_chunks_BytesIO.
  destruct (data_chunks_shape data Hb) as (chunks & Hrun & Hcat & Hbd & Hne).
  rewrite Hrun. assert (chunks = [data]) as ->; [|split; reflexivity].
  destruct chunks as [|c cs].
  { cbn in Hcat. subst data. change (len (@nil Z)) with 0 in Hlen. lia. }
  destruct Hbd as [Hc _]. apply Forall_cons in Hne as [_ Hne].
  cbn [concat] in Hcat.
  assert (Hcs : cs = []).
  { destruct cs as [|c' cs']; [reflexivity|exfalso].
    pose proof (concat_nonempty (c' :: cs') ltac:(discriminate) Hne).
    change (stage_min 0) with 20 in Hc.
    rewrite <- Hcat in Hc, Hlen. unfold len in *. rewrite length_app in *. lia. }
  subst cs. cbn in Hcat. rewrite app_nil_r in Hcat. now subst c.
Qed.
End chunker_more.

(** ** The Merkle tree *)

Section tophash_more.
Variable sha256 : list Z -> list Z.

Lemma pairwise_level_length hashes level :
  pairwise sha256 hashes = Ok level -> length level = ((length hashes + 1) / 2)%nat.
Proof.
  rewrite pairwise_ok. intros Heq.
  match type of Heq with Ok ?l = _ => assert (level = l) as -> by congruence end.
  rewrite length_app, length_map, length_seq.
  pose proof (Nat.div_mod_eq (length hashes) 2) as Hd.
  pose proof (Nat.mod_upper_bound (length hashes) 2 ltac:(lia)) as Hm.
  pose proof (Nat.div_mod_eq (length hashes + 1) 2) as Hd'.
  pose proof (Nat.mod_upper_bound (length hashes + 1) 2 ltac:(lia)) as Hm'.
  destruct (Nat.odd (length hashes)) eqn:Ho.
  - apply Nat.odd_spec in Ho as [q Hq]. cbn [length]. lia.
  - assert (He : Nat.even (length hashes) = true)
      by (rewrite <- Nat.negb_odd, Ho; reflexivity).
    apply Nat.even_spec in He as [q Hq]. cbn [length]. lia.
Qed.

(** Property X15.  [top_hash] on a non-empty list of [n] hashes recurses no deeper than
    the height of the tree: [k + 1] nested calls are enough for
    [n <= 2^k]. *)
Theorem top_hash_depth (k : nat) : forall hashes,
  hashes <> [] -> (length hashes <= 2 ^ k)%nat ->
  exists root, top_hash sha256 (S k) hashes = Ok root.
Proof.
  induction k as [|k IH]; intros hashes Hne Hlen.
  - assert (H1 : length hashes = 1%nat).
    { destruct hashes; [congruence|]. cbn [length Nat.pow] in *. lia. }
    cbn [top_hash]. unfold len. rewrite H1. cbn [Z.of_nat Z.eqb Pos.of_succ_nat Pos.eqb].
    destruct (getitem_int_ok hashes 0) as (root & Hroot & _); [unfold len; lia|].
    exists root. exact Hroot.
  - remember (S k) as fuel. cbn [top_hash].
    destruct (Z.eqb_spec (len hashes) 1) as [H1|Hn1].
    + destruct (getitem_int_ok hashes 0) as (root & Hroot & _); [lia|].
      exists root. exact Hroot.
    + destruct (pairwise sha256 hashes) as [level| |] eqn:Hp;
        try (rewrite pairwise_ok in Hp; discriminate).
      cbn [bind]. subst fuel. pose proof (pairwise_level_length _ _ Hp) as Hl.
      assert (0 < length hashes)%nat by (destruct hashes; [congruence|cbn; lia]).
      pose proof (Nat.div_mod_eq (length hashes + 1) 2).
      pose proof (Nat.mod_upper_bound (length hashes + 1) 2 ltac:(lia)).
      rewrite Nat.pow_succ_r' in Hlen.
      apply IH; [|lia].
      intros ->. change (length (@nil (list Z))) with 0%nat in Hl. lia.
Qed.

(** An odd level and the level with its last hash doubled are paired into
    the same next level. *)
Lemma pairwise_duplicate_last hs x :
  Nat.even (length hs) = true ->
  pairwise sha256 (hs ++ [x]) = pairwise sha256 (hs ++ [x; x]).
Proof.
  intros He. apply Nat.even_spec in He as [m Hm].
  rewrite !pairwise_ok, !length_app. cbn [length].
  replace (length hs + 1)%nat with (1 + m * 2)%nat by lia.
  replace (length hs + 2)%nat with ((m + 1) * 2)%nat by lia.
  rewrite Nat.div_add, Nat.div_mul by lia. cbn [Nat.div Nat.divmod fst Nat.add].
  replace (Nat.odd (S (m * 2))) with true
    by (symmetry; apply Nat.odd_spec; exists m; lia).
  replace (Nat.odd ((m + 1) * 2)) with false.
  2:{ symmetry. rewrite <- Nat.negb_even. apply negb_false_iff, Nat.even_spec.
      exists (m + 1)%nat. lia. }
  rewrite app_nil_r, seq_app, map_app. cbn [seq map Nat.add].
  assert (Hfront : map (paired sha256 (hs ++ [x])) (seq 0 m)
                   = map (paired sha256 (hs ++ [x; x])) (seq 0 m)).
  { apply map_ext_in. intros k Hk. apply in_seq in Hk. unfold paired.
    rewrite !(lookup_total_app_l hs) by lia. reflexivity. }
  rewrite Hfront. do 2 f_equal. unfold paired.
  replace (S (m * 2) - 1)%nat with (length hs) by lia.
  replace (2 * m)%nat with (length hs) by lia.
  rewrite !list_lookup_total_middle by reflexivity.
  replace (length hs + 1)%nat with (length (hs ++ [x])) by (rewrite length_app; cbn; lia).
  change (hs ++ [x; x]) with (hs ++ [x] ++ [x]). rewrite app_assoc.
  rewrite list_lookup_total_middle by reflexivity. reflexivity.
Qed.

(** Property X16.  Doubling the last hash of an odd list of three or more hashes does not
    change the top hash: two different lists of leaves have one root. *)
Theorem top_hash_duplicate_last fuel hs x :
  hs <> [] -> Nat.even (length hs) = true ->
  top_hash sha256 fuel (hs ++ [x]) = top_hash sha256 fuel (hs ++ [x; x]).
Proof.
  intros Hne He. destruct fuel as [|fuel]; [reflexivity|]. cbn [top_hash].
  assert (0 < length hs)%nat by (destruct hs; [congruence|cbn; lia]).
  replace (len (hs ++ [x]) =? 1) with false
    by (symmetry; apply Z.eqb_neq; unfold len; rewrite length_app; cbn [length]; lia).
  replace (len (hs ++ [x; x]) =? 1) with false
    by (symmetry; apply Z.eqb_neq; unfold len; rewrite length_app; cbn [length]; lia).
  rewrite pairwise_duplicate_last by exact He. reflexivity.
Qed.

(** The reading loop of [instance_id], block by block. *)
Lemma leaf_nodes_blocks rounds : forall data acc,
  (length data < rounds)%nat ->
  leaf_nodes sha256 rounds data acc
  = Ok (acc ++ leaves sha256 (Z.to_nat 64000) data).
Proof.
  induction rounds as [|rounds IH]; intros data acc Hr; [lia|].
  cbn [leaf_nodes]. unfold read.
  assert (Hsize : (0 < Z.to_nat 64000)%nat) by lia.
  set (size := Z.to_nat 64000) in *. clearbody size.
  destruct (take size data) as [|b chunk] eqn:Ht.
  - assert (data = []) as ->.
    { destruct data; [reflexivity|]. destruct size; [lia|discriminate]. }
    unfold leaves. cbn [length Nat.add].
    rewrite Nat.div_small by lia. cbn. now rewrite app_nil_r.
  - assert (Hpos : (0 < length data)%nat)
      by (destruct data; [destruct size; discriminate|cbn; lia]).
    rewrite IH by (rewrite length_drop; lia).
    rewrite <- app_assoc. do 2 f_equal. unfold leaves.
    assert (Hcount : ((length data + size - 1) / size
                      = S ((length (drop size data) + size - 1) / size))%nat).
    { rewrite length_drop. destruct (decide (size <= length data)%nat) as [Hle|Hgt].
      - replace (length data + size - 1)%nat
          with (length data - size + size - 1 + 1 * size)%nat by lia.
        rewrite Nat.div_add by lia. lia.
      - replace (length data - size + size - 1)%nat with (size - 1)%nat by lia.
        rewrite (Nat.div_small (size - 1)) by lia.
        replace (length data + size - 1)%nat with (length data - 1 + 1 * size)%nat by lia.
        rewrite Nat.div_add, Nat.div_small by lia. reflexivity. }
    rewrite Hcount. cbn [seq map app]. f_equal.
    + unfold leaf, block. cbn [Nat.mul]. rewrite drop_0, Ht. reflexivity.
    + rewrite <- seq_shift, map_map. apply map_ext. intros k.
      unfold leaf, block. rewrite drop_drop. do 4 f_equal; lia.
Qed.

Lemma length_leaves (size : nat) data :
  (0 < size)%nat ->
  len (leaves sha256 size data) = (len data + Z.of_nat size - 1) / Z.of_nat size.
Proof.
  intros Hsize. unfold leaves, len. rewrite length_map, length_seq, Nat2Z.inj_div.
  f_equal. lia.
Qed.

(** Property X17.  For a bytes buffer, which [instance_id] wraps in a
    [BytesIO] whose [read] is exact, the leaves that [instance_id] hashes
    are the double SHA-256 of the consecutive 64000-byte blocks of the
    input, each behind a zero byte: leaf [k] is made of
    [data[64000 * k:][:64000]], and there are [ceil(n / 64000)] leaves.
    (On a stream there is one leaf for each call of [read] that returns
    bytes, whatever it returns.) *)
Theorem leaf_nodes_leaves data :
  exists leaf_node_digests,
    leaf_nodes sha256 (S (length data)) data [] = Ok leaf_node_digests
    /\ Stream.leaf_nodes sha256 (S (length data)) (Stream.BytesIO data) []
       = Ok leaf_node_digests
    /\ len leaf_node_digests = (len data + 63999) / 64000
    /\ forall k, 0 <= k < len leaf_node_digests ->
         leaf_node_digests !! Z.to_nat k
         = Some (sha256d sha256 ([0x00] ++ slice_to (slice_from data (64000 * k)) 64000)).
Proof.
  exists (leaves sha256 (Z.to_nat 64000) data).
  assert (Hrun : leaf_nodes sha256 (S (length data)) data []
                 = Ok (leaves sha256 (Z.to_nat 64000) data))
    by (rewrite leaf_nodes_blocks by lia; reflexivity).
  split; [exact Hrun|]. split; [rewrite stream_leaf_nodes_BytesIO; exact Hrun|].
  assert (Hlen : len (leaves sha256 (Z.to_nat 64000) data) = (len data + 63999) / 64000).
  { rewrite length_leaves by lia. rewrite Z2Nat.id by lia. f_equal. lia. }
  split; [exact Hlen|]. intros k Hk.
  unfold leaves in *. unfold len in Hk. rewrite length_map, length_seq in Hk.
  rewrite list_lookup_fmap, lookup_seq_lt by lia. cbn [fmap option_fmap option_map Nat.add].
  unfold leaf, block. rewrite slice_from_nonneg, slice_to_nonneg by lia.
  rewrite Z2Nat.inj_mul, Nat.mul_comm by lia. reflexivity.
Qed.
End tophash_more.

(** ** The component builders *)




Lemma lookup_rev {A} (l : list A) : forall i,
  (i < length l)%nat -> rev l !! i = l !! (length l - S i)%nat.
Proof.
  induction l as [|x l IH]; intros i Hi; [cbn in Hi; lia|].
  cbn [rev length] in *. destruct (decide (i < length l)%nat) as [Hlt|Hge].
  - rewrite lookup_app_l by (rewrite length_rev; lia). rewrite IH by lia.
    replace (S (length l) - S i)%nat with (S (length l - S i)) by lia. reflexivity.
  - rewrite lookup_app_r by (rewrite length_rev; lia). rewrite length_rev.
    replace (i - length l)%nat with 0%nat by lia.
    replace (S (length l) - S i)%nat with 0%nat by lia. reflexivity.
Qed.

Lemma le_value_testbit ds : forall i,
  Forall (is_digit 2) ds ->
  Z.testbit (le_value 2 ds) (Z.of_nat i) = bool_decide (ds !! i = Some 1).
Proof.
  induction ds as [|d ds IH]; intros i Hds.
  - cbn. rewrite Z.testbit_0_l. reflexivity.
  - apply Forall_cons in Hds as [Hd Hds].
    cbn [le_value fold_right]. fold (le_value 2 ds).
    assert (Hd' : d = Z.b2z (Z.odd d)).
    { unfold is_digit in Hd. assert (d = 0 \/ d = 1) as [-> | ->] by lia; reflexivity. }
    rewrite Hd' at 1. rewrite Z.add_comm. destruct i as [|i].
    + change (Z.of_nat 0) with 0. rewrite Z.testbit_0_r. cbn [lookup list_lookup].
      unfold is_digit in Hd. assert (d = 0 \/ d = 1) as [-> | ->] by lia; reflexivity.
    + rewrite Nat2Z.inj_succ, Z.testbit_succ_r by lia. rewrite IH by assumption.
      reflexivity.
Qed.

Lemma binary_fold bits : forall acc,
  Forall (is_digit 2) bits ->
  for_each (fun acc c =>
    if c =? 0x30 then Ok (2 * acc)
    else if c =? 0x31 then Ok (2 * acc + 1)
    else Raise ValueError) (map (fun d => 0x30 + d) bits) acc
  = Ok (fold_left (fun acc d => acc * 2 + d) bits acc).
Proof.
  induction bits as [|d ds IH]; intros acc Hbits; [reflexivity|].
  apply Forall_cons in Hbits as [Hd Hds].
  cbn [map for_each fold_left]. unfold is_digit in Hd.
  assert (d = 0 \/ d = 1) as [-> | ->] by lia.
  - change (48 + 0 =? 48) with true. cbn [bind]. rewrite IH by assumption.
    do 2 f_equal. lia.
  - change (48 + 1 =? 48) with false. change (48 + 1 =? 49) with true. cbn [bind].
    rewrite IH by assumption. do 2 f_equal. lia.
Qed.

(** [int(s, 2)] on a string of the digits of [bits]. *)
Lemma int_base_2_bits bits :
  bits <> [] -> Forall (is_digit 2) bits ->
  int_base_2 (map (fun d => 0x30 + d) bits) = Ok (be_value 2 bits).
Proof.
  intros Hne Hbits. unfold int_base_2, be_value.
  rewrite <- binary_fold by assumption.
  destruct bits as [|b bits]; [congruence|reflexivity].
Qed.

(** The two halves of the digest string of [lsb_digest], as integers. *)
Lemma lsb_half_bits (half : list Z) (i : nat) :
  length half = 64%nat -> (i < 64)%nat ->
  Z.testbit (be_value 2 (map (fun x => Z.land x 1) half)) (Z.of_nat i)
  = Z.odd (half !!! (63 - i)%nat).
Proof.
  intros Hlen Hi. rewrite be_value_le_value, le_value_testbit.
  2:{ apply Forall_rev, Forall_map, Forall_forall. intros x _. unfold is_digit.
      rewrite land_1_bit. destruct (Z.testbit x 0); cbn; lia. }
  rewrite lookup_rev by (rewrite length_map; lia).
  rewrite length_map, Hlen, list_lookup_fmap.
  replace (64 - S i)%nat with (63 - i)%nat by lia.
  destruct (lookup_lt_is_Some_2 half (63 - i)%nat ltac:(lia)) as [x Hx].
  rewrite Hx, (list_lookup_total_correct _ _ _ Hx). cbn [fmap option_fmap option_map].
  rewrite land_1_bit, Z.bit0_odd. destruct (Z.odd x); reflexivity.
Qed.

(** Property X18.  The digest of steps 7 to 9 of [content_id_text] and 4 to 6 of
    [data_id]: 64 bits, of which bit [i], counted from the least
    significant, is set exactly when one of the minima in the slots
    [63 - i] and [127 - i] is odd.  The 128 low bits are folded into 64 by
    a bitwise OR. *)
Theorem lsb_digest_bits minhash :
  length minhash = 128%nat ->
  exists digest,
    lsb_digest minhash = Ok digest
    /\ length digest = 8%nat
    /\ forall i, (i < 64)%nat ->
         Z.testbit (from_bytes digest) (Z.of_nat i)
         = Z.odd (minhash !!! (63 - i)%nat) || Z.odd (minhash !!! (127 - i)%nat).
Proof.
  intros Hlen. unfold lsb_digest, str_of_digit.
  rewrite join_singletons.
  rewrite slice_to_nonneg, slice_from_nonneg by lia.
  replace (Z.to_nat 64) with 64%nat by lia.
  rewrite <- (map_map (fun x => Z.land x 1) (fun d => 48 + d)).
  rewrite firstn_map, skipn_map.
  set (bits_a := take 64 (map (fun x => Z.land x 1) minhash)).
  set (bits_b := drop 64 (map (fun x => Z.land x 1) minhash)).
  assert (Hbits : Forall (is_digit 2) (map (fun x => Z.land x 1) minhash)).
  { apply Forall_map, Forall_forall. intros x _. unfold is_digit.
    rewrite land_1_bit. destruct (Z.testbit x 0); cbn; lia. }
  assert (Hla : length bits_a = 64%nat)
    by (unfold bits_a; rewrite length_take, length_map; lia).
  assert (Hlb : length bits_b = 64%nat)
    by (unfold bits_b; rewrite length_drop, length_map; lia).
  assert (Hba : Forall (is_digit 2) bits_a) by (apply Forall_take, Hbits).
  assert (Hbb : Forall (is_digit 2) bits_b) by (apply Forall_drop, Hbits).
  rewrite (int_base_2_bits bits_a), (int_base_2_bits bits_b)
    by (assumption || (intros E; rewrite E in *; discriminate)).
  cbn [bind].
  assert (Hra : 0 <= be_value 2 bits_a < 256 ^ Z.of_nat 8).
  { rewrite be_value_le_value. pose proof (le_value_range 2 (rev bits_a) ltac:(lia)
      ltac:(apply Forall_rev, Hba)) as Hr. rewrite length_rev, Hla in Hr. exact Hr. }
  assert (Hrb : 0 <= be_value 2 bits_b < 256 ^ Z.of_nat 8).
  { rewrite be_value_le_value. pose proof (le_value_range 2 (rev bits_b) ltac:(lia)
      ltac:(apply Forall_rev, Hbb)) as Hr. rewrite length_rev, Hlb in Hr. exact Hr. }
  destruct (to_bytes_ok _ 8 Hra) as [Ha Hfa]. destruct (to_bytes_ok _ 8 Hrb) as [Hb Hfb].
  rewrite Ha, Hb. cbn [bind].
  set (va := be_value 2 bits_a) in *. set (vb := be_value 2 bits_b) in *.
  assert (Hror : 0 <= Z.lor va vb < 256 ^ Z.of_nat 8).
  { split; [apply Z.lor_nonneg; lia|].
    change (256 ^ Z.of_nat 8) with (2 ^ 64). apply bits_below; [lia|apply Z.lor_nonneg; lia|].
    intros j Hj. rewrite Z.lor_spec.
    rewrite (bits_above 64 va), (bits_above 64 vb) by (assumption || lia). reflexivity. }
  rewrite (similarity_hash_value [be_bytes 8 va; be_bytes 8 vb] 8 (Z.lor va vb)).
  - eexists. split; [reflexivity|]. split; [apply length_be_bytes|].
    intros i Hi. destruct (to_bytes_ok _ 8 Hror) as [_ ->].
    rewrite Z.lor_spec. unfold va, vb, bits_a, bits_b.
    rewrite firstn_map, skipn_map.
    rewrite !lsb_half_bits by (rewrite ?length_take, ?length_drop; lia).
    rewrite lookup_total_take_lt by lia. rewrite lookup_total_drop.
    replace (64 + (63 - i))%nat with (127 - i)%nat by lia. reflexivity.
  - discriminate.
  - repeat constructor; apply length_be_bytes.
  - exact Hror.
  - intros i _. rewrite Z.lor_spec, !count_bit_cons, count_bit_nil, Hfa, Hfb.
    change (len [be_bytes 8 va; be_bytes 8 vb]) with 2.
    destruct (Z.testbit va (Z.of_nat i)), (Z.testbit vb (Z.of_nat i)); reflexivity.
Qed.

Section data_id_facts.
Variable xxh32 : list Z -> Z.
Variables a b : list Z.
Variable CHUNKING_GEAR : list Z.
Variable V2CTABLE : gmap Z Z.
Variable HEAD_DID : list Z.
Hypothesis length_a : length a = 128%nat.
Hypothesis length_b : length b = 128%nat.
Hypothesis gear_entries : length CHUNKING_GEAR = 256%nat.
Hypothesis head_did_length : length HEAD_DID = 1%nat.

(** Property X19.  [data_id] returns a code of 13 characters for every byte buffer: no
    input makes the chunker, the minimum hash or the codec fail. *)
Theorem data_id_total data :
  is_bytes data ->
  exists code,
    data_id xxh32 (a, b) CHUNKING_GEAR V2CTABLE HEAD_DID data = Ok code
    /\ length code = 13%nat.
Proof.
  intros Hb. unfold data_id.
  destruct (data_chunks_ok CHUNKING_GEAR gear_entries data Hb) as (chunks & -> & _).
  cbn [bind].
  destruct (minimum_hash_length a b length_a length_b (map xxh32 chunks))
    as (minhash & -> & Hl).
  cbn [bind]. destruct (lsb_digest_ok minhash Hl) as (digest & -> & Hd). cbn [bind].
  destruct (encode_ok V2CTABLE (HEAD_DID ++ digest)) as (code & Hcode & Hcl).
  { right; right. rewrite length_app. lia. }
  exists code. split; [exact Hcode|].
  assert (length (HEAD_DID ++ digest) = 9%nat) by (rewrite length_app; lia). lia.
Qed.

End data_id_facts.

Section instance_id_facts.
Variable sha256 : list Z -> list Z.
Variable V2CTABLE : gmap Z Z.
Variable HEAD_IID : list Z.
Hypothesis sha256_length : forall data, length (sha256 data) = 32%nat.
Hypothesis head_iid_length : length HEAD_IID = 1%nat.

End instance_id_facts.

(** ** Trimming *)

Lemma utf8_char_ok c :
  encodable c -> exists bs, utf8_char c = Ok bs /\ len bs = utf8_width c.
Proof.
  unfold encodable, utf8_char, utf8_width. intros Hc.
  destruct (c <? 128); [eexists; split; reflexivity|].
  destruct (Z.ltb_spec c 2048); [eexists; split; reflexivity|].
  replace ((55296 <=? c) && (c <=? 57343)) with false.
  2:{ symmetry. apply andb_false_iff.
      destruct (Z.leb_spec 55296 c); [right; apply Z.leb_gt; lia|left; reflexivity]. }
  destruct (c <? 65536); eexists; split; reflexivity.
Qed.

Lemma utf8_encode_loop s : forall acc,
  Forall encodable s ->
  exists bs,
    for_each (fun acc c => let* bs := utf8_char c in Ok (acc ++ bs)) s acc = Ok (acc ++ bs)
    /\ len bs = utf8_length s.
Proof.
  induction s as [|c s IH]; intros acc Hs.
  - exists []. rewrite app_nil_r. split; reflexivity.
  - apply Forall_cons in Hs as [Hc Hs]. cbn [for_each].
    destruct (utf8_char_ok c Hc) as (bs & -> & Hw). cbn [bind].
    destruct (IH (acc ++ bs) Hs) as (rest & -> & Hr).
    exists (bs ++ rest). rewrite app_assoc. split; [reflexivity|].
    cbn [utf8_length fold_right]. fold (utf8_length s).
    unfold len in *. rewrite length_app. lia.
Qed.

Lemma utf8_encode_ok s :
  Forall encodable s -> exists bs, utf8_encode s = Ok bs /\ len bs = utf8_length s.
Proof.
  intros Hs. destruct (utf8_encode_loop s [] Hs) as (bs & Hrun & Hlen).
  exists bs. split; [exact Hrun|exact Hlen].
Qed.

Lemma utf8_width_pos c : 0 < utf8_width c.
Proof. unfold utf8_width. repeat destruct (_ <? _); lia. Qed.

Lemma utf8_length_nonneg s : 0 <= utf8_length s.
Proof.
  induction s as [|c s IH]; [reflexivity|].
  cbn [utf8_length fold_right]. fold (utf8_length s). pose proof (utf8_width_pos c). lia.
Qed.

Lemma slice_to_last {A} (text : list A) (n : nat) :
  (S n <= length text)%nat -> slice_to (take (S n) text) (-1) = take n text.
Proof.
  intros Hn. unfold slice_to. change (0 <=? -1) with false. cbn match.
  unfold len. rewrite length_take.
  replace (Z.to_nat (Z.of_nat (S n `min` length text) + -1)) with n by lia.
  rewrite take_take. f_equal. lia.
Qed.

Section trim_facts.
Variable INPUT_TRIM : Z.

Lemma trim_prefix text (n : nat) : forall fuel,
  0 <= INPUT_TRIM -> Forall encodable text ->
  (n <= length text)%nat -> (n < fuel)%nat ->
  (forall j, (n < j <= length text)%nat -> INPUT_TRIM < utf8_length (take j text)) ->
  exists k,
    trim INPUT_TRIM fuel (take n text) = Ok (take k text)
    /\ (k <= n)%nat
    /\ utf8_length (take k text) <= INPUT_TRIM
    /\ forall j, (k < j <= length text)%nat -> INPUT_TRIM < utf8_length (take j text).
Proof.
  intros fuel Htrim Henc. revert fuel.
  induction n as [|n IH]; intros fuel Hn Hfuel Hlonger.
  - destruct fuel as [|fuel]; [lia|]. exists 0%nat. cbn [trim].
    change (take 0 text) with (@nil Z).
    change (utf8_encode []) with (@Ok (list Z) []). cbn [bind].
    replace (len (@nil Z) <=? INPUT_TRIM) with true
      by (symmetry; apply Z.leb_le; unfold len; cbn; lia).
    split; [reflexivity|]. split; [lia|]. split; [cbn; lia|exact Hlonger].
  - destruct fuel as [|fuel]; [lia|]. cbn [trim].
    destruct (utf8_encode_ok (take (S n) text)) as (data & -> & Hdata);
      [apply Forall_take, Henc|].
    cbn [bind]. rewrite Hdata.
    destruct (Z.leb_spec (utf8_length (take (S n) text)) INPUT_TRIM) as [Hfit|Hover].
    + exists (S n). split; [reflexivity|]. split; [lia|]. split; [exact Hfit|exact Hlonger].
    + rewrite slice_to_last by exact Hn.
      destruct (IH fuel ltac:(lia) ltac:(lia)) as (k & Hrun & Hk & Hfit & Hmax).
      { intros j Hj. destruct (decide (j = S n)) as [->|Hne]; [exact Hover|].
        apply Hlonger. lia. }
      exists k. split; [exact Hrun|]. split; [lia|]. split; [exact Hfit|exact Hmax].
Qed.

(** Property X21.  [trim] returns the longest prefix of the text whose UTF-8 encoding
    has at most [INPUT_TRIM] bytes; it cuts whole characters, never inside
    the encoding of one. *)
Theorem trim_longest_prefix text fuel :
  0 <= INPUT_TRIM -> Forall encodable text -> (length text < fuel)%nat ->
  exists k data,
    trim INPUT_TRIM fuel text = Ok (take k text)
    /\ utf8_encode (take k text) = Ok data
    /\ len data <= INPUT_TRIM
    /\ forall j longer, (k < j <= length text)%nat ->
         utf8_encode (take j text) = Ok longer -> INPUT_TRIM < len longer.
Proof.
  intros Htrim Henc Hfuel.
  destruct (trim_prefix text (length text) fuel Htrim Henc ltac:(lia) Hfuel)
    as (k & Hrun & _ & Hfit & Hmax); [intros j Hj; lia|].
  rewrite firstn_all in Hrun.
  destruct (utf8_encode_ok (take k text)) as (data & Hdata & Hlen);
    [apply Forall_take, Henc|].
  exists k, data. split; [exact Hrun|]. split; [exact Hdata|]. split; [lia|].
  intros j longer Hj Hlonger.
  destruct (utf8_encode_ok (take j text)) as (data' & Hdata' & Hlen');
    [apply Forall_take, Henc|].
  assert (longer = data') as -> by congruence.
  rewrite Hlen'. apply Hmax, Hj.
Qed.

Lemma utf8_encode_surrogate s : forall acc,
  Exists (fun c => ~ encodable c) s ->
  for_each (fun acc c => let* bs := utf8_char c in Ok (acc ++ bs)) s acc
  = Raise UnicodeEncodeError.
Proof.
  induction s as [|c s IH]; intros acc Hex; [inversion Hex|].
  cbn [for_each]. destruct (decide (0xD800 <= c <= 0xDFFF)) as [Hsur|Hok].
  - unfold utf8_char.
    replace (c <? 128) with false by (symmetry; apply Z.ltb_ge; lia).
    replace (c <? 2048) with false by (symmetry; apply Z.ltb_ge; lia).
    replace ((55296 <=? c) && (c <=? 57343)) with true; [reflexivity|].
    symmetry. apply andb_true_iff. split; apply Z.leb_le; lia.
  - destruct (utf8_char_ok c Hok) as (bs & -> & _). cbn [bind]. apply IH.
    apply Exists_cons in Hex as [Hc|Hex]; [|exact Hex].
    exfalso. apply Hc. exact Hok.
Qed.

(** Property X22.  A lone surrogate anywhere in the text makes [trim] raise
    [UnicodeEncodeError], also when it stands beyond the part that would be
    kept: the whole text is encoded before anything is cut. *)
Theorem trim_surrogate text fuel :
  Exists (fun c => ~ encodable c) text ->
  trim INPUT_TRIM (S fuel) text = Raise UnicodeEncodeError.
Proof.
  intros Hex. cbn [trim]. unfold utf8_encode.
  rewrite utf8_encode_surrogate by exact Hex. reflexivity.
Qed.
End trim_facts.

(** ** Sliding windows *)

(** Property X23.  For a width of at least 2, [sliding_window] returns
    [max(n - width + 1, 1)] windows, window [i] being
    [text[i:i + width]]: when the sequence has [width] items or more,
    every window has exactly [width] items; a shorter sequence, the empty
    one too, gives one window, the sequence itself.  A smaller width fails
    the assertion. *)
Theorem sliding_window_windows {A} (text : list A) width :
  (width < 2 -> sliding_window text width = Raise AssertionError)
  /\ (2 <= width ->
      exists windows,
        sliding_window text width = Ok windows
        /\ len windows = Z.max (len text - width + 1) 1
        /\ (forall i, (Z.of_nat i < len windows) ->
              windows !! i = Some (take (Z.to_nat width) (drop i text)))
        /\ (width <= len text -> Forall (fun w => len w = width) windows)
        /\ (len text < width -> windows = [text])).
Proof.
  unfold sliding_window. split.
  - intros Hw. replace (2 <=? width) with false by (symmetry; apply Z.leb_gt; lia).
    reflexivity.
  - intros Hw. replace (2 <=? width) with true by (symmetry; apply Z.leb_le; lia).
    cbn [assert bind]. eexists. split; [reflexivity|].
    assert (Hlen : forall n, len (map (fun i => slice_to (slice_from text (Z.of_nat i)) width)
                                    (seq 0 n)) = Z.of_nat n).
    { intros n. unfold len. now rewrite length_map, length_seq. }
    assert (Hwin : forall i, slice_to (slice_from text (Z.of_nat i)) width
                             = take (Z.to_nat width) (drop i text)).
    { intros i. rewrite slice_from_nonneg, slice_to_nonneg, Nat2Z.id by lia. reflexivity. }
    split; [rewrite Hlen; lia|]. split; [|split].
    + intros i Hi. rewrite Hlen in Hi.
      rewrite list_lookup_fmap, lookup_seq_lt by lia. cbn. now rewrite Hwin.
    + intros Hfull. apply Forall_map, List.Forall_forall. intros i Hi. apply in_seq in Hi.
      rewrite Hwin. unfold len in *. rewrite length_take, length_drop. lia.
    + intros Hshort. replace (Z.to_nat (Z.max (len text - width + 1) 1)) with 1%nat by lia.
      cbn [seq map]. rewrite Hwin, drop_0. f_equal. apply take_ge. unfold len in *. lia.
Qed.

(** ** Distances *)

Lemma count_ones_zero z : 0 <= z -> count_ones z = 0 -> z = 0.
Proof.
  intros Hz Hc. destruct z as [|p|p]; [reflexivity| |lia].
  exfalso. cbn [count_ones] in Hc.
  assert (Hp : forall q, 0 < ones q) by (induction q; cbn [ones]; lia).
  specialize (Hp p). lia.
Qed.

Lemma count_ones_bound (n : nat) : forall z,
  0 <= z < 2 ^ Z.of_nat n -> count_ones z <= Z.of_nat n.
Proof.
  induction n as [|n IH]; intros z Hz.
  - change (2 ^ Z.of_nat 0) with 1 in Hz. assert (z = 0) as -> by lia. reflexivity.
  - rewrite Nat2Z.inj_succ, Z.pow_succ_r in Hz by lia.
    rewrite count_ones_halve by lia.
    assert (Hhalf : 0 <= z / 2 < 2 ^ Z.of_nat n)
      by (split; [apply Z.div_pos; lia|apply Z.div_lt_upper_bound; lia]).
    specialize (IH _ Hhalf).
    pose proof (Z.mod_pos_bound z 2 ltac:(lia)). lia.
Qed.

Lemma lxor_halve x y : Z.lxor x y / 2 = Z.lxor (x / 2) (y / 2).
Proof.
  rewrite <- !Z.div2_div, !Z.div2_spec. apply Z.shiftr_lxor.
Qed.

Lemma lxor_parity x y : Z.lxor x y mod 2 = (x mod 2 + y mod 2) mod 2.
Proof.
  rewrite <- !Z.bit0_mod, Z.lxor_spec, !Z.bit0_mod.
  pose proof (Z.mod_pos_bound x 2 ltac:(lia)). pose proof (Z.mod_pos_bound y 2 ltac:(lia)).
  rewrite <- !Z.bit0_mod in *.
  destruct (Z.testbit x 0), (Z.testbit y 0); reflexivity.
Qed.

(** The ones of an exclusive or are at most the ones of its operands. *)
Lemma count_ones_lxor (n : nat) : forall x y,
  0 <= x < 2 ^ Z.of_nat n -> 0 <= y < 2 ^ Z.of_nat n ->
  count_ones (Z.lxor x y) <= count_ones x + count_ones y.
Proof.
  induction n as [|n IH]; intros x y Hx Hy.
  - change (2 ^ Z.of_nat 0) with 1 in *. assert (x = 0) as -> by lia.
    assert (y = 0) as -> by lia. reflexivity.
  - rewrite Nat2Z.inj_succ, Z.pow_succ_r in * by lia.
    assert (Hxy : 0 <= Z.lxor x y) by (apply Z.lxor_nonneg; lia).
    rewrite (count_ones_halve (Z.lxor x y)), (count_ones_halve x), (count_ones_halve y) by lia.
    rewrite lxor_halve, lxor_parity.
    assert (Hx2 : 0 <= x / 2 < 2 ^ Z.of_nat n)
      by (split; [apply Z.div_pos; lia|apply Z.div_lt_upper_bound; lia]).
    assert (Hy2 : 0 <= y / 2 < 2 ^ Z.of_nat n)
      by (split; [apply Z.div_pos; lia|apply Z.div_lt_upper_bound; lia]).
    specialize (IH _ _ Hx2 Hy2).
    pose proof (Z.mod_pos_bound x 2 ltac:(lia)). pose proof (Z.mod_pos_bound y 2 ltac:(lia)).
    pose proof (Z.mod_pos_bound (x mod 2 + y mod 2) 2 ltac:(lia)).
    assert ((x mod 2 + y mod 2) mod 2 <= x mod 2 + y mod 2)
      by (apply Z.mod_le; lia).
    lia.
Qed.

Lemma below_pow2 x : 0 <= x -> exists n : nat, x < 2 ^ Z.of_nat n.
Proof.
  intros Hx. exists (Z.to_nat (Z.log2 x + 1)).
  rewrite Z2Nat.id by (pose proof (Z.log2_nonneg x); lia).
  destruct (decide (x = 0)) as [->|Hnz]; [cbn; lia|].
  apply Z.log2_spec. lia.
Qed.

(** Property X24.  [distance_int] on hashes, which are non-negative, is a metric: it is
    zero exactly on equal hashes, symmetric, and obeys the triangle
    inequality, so it can drive a metric index. *)
Theorem distance_int_metric x y z :
  0 <= x -> 0 <= y -> 0 <= z ->
  (Metrics.distance_int x y = 0 <-> x = y)
  /\ Metrics.distance_int x y = Metrics.distance_int y x
  /\ Metrics.distance_int x z <= Metrics.distance_int x y + Metrics.distance_int y z.
Proof.
  intros Hx Hy Hz. unfold Metrics.distance_int. split; [|split].
  - split.
    + intros H0. apply count_ones_zero in H0; [|apply Z.lxor_nonneg; lia].
      apply Z.lxor_eq, H0.
    + intros ->. now rewrite Z.lxor_nilpotent.
  - now rewrite Z.lxor_comm.
  - replace (Z.lxor x z) with (Z.lxor (Z.lxor x y) (Z.lxor y z)).
    2:{ rewrite Z.lxor_assoc, <- (Z.lxor_assoc y y z), Z.lxor_nilpotent, Z.lxor_0_l.
        reflexivity. }
    assert (Hxy : 0 <= Z.lxor x y) by (apply Z.lxor_nonneg; lia).
    assert (Hyz : 0 <= Z.lxor y z) by (apply Z.lxor_nonneg; lia).
    destruct (below_pow2 (Z.max (Z.lxor x y) (Z.lxor y z)) ltac:(lia)) as [n Hn].
    apply (count_ones_lxor n); lia.
Qed.

Lemma hamming_bound a b :
  is_bytes a -> is_bytes b -> length a = length b ->
  0 <= hamming a b <= 8 * len a.
Proof.
  intros Ha Hb Hlen. unfold hamming. split; [apply count_ones_nonneg|].
  pose proof (from_bytes_range a Ha) as Hra. pose proof (from_bytes_range b Hb) as Hrb.
  rewrite <- Hlen in Hrb.
  replace (8 * len a) with (Z.of_nat (8 * length a)) by (unfold len; lia).
  apply count_ones_bound. split; [apply Z.lxor_nonneg; lia|].
  replace (2 ^ Z.of_nat (8 * length a)) with (256 ^ Z.of_nat (length a)).
  2:{ change 256 with (2 ^ 8). rewrite <- Z.pow_mul_r by lia. f_equal. lia. }
  change 256 with (2 ^ 8) in *. rewrite <- Z.pow_mul_r in * by lia.
  apply bits_below; [lia|apply Z.lxor_nonneg; lia|].
  intros j Hj. rewrite Z.lxor_spec.
  rewrite (bits_above (8 * Z.of_nat (length a)) (from_bytes a)),
          (bits_above (8 * Z.of_nat (length a)) (from_bytes b)) by (assumption || lia).
  reflexivity.
Qed.

Lemma from_bytes_inj a b :
  is_bytes a -> is_bytes b -> length a = length b -> from_bytes a = from_bytes b -> a = b.
Proof.
  intros Ha Hb Hlen Heq.
  rewrite <- (be_bytes_from_bytes a Ha), <- (be_bytes_from_bytes b Hb), Hlen, Heq.
  reflexivity.
Qed.

Lemma hamming_zero a b :
  is_bytes a -> is_bytes b -> length a = length b -> (hamming a b = 0 <-> a = b).
Proof.
  intros Ha Hb Hlen. unfold hamming. split.
  - intros H0. apply from_bytes_inj; try assumption.
    apply Z.lxor_eq, count_ones_zero; [|exact H0].
    apply Z.lxor_nonneg. pose proof (from_bytes_nonneg a Ha).
    pose proof (from_bytes_nonneg b Hb). lia.
  - intros ->. now rewrite Z.lxor_nilpotent.
Qed.

(** Property X25.  [distance_bytes] raises [ValueError] exactly when the two digests have
    different lengths; for digests of one length it returns a number of
    differing bits between 0 and 8 per byte, zero exactly on equal digests,
    and the same in both directions. *)
Theorem distance_bytes_total a b :
  is_bytes a -> is_bytes b ->
  (length a <> length b -> Metrics.distance_bytes a b = Raise ValueError)
  /\ (length a = length b ->
      exists d, Metrics.distance_bytes a b = Ok d
        /\ Metrics.distance_bytes b a = Ok d
        /\ 0 <= d <= 8 * len a
        /\ (d = 0 <-> a = b)).
Proof.
  intros Ha Hb. split.
  - intros Hne. unfold Metrics.distance_bytes, Metrics.count_xor.
    rewrite bool_decide_eq_false_2; [reflexivity|].
    rewrite !length_bits_of_bytes. lia.
  - intros Hlen. exists (hamming a b).
    split; [apply distance_bytes_hamming; assumption|].
    split; [|split].
    + rewrite distance_bytes_hamming by auto. unfold hamming. now rewrite Z.lxor_comm.
    + apply hamming_bound; assumption.
    + apply hamming_zero; assumption.
Qed.

Section distance_more.
Variable decode_base32 : list Z -> result (list Z).
Variable read_header : list Z -> result Metrics.header.
Variable C2VTABLE : gmap Z Z.

Lemma decode_part_outcome code :
  (exists digest, decode_part C2VTABLE code = Ok digest
     /\ (length code = 2%nat /\ length digest = 1%nat
         \/ length code = 11%nat /\ length digest = 8%nat)
     /\ is_bytes digest)
  \/ (decode_part C2VTABLE code = Raise ValueError
      /\ length code <> 2%nat /\ length code <> 11%nat).
Proof.
  destruct (decide (length code = 2%nat)) as [H2|H2].
  - left. rewrite decode_part_2 by exact H2. eexists. split; [reflexivity|].
    split; [left; split; [exact H2|now rewrite length_rev, length_le_digits]|].
    apply Forall_rev, le_digits_range. lia.
  - destruct (decide (length code = 11%nat)) as [H11|H11].
    + left. rewrite decode_part_11 by exact H11. eexists. split; [reflexivity|].
      split; [right; split; [exact H11|now rewrite length_rev, length_le_digits]|].
      apply Forall_rev, le_digits_range. lia.
    + right. rewrite decode_part_other by assumption. auto.
Qed.

Lemma decode_outcome code :
  (exists digest, decode C2VTABLE code = Ok digest /\ is_bytes digest
     /\ (length code = 13%nat -> length digest = 9%nat))
  \/ decode C2VTABLE code = Raise ValueError.
Proof.
  unfold decode. destruct (decide (length code = 13%nat)) as [H13|H13].
  - rewrite bool_decide_eq_true_2 by exact H13.
    destruct (decode_part_outcome (take 2 code))
      as [(da & -> & [[_ Hla]|[Hbad _]] & Hba)|[_ [Hbad _]]];
      rewrite ?length_take in *; try lia.
    destruct (decode_part_outcome (drop 2 code))
      as [(db & -> & [[Hbad _]|[_ Hlb]] & Hbb)|[_ [_ Hbad]]];
      rewrite ?length_drop in *; try lia.
    left. exists (da ++ db). split; [reflexivity|].
    split; [apply Forall_app; auto|]. intros _. rewrite length_app. lia.
  - rewrite bool_decide_eq_false_2 by exact H13.
    destruct (decode_part_outcome code) as [(d & -> & _ & Hb)|[-> _]]; [left|right; reflexivity].
    exists d. split; [reflexivity|]. split; [exact Hb|]. intros; lia.
Qed.

(** Property X26.  [iscc.distance] is symmetric in its two arguments, whatever their
    types: the same number, or the same exception. *)
Theorem distance_symmetric (a b : code_value) :
  distance C2VTABLE a b = distance C2VTABLE b a.
Proof.
  unfold distance.
  destruct a as [x|sa|ba], b as [y|sb|bb]; cbn [bind]; try reflexivity.
  - now rewrite Z.lxor_comm.
  - destruct (decode_outcome sa) as [(da & -> & _)| ->],
             (decode_outcome sb) as [(db & -> & _)| ->]; cbn [bind]; try reflexivity.
    now rewrite Z.lxor_comm.
  - now rewrite Z.lxor_comm.
Qed.

(** Property X27.  On two strings of 13 characters, whatever the characters,
    [iscc.distance] returns a number between 0 and 64, and 0 when the
    strings are equal. *)
Theorem distance_of_codes sa sb :
  length sa = 13%nat -> length sb = 13%nat ->
  exists d, distance C2VTABLE (StrValue sa) (StrValue sb) = Ok d
    /\ 0 <= d <= 64
    /\ (sa = sb -> d = 0).
Proof.
  intros Ha Hb.
  destruct (decode_outcome sa) as [(da & Hda & Hba & Hla)|Hbad].
  2:{ exfalso. unfold decode in Hbad. rewrite bool_decide_eq_true_2 in Hbad by exact Ha.
      rewrite decode_part_2, decode_part_11 in Hbad
        by (rewrite ?length_take, ?length_drop; lia). discriminate. }
  destruct (decode_outcome sb) as [(db & Hdb & Hbb & Hlb)|Hbad].
  2:{ exfalso. unfold decode in Hbad. rewrite bool_decide_eq_true_2 in Hbad by exact Hb.
      rewrite decode_part_2, decode_part_11 in Hbad
        by (rewrite ?length_take, ?length_drop; lia). discriminate. }
  rewrite (distance_str C2VTABLE sa sb da db Hda Hdb).
  exists (hamming (drop 1 da) (drop 1 db)). split; [reflexivity|].
  specialize (Hla Ha). specialize (Hlb Hb).
  pose proof (hamming_bound (drop 1 da) (drop 1 db)
                ltac:(apply Forall_drop, Hba) ltac:(apply Forall_drop, Hbb)
                ltac:(rewrite !length_drop; lia)) as Hbound.
  unfold len in Hbound. rewrite length_drop, Hla in Hbound.
  split; [lia|]. intros ->.
  assert (da = db) as -> by congruence.
  unfold hamming. now rewrite Z.lxor_nilpotent.
Qed.

(** Property X28.  [metrics.distance_code] with the mixed flag compares main type and
    version only: it fails its assertion when one of them differs, and
    otherwise measures the two digests cut to the shorter declared length.
    When the strict comparison returns a distance, the mixed one returns
    the same. *)
Theorem distance_code_mixed_mode a b ra rb mta sta vsa lna ta mtb stb vsb lnb tb :
  decode_base32 a = Ok ra -> decode_base32 b = Ok rb ->
  read_header ra = Ok (mta, sta, vsa, lna, ta) ->
  read_header rb = Ok (mtb, stb, vsb, lnb, tb) ->
  (mta <> mtb \/ vsa <> vsb ->
     Metrics.distance_code decode_base32 read_header a b true = Raise AssertionError)
  /\ (mta = mtb -> vsa = vsb ->
      Metrics.distance_code decode_base32 read_header a b true
      = Metrics.distance_bytes (slice_to ta (Z.min lna lnb / 8))
                               (slice_to tb (Z.min lna lnb / 8)))
  /\ (forall d, Metrics.distance_code decode_base32 read_header a b false = Ok d ->
        Metrics.distance_code decode_base32 read_header a b true = Ok d).
Proof.
  intros Ha Hb Hra Hrb.
  assert (Hmixed : Metrics.distance_code decode_base32 read_header a b true
    = if bool_decide (mta = mtb) && bool_decide (vsa = vsb)
      then Metrics.distance_bytes (slice_to ta (Z.min lna lnb / 8))
                                  (slice_to tb (Z.min lna lnb / 8))
      else Raise AssertionError).
  { unfold Metrics.distance_code. rewrite Ha, Hb. cbn [bind]. rewrite Hra, Hrb. cbn [bind].
    destruct (bool_decide (mta = mtb) && bool_decide (vsa = vsb)); reflexivity. }
  split; [|split].
  - intros Hne. rewrite Hmixed.
    destruct Hne as [Hne|Hne]; rewrite (bool_decide_eq_false_2 _ Hne);
      rewrite ?andb_false_r; reflexivity.
  - intros Hmt Hvs. rewrite Hmixed, !bool_decide_eq_true_2 by assumption. reflexivity.
  - intros d Hstrict. rewrite Hmixed.
    rewrite (distance_code_strict decode_base32 read_header a b ra rb
               mta sta vsa lna ta mtb stb vsb lnb tb Ha Hb Hra Hrb) in Hstrict.
    destruct (decide ((mta, sta, vsa, lna) = (mtb, stb, vsb, lnb))) as [Heq|Hne].
    + rewrite bool_decide_eq_true_2 in Hstrict by exact Heq.
      injection Heq as -> -> -> ->.
      rewrite !bool_decide_eq_true_2 by reflexivity. cbn [andb].
      rewrite Z.min_id. exact Hstrict.
    + rewrite bool_decide_eq_false_2 in Hstrict by exact Hne. discriminate.
Qed.
End distance_more.

(** ** Header and body of a component code *)

Lemma to_bytes_length x n bs : to_bytes x n = Ok bs -> length bs = n.
Proof.
  unfold to_bytes. destruct (_ && _); [|discriminate].
  intros [= <-]. apply length_be_bytes.
Qed.

Lemma lsb_digest_length minhash digest :
  lsb_digest minhash = Ok digest -> length digest = 8%nat.
Proof.
  unfold lsb_digest.
  destruct (int_base_2 (slice_to _ 64)) as [va| |]; cbn [bind]; try discriminate.
  destruct (to_bytes va 8) as [a| |] eqn:Ha; cbn [bind]; try discriminate.
  destruct (int_base_2 (slice_from _ 64)) as [vb| |]; cbn [bind]; try discriminate.
  destruct (to_bytes vb 8) as [b| |] eqn:Hb; cbn [bind]; try discriminate.
  intros Hrun.
  destruct (similarity_hash_length [a; b] 8) as (out & Hout & Hlen).
  - discriminate.
  - repeat constructor; eapply to_bytes_length; eassumption.
  - congruence.
Qed.

Section header_and_body.
Variable V2CTABLE : gmap Z Z.

(** The code of a 9-byte record is the code of its first byte followed by
    the code of the other eight. *)
Lemma encode_header_body head digest :
  length head = 1%nat -> length digest = 8%nat ->
  exists code_head code_body,
    encode V2CTABLE head = Ok code_head
    /\ encode V2CTABLE digest = Ok code_body
    /\ length code_head = 2%nat /\ length code_body = 11%nat
    /\ encode V2CTABLE (head ++ digest) = Ok (code_head ++ code_body).
Proof.
  intros Hh Hd. unfold encode.
  rewrite (bool_decide_eq_false_2 (length head = 9%nat)) by lia.
  rewrite (bool_decide_eq_false_2 (length digest = 9%nat)) by lia.
  rewrite bool_decide_eq_true_2 by (rewrite length_app; lia).
  pose proof (take_app_length head digest) as Ht. rewrite Hh in Ht.
  pose proof (drop_app_length head digest) as Hdr. rewrite Hh in Hdr.
  rewrite Ht, Hdr.
  rewrite (encode_part_1 V2CTABLE head Hh), (encode_part_8 V2CTABLE digest Hd).
  cbn [bind]. eexists _, _. split; [reflexivity|]. split; [reflexivity|].
  rewrite !length_translate, !length_rev, !length_le_digits. auto.
Qed.

Variable normalize : normal_form -> list Z -> list Z.
Variable category : Z -> general_category.
Variable lower : Z -> list Z.
Variable xxh32 : list Z -> Z.
Variable MINHASH_PERMUTATIONS : list Z * list Z.
Variables HEAD_CID_T HEAD_CID_T_PCF : list Z.
Hypothesis head_cid_t_length : length HEAD_CID_T = 1%nat.
Hypothesis head_cid_t_pcf_length : length HEAD_CID_T_PCF = 1%nat.

(** Property X29.  The [partial] flag of [content_id_text] changes the header only: when
    the function returns a code for a text, it returns one with the flag
    set as well; both have 13 characters, the first two are the codes of
    the two header bytes, and the last eleven are the same. *)
Theorem content_id_text_partial text code :
  content_id_text normalize category lower xxh32 MINHASH_PERMUTATIONS V2CTABLE
    HEAD_CID_T HEAD_CID_T_PCF text false = Ok code ->
  exists code_pcf,
    content_id_text normalize category lower xxh32 MINHASH_PERMUTATIONS V2CTABLE
      HEAD_CID_T HEAD_CID_T_PCF text true = Ok code_pcf
    /\ length code = 13%nat /\ length code_pcf = 13%nat
    /\ encode V2CTABLE HEAD_CID_T = Ok (take 2 code)
    /\ encode V2CTABLE HEAD_CID_T_PCF = Ok (take 2 code_pcf)
    /\ drop 2 code = drop 2 code_pcf.
Proof.
  unfold content_id_text.
  destruct (sliding_window _ _) as [windows| |]; cbn [bind]; try discriminate.
  destruct (for_each _ _ _) as [features| |]; cbn [bind]; try discriminate.
  destruct (minimum_hash _ _) as [minhash| |]; cbn [bind]; try discriminate.
  destruct (lsb_digest minhash) as [digest| |] eqn:Hd; cbn [bind]; try discriminate.
  apply lsb_digest_length in Hd. intros Hrun.
  destruct (encode_header_body HEAD_CID_T digest head_cid_t_length Hd)
    as (h & body & Hh & Hb & Hlh & Hlb & Hfull).
  destruct (encode_header_body HEAD_CID_T_PCF digest head_cid_t_pcf_length Hd)
    as (h' & body' & Hh' & Hb' & Hlh' & Hlb' & Hpart).
  assert (body' = body) as -> by congruence.
  assert (code = h ++ body) as -> by congruence.
  exists (h' ++ body). split; [exact Hpart|].
  pose proof (take_app_length h body) as Ht. rewrite Hlh in Ht.
  pose proof (drop_app_length h body) as Hdr. rewrite Hlh in Hdr.
  pose proof (take_app_length h' body) as Ht'. rewrite Hlh' in Ht'.
  pose proof (drop_app_length h' body) as Hdr'. rewrite Hlh' in Hdr'.
  rewrite Ht, Ht', Hdr, Hdr', !length_app, Hlh, Hlh', Hlb.
  split; [reflexivity|]. split; [reflexivity|]. split; [exact Hh|]. split; [exact Hh'|].
  reflexivity.
Qed.
End header_and_body.

(** ** The two distances on digests *)

(** Property X30.  On two byte digests of one length the Hamming distance of [iscc.py]
    and the one of [metrics.py] agree; on digests of different lengths
    [iscc.distance] still returns a number, where [metrics.distance_bytes]
    raises. *)
Theorem distance_bytes_agree (C2VTABLE : gmap Z Z) a b :
  is_bytes a -> is_bytes b ->
  (length a = length b ->
     distance C2VTABLE (BytesValue a) (BytesValue b) = Metrics.distance_bytes a b)
  /\ (length a <> length b ->
      Metrics.distance_bytes a b = Raise ValueError
      /\ distance C2VTABLE (BytesValue a) (BytesValue b)
         = Ok (Metrics.distance_int (from_bytes a) (from_bytes b))).
Proof.
  intros Ha Hb. split.
  - intros Hlen. rewrite distance_bytes_hamming by assumption. reflexivity.
  - intros Hne. split; [|reflexivity].
    unfold Metrics.distance_bytes, Metrics.count_xor.
    rewrite bool_decide_eq_false_2; [reflexivity|].
    rewrite !length_bits_of_bytes. lia.
Qed.

(** * The model on concrete inputs *)

Example encode_header_byte : encode sample_V2CTABLE [0] = Ok (code_points "CC").
Proof. vm_compute. reflexivity. Qed.

Example encode_record :
  encode sample_V2CTABLE [0; 1; 2; 3; 4; 5; 6; 7; 255] = Ok (code_points "CCCrn6Uebx1dJ").
Proof. vm_compute. reflexivity. Qed.

Example encode_wrong_length : encode sample_V2CTABLE [0; 1] = Raise AssertionError.
Proof. vm_compute. reflexivity. Qed.

Example decode_wrong_length :
  decode sample_C2VTABLE (code_points "CCC") = Raise ValueError.
Proof. vm_compute. reflexivity. Qed.

Example decode_foreign_characters : decode sample_C2VTABLE (code_points "00") = Ok [16].
Proof. vm_compute. reflexivity. Qed.

Example similarity_hash_tie : similarity_hash [[0x0F]; [0xF0]] = Ok [0xFF].
Proof. vm_compute. reflexivity. Qed.

Example similarity_hash_minority : similarity_hash [[0x0F]; [0xF0]; [0x00]] = Ok [0x00].
Proof. vm_compute. reflexivity. Qed.

Example similarity_hash_unequal_lengths :
  similarity_hash [[1; 2]; [3]] = Raise AssertionError.
Proof. vm_compute. reflexivity. Qed.

Example similarity_hash_no_digest : similarity_hash [] = Raise IndexError.
Proof. vm_compute. reflexivity. Qed.

Example minimum_hash_short_tables : minimum_hash ([1], [2]) [5] = Raise IndexError.
Proof. vm_compute. reflexivity. Qed.

Example data_chunks_lengths :
  bind (data_chunks sample_GEAR (map (fun i => (Z.of_nat i * 7) mod 256) (seq 0 200)))
       (fun chunks => Ok (map len chunks))
  = Ok [81; 37; 57; 23; 2].
Proof. vm_compute. reflexivity. Qed.

Example data_chunks_short_read_lengths :
  Stream.data_chunks sample_GEAR
    {| Stream.unread := replicate 30 7; Stream.short_reads := replicate 5 7%positive |}
  = Ok [replicate 14 7; replicate 7 7; replicate 7 7; replicate 2 7].
Proof. vm_compute. reflexivity. Qed.

Example data_chunks_no_input : data_chunks sample_GEAR [] = Ok [].
Proof. vm_compute. reflexivity. Qed.

Example normalize_text_ascii :
  normalize_text ascii_normalize ascii_category ascii_lower (code_points "  Hello  World ? ")
  = code_points "hello world".
Proof. vm_compute. reflexivity. Qed.

Example sliding_window_short : sliding_window [1; 2; 3] 5 = Ok [[1; 2; 3]].
Proof. vm_compute. reflexivity. Qed.

Example sliding_window_no_word : sliding_window (@nil (list Z)) 5 = Ok [[]].
Proof. vm_compute. reflexivity. Qed.

Example top_hash_single_leaf : top_hash checksum32 1 [[1; 2; 3]] = Ok [1; 2; 3].
Proof. vm_compute. reflexivity. Qed.

Example top_hash_no_leaf : top_hash checksum32 1000 [] = OutOfFuel.
Proof. vm_compute. reflexivity. Qed.

Example distance_of_integers : distance sample_C2VTABLE (IntValue 5) (IntValue 6) = Ok 2.
Proof. vm_compute. reflexivity. Qed.

Example distance_of_mixed_types :
  distance sample_C2VTABLE (StrValue (code_points "CC")) (IntValue 6) = Raise TypeError.
Proof. vm_compute. reflexivity. Qed.

Example distance_code_other_sub_type :
  Metrics.distance_code plain_decode plain_header
    [1; 2; 0; 16; 255; 0] [1; 3; 0; 16; 0; 0] false = Raise AssertionError.
Proof. vm_compute. reflexivity. Qed.

Example distance_code_mixed :
  Metrics.distance_code plain_decode plain_header
    [1; 2; 0; 16; 255; 0] [1; 3; 0; 8; 0; 0] true = Ok 8.
Proof. vm_compute. reflexivity. Qed.

(** * Instances of the statements *)

Lemma checksum32_length data : length (checksum32 data) = 32%nat.
Proof. apply length_replicate. Qed.

(** The ASCII database has the six properties that idempotence rests on. *)

Lemma ascii_category_beyond c : ~ (0 <= c <= 127) -> ascii_category c = Cn.
Proof.
  intros Hc. unfold ascii_category.
  repeat (match goal with
          | |- context [Z.leb ?x ?y] => destruct (Z.leb_spec x y)
          | |- context [Z.eqb ?x ?y] => destruct (Z.eqb_spec x y)
          end; try lia; cbn [andb orb]); reflexivity.
Qed.

Lemma ascii_lower_kept c :
  ascii_normalize NFD [c] = [c] ->
  major (ascii_category c) ∈ whitelist ->
  Forall (kept ascii_normalize ascii_category ascii_lower) (ascii_lower c).
Proof.
  intros _ Hw.
  destruct (decide (0 <= c <= 127)) as [Hc|Hc].
  - assert (Hall : forallb (fun c =>
              implb (bool_decide (major (ascii_category c) ∈ whitelist))
                (forallb (fun x =>
                   bool_decide (major (ascii_category x) ∈ whitelist)
                   && bool_decide (ascii_lower x = [x])
                   && negb (isspace x)) (ascii_lower c)))
              (map Z.of_nat (seq 0 128)) = true) by (vm_compute; reflexivity).
    rewrite forallb_forall in Hall. specialize (Hall c).
    rewrite bool_decide_eq_true_2 in Hall by exact Hw. cbn [implb] in Hall.
    assert (Hin : In c (map Z.of_nat (seq 0 128))).
    { apply in_map_iff. exists (Z.to_nat c). split; [lia|]. apply in_seq. lia. }
    specialize (Hall Hin). rewrite forallb_forall in Hall.
    apply List.Forall_forall. intros x Hx. specialize (Hall x Hx).
    apply andb_true_iff in Hall as [Hall Hsp]. apply andb_true_iff in Hall as [Hcat Hlow].
    apply bool_decide_eq_true_1 in Hcat. apply bool_decide_eq_true_1 in Hlow.
    apply negb_true_iff in Hsp. repeat split; assumption.
  - rewrite (ascii_category_beyond c Hc) in Hw. exfalso.
    unfold whitelist in Hw.
    repeat (apply elem_of_cons in Hw as [Hw|Hw]; [discriminate|]).
    now apply elem_of_nil in Hw.
Qed.

(** Witness of C1: a 9-byte record. *)
Lemma decode_encode_witness :
  is_bytes [0; 1; 2; 3; 4; 5; 6; 7; 255]
  /\ exists code,
       encode sample_V2CTABLE [0; 1; 2; 3; 4; 5; 6; 7; 255] = Ok code
       /\ decode sample_C2VTABLE code = Ok [0; 1; 2; 3; 4; 5; 6; 7; 255].
Proof.
  assert (Hb : is_bytes [0; 1; 2; 3; 4; 5; 6; 7; 255])
    by (repeat constructor; unfold is_byte; lia).
  split; [exact Hb|].
  apply (decode_encode sample_V2CTABLE sample_C2VTABLE sample_tables_inverse
           [0; 1; 2; 3; 4; 5; 6; 7; 255] Hb).
  right; right. reflexivity.
Defined.

(** Witness of C2: two digests of two bytes. *)
Lemma similarity_hash_majority_witness :
  exists out,
    similarity_hash [[1; 2]; [3; 4]] = Ok out
    /\ length out = 2%nat
    /\ forall i, (i < 8 * 2)%nat ->
         (Z.testbit (from_bytes out) (Z.of_nat i) = true
          <-> len [[1; 2]; [3; 4]] <= 2 * count_bit [[1; 2]; [3; 4]] i).
Proof.
  apply (similarity_hash_majority [[1; 2]; [3; 4]] 2).
  - discriminate.
  - repeat constructor.
Defined.

(** Witness of C3: two features and the sample tables. *)
Lemma minimum_hash_slots_witness :
  exists out,
    minimum_hash sample_PERMUTATIONS [5; 77] = Ok out
    /\ length out = 128%nat
    /\ Forall (fun v => 0 <= v <= 2 ^ 32 - 1) out
    /\ forall x ax bx,
         sample_PERMUTATIONS.1 !! x = Some ax -> sample_PERMUTATIONS.2 !! x = Some bx ->
         out !! x = Some (slot_min ax bx [5; 77] (2 ^ 32 - 1)).
Proof.
  apply (minimum_hash_slots sample_PERMUTATIONS.1 sample_PERMUTATIONS.2); reflexivity.
Defined.

(** Witness of C4: thirty bytes delivered seven at a time, and a buffer of
    sixty bytes that is cut after 47. *)
Lemma data_chunks_concat_witness :
  (exists chunks,
     Stream.data_chunks sample_GEAR
       {| Stream.unread := replicate 30 7; Stream.short_reads := replicate 5 7%positive |}
     = Ok chunks
     /\ concat chunks = replicate 30 7)
  /\ (exists chunks,
        data_chunks sample_GEAR (map (fun i => Z.of_nat (i * i mod 251)) (seq 0 60))
        = Ok chunks
        /\ concat chunks = map (fun i => Z.of_nat (i * i mod 251)) (seq 0 60)).
Proof.
  destruct (data_chunks_concat sample_GEAR eq_refl) as [Hstream Hbuffer].
  split.
  - apply (Hstream {| Stream.unread := replicate 30 7;
                      Stream.short_reads := replicate 5 7%positive |}).
    apply Forall_replicate. unfold is_byte. lia.
  - apply Hbuffer. apply List.Forall_forall. intros x Hx.
    apply in_map_iff in Hx as (i & <- & _). unfold is_byte.
    pose proof (Nat.mod_upper_bound (i * i) 251 ltac:(lia)). lia.
Defined.

(** Witness of C5: the same two inputs. *)
Lemma data_chunks_sizes_witness :
  (exists chunks,
     Stream.data_chunks sample_GEAR
       (Stream.BytesIO (map (fun i => Z.of_nat (i * i mod 251)) (seq 0 60))) = Ok chunks
     /\ data_chunks sample_GEAR (map (fun i => Z.of_nat (i * i mod 251)) (seq 0 60))
        = Ok chunks
     /\ forall k chunk, chunks !! k = Some chunk ->
          let remaining :=
            drop (length (concat (take k chunks)))
                 (map (fun i => Z.of_nat (i * i mod 251)) (seq 0 60)) in
          Z.min (len remaining) (stage_min (Z.of_nat k)) <= len chunk
          <= stage_max (Z.of_nat k))
  /\ (exists chunks,
        Stream.data_chunks sample_GEAR
          {| Stream.unread := replicate 30 7; Stream.short_reads := replicate 5 7%positive |}
        = Ok chunks
        /\ forall k chunk, chunks !! k = Some chunk ->
             1 <= len chunk <= stage_max (Z.of_nat k)).
Proof.
  destruct (data_chunks_sizes sample_GEAR eq_refl) as [Hbuffer Hstream].
  split.
  - apply Hbuffer. apply List.Forall_forall. intros x Hx.
    apply in_map_iff in Hx as (i & <- & _). unfold is_byte.
    pose proof (Nat.mod_upper_bound (i * i) 251 ltac:(lia)). lia.
  - apply (Hstream {| Stream.unread := replicate 30 7;
                      Stream.short_reads := replicate 5 7%positive |}).
    apply Forall_replicate. unfold is_byte. lia.
Defined.

(** Witness of C6: two plain codes with one header and digests [0xFF 0x00]
    and [0x00 0x00], and two base58 codes. *)
Lemma distance_header_check_witness :
  Metrics.distance_code plain_decode plain_header
    [1; 2; 0; 16; 255; 0] [1; 2; 0; 16; 0; 0] false = Ok 8
  /\ distance sample_C2VTABLE (StrValue (code_points "CCCCCCCCCCCCC"))
       (StrValue (code_points "C2CCCCCCCCCCC")) = Ok 0.
Proof.
  destruct (distance_header_check plain_decode plain_header sample_C2VTABLE
              [1; 2; 0; 16; 255; 0] [1; 2; 0; 16; 0; 0]
              [1; 2; 0; 16; 255; 0] [1; 2; 0; 16; 0; 0]
              1 2 0 16 [255; 0] 1 2 0 16 [0; 0]
              (code_points "CCCCCCCCCCCCC") (code_points "C2CCCCCCCCCCC")
              [0; 0; 0; 0; 0; 0; 0; 0; 0] [1; 0; 0; 0; 0; 0; 0; 0; 0])
    as (_ & Hagree & Hlegacy); try reflexivity.
  split.
  - rewrite Hagree; [reflexivity|reflexivity| | |reflexivity];
      repeat constructor; unfold is_byte; lia.
  - rewrite Hlegacy. reflexivity.
Defined.

(** Witness of C8: an ASCII text. *)
Lemma normalize_text_idempotent_witness :
  normalize_text ascii_normalize ascii_category ascii_lower
    (normalize_text ascii_normalize ascii_category ascii_lower
       (code_points "  Hello  World ? "))
  = normalize_text ascii_normalize ascii_category ascii_lower
      (code_points "  Hello  World ? ").
Proof.
  apply (normalize_text_idempotent ascii_normalize ascii_category ascii_lower).
  - reflexivity.
  - reflexivity.
  - reflexivity.
  - exact ascii_lower_kept.
  - reflexivity.
  - reflexivity.
Defined.

(** Witness of C9: the checksum in the place of [sha256]. *)
Lemma top_hash_terminates_witness :
  exists root depth,
    length root = 32%nat
    /\ Nat.iter depth (pair_up checksum32)
         [checksum32 [1]; checksum32 [2]; checksum32 [3]] = [root]
    /\ (forall d, (d < depth)%nat ->
          (2 <= length (Nat.iter d (pair_up checksum32)
                          [checksum32 [1%Z]; checksum32 [2%Z]; checksum32 [3%Z]]))%nat)
    /\ forall fuel, (3 <= fuel)%nat ->
         top_hash checksum32 fuel [checksum32 [1]; checksum32 [2]; checksum32 [3]] = Ok root.
Proof.
  destruct (top_hash_terminates checksum32 sample_V2CTABLE [0x30]
              checksum32_length eq_refl) as (Hroot & _).
  apply (Hroot [checksum32 [1]; checksum32 [2]; checksum32 [3]]).
  - discriminate.
  - repeat constructor.
Defined.

(** Witness of C10: the sample tables and one-byte headers. *)
Lemma empty_input_codes_witness :
  minimum_hash sample_PERMUTATIONS [] = Ok (replicate 128 (2 ^ 32 - 1))
  /\ (exists code,
        content_id_text ascii_normalize ascii_category ascii_lower checksum
          sample_PERMUTATIONS sample_V2CTABLE [0x10] [0x11] [] false = Ok code
        /\ length code = 13%nat)
  /\ (exists code,
        data_id checksum sample_PERMUTATIONS sample_GEAR sample_V2CTABLE [0x20] [] = Ok code
        /\ length code = 13%nat
        /\ encode sample_V2CTABLE ([0x20] ++ replicate 8 255) = Ok code).
Proof.
  apply (empty_input_codes ascii_normalize ascii_category ascii_lower checksum
           sample_PERMUTATIONS.1 sample_PERMUTATIONS.2 sample_GEAR sample_V2CTABLE
           [0x10] [0x11] [0x20]); reflexivity.
Defined.

(** * Instances of the further statements *)

(** The code of the header byte [0x10] is made of digits. *)
Lemma encode_digits_witness :
  exists digits, Forall (is_digit 58) digits
    /\ code_points "CT" = translate digits sample_V2CTABLE.
Proof.
  apply (encode_digits sample_V2CTABLE [16] (code_points "CT")). reflexivity.
Defined.

(** Two digests with the code of [0x10]. *)
Lemma encode_injective_witness : [16] = [16].
Proof.
  apply (encode_injective sample_V2CTABLE sample_C2VTABLE sample_tables_inverse
           [16] [16] (code_points "CT")); try reflexivity;
    repeat constructor; unfold is_byte; lia.
Defined.

(** The code [zz] stands for 3363, beyond one byte. *)
Lemma decode_wraps_witness :
  exists digest,
    decode sample_C2VTABLE (code_points "zz") = Ok digest
    /\ length digest = 1%nat
    /\ from_bytes digest
       = be_value 58 (translate (code_points "zz") sample_C2VTABLE) mod 256 ^ Z.of_nat 1.
Proof.
  apply (decode_wraps sample_C2VTABLE (code_points "zz") 1). left. split; reflexivity.
Defined.

(** A digest of two bytes after one of one byte. *)
Lemma similarity_hash_unequal_witness :
  similarity_hash [[1]; [1; 2]] = Raise AssertionError
  /\ similarity_hash [] = Raise IndexError.
Proof.
  apply (similarity_hash_unequal [1] [[1; 2]]). apply Exists_cons_hd. discriminate.
Defined.

Lemma similarity_hash_single_witness : similarity_hash [[1; 2; 3]] = Ok [1; 2; 3].
Proof.
  apply (similarity_hash_single [1; 2; 3]). repeat constructor; unfold is_byte; lia.
Defined.

Lemma similarity_hash_pair_witness :
  similarity_hash [[15; 1]; [240; 1]] = Ok (zip_with Z.lor [15; 1] [240; 1]).
Proof.
  apply (similarity_hash_pair [15; 1] [240; 1]); try reflexivity;
    repeat constructor; unfold is_byte; lia.
Defined.

Lemma similarity_hash_permutation_witness :
  similarity_hash [[1]; [2]; [3]] = similarity_hash [[2]; [1]; [3]].
Proof.
  apply (similarity_hash_permutation [[1]; [2]; [3]] [[2]; [1]; [3]]). apply perm_swap.
Defined.

Lemma minimum_hash_app_witness :
  exists u v,
    minimum_hash sample_PERMUTATIONS [5] = Ok u
    /\ minimum_hash sample_PERMUTATIONS [77; 9] = Ok v
    /\ minimum_hash sample_PERMUTATIONS ([5] ++ [77; 9]) = Ok (zip_with Z.min u v).
Proof.
  apply (minimum_hash_app sample_PERMUTATIONS.1 sample_PERMUTATIONS.2); reflexivity.
Defined.

Lemma minimum_hash_permutation_witness :
  minimum_hash sample_PERMUTATIONS [5; 77; 9] = minimum_hash sample_PERMUTATIONS [77; 5; 9].
Proof.
  apply (minimum_hash_permutation sample_PERMUTATIONS.1 sample_PERMUTATIONS.2);
    [reflexivity|reflexivity|apply perm_swap].
Defined.

(** A buffer of sixty bytes that is cut after 47, and three more bytes. *)
Lemma chunk_length_prefix_witness :
  chunk_length sample_GEAR
    (map (fun i => Z.of_nat (i * i mod 251)) (seq 0 60) ++ [1; 2; 3])
    40 20 640 0x016118 0x00a0b1 = Ok 47.
Proof.
  apply (chunk_length_prefix sample_GEAR
           (map (fun i => Z.of_nat (i * i mod 251)) (seq 0 60)) [1; 2; 3]
           40 20 640 0x016118 0x00a0b1 47).
  - lia.
  - lia.
  - vm_compute. reflexivity.
  - vm_compute. reflexivity.
Defined.

Lemma data_chunks_nonempty_witness :
  (exists chunks,
     Stream.data_chunks sample_GEAR
       {| Stream.unread := replicate 30 7; Stream.short_reads := replicate 5 7%positive |}
     = Ok chunks
     /\ Forall (fun c => c <> []) chunks
     /\ (length chunks <= length (replicate 30 7))%nat)
  /\ (exists chunks,
        data_chunks sample_GEAR (replicate 30 7) = Ok chunks
        /\ Forall (fun c => c <> []) chunks
        /\ (length chunks <= length (replicate 30 7))%nat).
Proof.
  destruct (data_chunks_nonempty sample_GEAR eq_refl) as [Hstream Hbuffer].
  split.
  - apply (Hstream {| Stream.unread := replicate 30 7;
                      Stream.short_reads := replicate 5 7%positive |}).
    apply Forall_replicate. unfold is_byte. lia.
  - apply Hbuffer. apply Forall_replicate. unfold is_byte. lia.
Defined.

(** A buffer of sixty bytes that is cut after 47: two chunks. *)
Lemma data_chunks_only_last_short_witness :
  exists chunks,
    Stream.data_chunks sample_GEAR
      (Stream.BytesIO (map (fun i => Z.of_nat (i * i mod 251)) (seq 0 60))) = Ok chunks
    /\ data_chunks sample_GEAR (map (fun i => Z.of_nat (i * i mod 251)) (seq 0 60)) = Ok chunks
    /\ forall k chunk, chunks !! k = Some chunk -> (S k < length chunks)%nat ->
         stage_min (Z.of_nat k) <= len chunk.
Proof.
  apply (data_chunks_only_last_short sample_GEAR); [reflexivity|].
  apply List.Forall_forall. intros x Hx.
  apply in_map_iff in Hx as (i & <- & _). unfold is_byte.
  pose proof (Nat.mod_upper_bound (i * i) 251 ltac:(lia)). lia.
Defined.

Lemma data_chunks_small_witness :
  data_chunks sample_GEAR [1; 2; 3] = Ok [[1; 2; 3]]
  /\ Stream.data_chunks sample_GEAR (Stream.BytesIO [1; 2; 3]) = Ok [[1; 2; 3]].
Proof.
  apply (data_chunks_small sample_GEAR); [reflexivity| |unfold len; cbn; lia].
  repeat constructor; unfold is_byte; lia.
Defined.

(** Three leaves need three nested calls. *)
Lemma top_hash_depth_witness :
  exists root,
    top_hash checksum32 3 [checksum32 [1]; checksum32 [2]; checksum32 [3]] = Ok root.
Proof.
  apply (top_hash_depth checksum32 2); [discriminate|cbn; lia].
Defined.

Lemma top_hash_duplicate_last_witness :
  top_hash checksum32 3 ([checksum32 [1]; checksum32 [2]] ++ [checksum32 [3]])
  = top_hash checksum32 3 ([checksum32 [1]; checksum32 [2]]
                             ++ [checksum32 [3]; checksum32 [3]]).
Proof.
  apply (top_hash_duplicate_last checksum32 3); [discriminate|reflexivity].
Defined.

Lemma lsb_digest_bits_witness :
  exists digest,
    lsb_digest (replicate 128 1) = Ok digest
    /\ length digest = 8%nat
    /\ forall i, (i < 64)%nat ->
         Z.testbit (from_bytes digest) (Z.of_nat i)
         = Z.odd (replicate 128 1 !!! (63 - i)%nat)
           || Z.odd (replicate 128 1 !!! (127 - i)%nat).
Proof.
  apply (lsb_digest_bits (replicate 128 1)). reflexivity.
Defined.

Lemma data_id_total_witness :
  exists code,
    data_id checksum sample_PERMUTATIONS sample_GEAR sample_V2CTABLE [0x20] [1; 2; 3]
    = Ok code
    /\ length code = 13%nat.
Proof.
  apply (data_id_total checksum sample_PERMUTATIONS.1 sample_PERMUTATIONS.2
           sample_GEAR sample_V2CTABLE [0x20]); try reflexivity.
  repeat constructor; unfold is_byte; lia.
Defined.


Lemma trim_longest_prefix_witness :
  exists k data,
    trim 4 6 (code_points "abcde") = Ok (take k (code_points "abcde"))
    /\ utf8_encode (take k (code_points "abcde")) = Ok data
    /\ len data <= 4
    /\ forall j longer, (k < j <= length (code_points "abcde"))%nat ->
         utf8_encode (take j (code_points "abcde")) = Ok longer -> 4 < len longer.
Proof.
  apply (trim_longest_prefix 4 (code_points "abcde") 6); [lia| |cbn; lia].
  change (code_points "abcde") with [97; 98; 99; 100; 101].
  repeat (constructor; [unfold encodable; lia|]). constructor.
Defined.

Lemma trim_surrogate_witness :
  trim 128 (S 0) [0x61; 0xD800] = Raise UnicodeEncodeError.
Proof.
  apply (trim_surrogate 128 [0x61; 0xD800] 0).
  apply Exists_cons_tl, Exists_cons_hd. unfold encodable. intros H. apply H. lia.
Defined.

Lemma distance_int_metric_witness :
  (Metrics.distance_int 5 3 = 0 <-> 5 = 3)
  /\ Metrics.distance_int 5 3 = Metrics.distance_int 3 5
  /\ Metrics.distance_int 5 6 <= Metrics.distance_int 5 3 + Metrics.distance_int 3 6.
Proof.
  apply (distance_int_metric 5 3 6); lia.
Defined.

Lemma distance_bytes_total_witness :
  (length [1; 2] <> length [3; 4] -> Metrics.distance_bytes [1; 2] [3; 4] = Raise ValueError)
  /\ (length [1; 2] = length [3; 4] ->
      exists d, Metrics.distance_bytes [1; 2] [3; 4] = Ok d
        /\ Metrics.distance_bytes [3; 4] [1; 2] = Ok d
        /\ 0 <= d <= 8 * len [1; 2]
        /\ (d = 0 <-> [1; 2] = [3; 4])).
Proof.
  apply (distance_bytes_total [1; 2] [3; 4]); repeat constructor; unfold is_byte; lia.
Defined.

Lemma distance_of_codes_witness :
  exists d,
    distance sample_C2VTABLE (StrValue (code_points "CCCCCCCCCCCCC"))
      (StrValue (code_points "C2CCCCCCCCCCz")) = Ok d
    /\ 0 <= d <= 64
    /\ (code_points "CCCCCCCCCCCCC" = code_points "C2CCCCCCCCCCz" -> d = 0).
Proof.
  apply (distance_of_codes sample_C2VTABLE); reflexivity.
Defined.

(** Two plain codes of one main type and version, with sub types 2 and 3
    and declared lengths of 16 and 8 bits. *)
Lemma distance_code_mixed_mode_witness :
  (1 <> 1 \/ 0 <> 0 ->
     Metrics.distance_code plain_decode plain_header
       [1; 2; 0; 16; 255; 0] [1; 3; 0; 8; 0] true = Raise AssertionError)
  /\ (1 = 1 -> 0 = 0 ->
      Metrics.distance_code plain_decode plain_header
        [1; 2; 0; 16; 255; 0] [1; 3; 0; 8; 0] true
      = Metrics.distance_bytes (slice_to [255; 0] (Z.min 16 8 / 8))
                               (slice_to [0] (Z.min 16 8 / 8)))
  /\ (forall d,
        Metrics.distance_code plain_decode plain_header
          [1; 2; 0; 16; 255; 0] [1; 3; 0; 8; 0] false = Ok d ->
        Metrics.distance_code plain_decode plain_header
          [1; 2; 0; 16; 255; 0] [1; 3; 0; 8; 0] true = Ok d).
Proof.
  apply (distance_code_mixed_mode plain_decode plain_header
           [1; 2; 0; 16; 255; 0] [1; 3; 0; 8; 0]
           [1; 2; 0; 16; 255; 0] [1; 3; 0; 8; 0]
           1 2 0 16 [255; 0] 1 3 0 8 [0]); reflexivity.
Defined.

Lemma content_id_text_partial_witness :
  exists code_pcf,
    content_id_text ascii_normalize ascii_category ascii_lower checksum
      sample_PERMUTATIONS sample_V2CTABLE [0x10] [0x11] (code_points "a b") true
    = Ok code_pcf
    /\ length (code_points "CTjhF6YsXC9S8") = 13%nat /\ length code_pcf = 13%nat
    /\ encode sample_V2CTABLE [0x10] = Ok (take 2 (code_points "CTjhF6YsXC9S8"))
    /\ encode sample_V2CTABLE [0x11] = Ok (take 2 code_pcf)
    /\ drop 2 (code_points "CTjhF6YsXC9S8") = drop 2 code_pcf.
Proof.
  apply (content_id_text_partial sample_V2CTABLE ascii_normalize ascii_category
           ascii_lower checksum sample_PERMUTATIONS [0x10] [0x11] eq_refl eq_refl
           (code_points "a b")).
  vm_compute. reflexivity.
Defined.

Lemma distance_bytes_agree_witness :
  (length [1; 2] = length [3; 4] ->
     distance sample_C2VTABLE (BytesValue [1; 2]) (BytesValue [3; 4])
     = Metrics.distance_bytes [1; 2] [3; 4])
  /\ (length [1; 2] <> length [3; 4] ->
      Metrics.distance_bytes [1; 2] [3; 4] = Raise ValueError
      /\ distance sample_C2VTABLE (BytesValue [1; 2]) (BytesValue [3; 4])
         = Ok (Metrics.distance_int (from_bytes [1; 2]) (from_bytes [3; 4]))).
Proof.
  apply (distance_bytes_agree sample_C2VTABLE [1; 2] [3; 4]);
    repeat constructor; unfold is_byte; lia.
Defined.
